(** * api-client-generator: the specification normalizer and the TypeScript
      generation engine, embedded in Rocq

    The development follows the sources file by file:
    - [JS]         the fragment of JavaScript the sources rely on: values as
                   [JSON.parse] produces them, truthiness, property reads,
                   string conversion, exceptions;
    - [Parser]     src/parser.ts, class OpenAPIParser;
    - [Node]       the calls to the file system and to the console, as a
                   trace of events;
    - [TypeScript] src/generators/typescript.ts, class TypeScriptGenerator and
                   the error taxonomy it emits;
    - [Engine]     src/engine.ts, class CodeGeneratorEngine and BaseGenerator;
    - [Cli]        the command-line program, its commands generateClient
                   and watchAndGenerate;
    - [Spec]       the vocabulary of the statements and the sample inputs,
                   followed by the properties.

    Conventions.  Strings are sequences of 8-bit characters; the case
    conversions act on the ASCII letters, which is what the sources apply them
    to (HTTP verbs, type labels, identifiers).  Numbers are the integers a
    double holds exactly.  A JavaScript object is the list of its own
    enumerable properties in property order, the order [Object.entries]
    follows. *)

From Stdlib Require Import String Ascii List ZArith Bool Lia Arith DecimalString
  Permutation.
Import ListNotations.
Local Open Scope list_scope.
Local Open Scope string_scope.

(* ================================================================== *)
(** * The JavaScript fragment *)
(* ================================================================== *)

Module JS.

(** Values: what [JSON.parse] returns, and [undefined]. *)
#[warnings="-register-all"]
Inductive value : Type :=
| Undefined
| Null
| Boolean (b : bool)
| Number (n : Z)
| Str (s : string)
| Arr (elements : list value)
| Obj (fields : list (string * value)).

(** Exceptions.  [Error message] is [new Error(message)]; the text of a
    TypeError is the engine's, and is not recorded. *)
Inductive exn : Type :=
| TypeError
| Error (message : string).

(** The completion of an evaluation: a value, an exception, or [Beyond] for
    the few implicit conversions (a non-numeric operand of [>], the decimal
    form of a number a double does not hold exactly) that are left outside
    the fragment. *)
Inductive result (A : Type) : Type :=
| Ok (a : A)
| Throw (e : exn)
| Beyond.

Arguments Ok {A} a.
Arguments Throw {A} e.
Arguments Beyond {A}.

Definition bind {A B : Type} (r : result A) (k : A -> result B) : result B :=
  match r with
  | Ok a => k a
  | Throw e => Throw e
  | Beyond => Beyond
  end.

(** [forEach f l]: run [f] on the elements of [l] from left to right and
    collect what it returns; the first exception ends the loop. *)
Fixpoint forEach {A B : Type} (f : A -> result B) (l : list A) : result (list B) :=
  match l with
  | [] => Ok []
  | a :: l' =>
      bind (f a) (fun b => bind (forEach f l') (fun bs => Ok (b :: bs)))
  end.

(** ** Characters and strings *)

Definition isUpper (c : ascii) : bool := (("A" <=? c) && (c <=? "Z"))%char.
Definition isLower (c : ascii) : bool := (("a" <=? c) && (c <=? "z"))%char.
Definition isDigit (c : ascii) : bool := (("0" <=? c) && (c <=? "9"))%char.

(** The class [a-zA-Z0-9] of the regular expressions. *)
Definition isAlnum (c : ascii) : bool := isLower c || isUpper c || isDigit c.

(** The characters [.] does not match: line feed and carriage return. *)
Definition isLineTerminator (c : ascii) : bool :=
  (Ascii.eqb c "010" || Ascii.eqb c "013")%char.

Definition upper (c : ascii) : ascii :=
  if isLower c then ascii_of_nat (nat_of_ascii c - 32) else c.

Definition lower (c : ascii) : ascii :=
  if isUpper c then ascii_of_nat (nat_of_ascii c + 32) else c.

Fixpoint mapChars (f : ascii -> ascii) (s : string) : string :=
  match s with
  | EmptyString => EmptyString
  | String c s' => String (f c) (mapChars f s')
  end.

(** [s.toUpperCase()] and [s.toLowerCase()], which are these functions on
    ASCII text; a statement about other text says so. *)
Definition toUpperCase : string -> string := mapChars upper.
Definition toLowerCase : string -> string := mapChars lower.

(** [s.charAt(0)] and [s.slice(1)]. *)
Definition charAt0 (s : string) : string :=
  match s with
  | EmptyString => EmptyString
  | String c _ => String c EmptyString
  end.

Definition slice1 (s : string) : string :=
  match s with
  | EmptyString => EmptyString
  | String _ s' => s'
  end.

(** [s.split(sep)] for a separator of one character. *)
Fixpoint split (sep : ascii) (s : string) : list string :=
  match s with
  | EmptyString => [EmptyString]
  | String c s' =>
      if Ascii.eqb c sep then EmptyString :: split sep s'
      else match split sep s' with
           | h :: t => String c h :: t
           | [] => [String c EmptyString]
           end
  end.

(** [parts.join(sep)]. *)
Fixpoint join (sep : string) (parts : list string) : string :=
  match parts with
  | [] => EmptyString
  | [p] => p
  | p :: rest => p ++ sep ++ join sep rest
  end.

Definition startsWith (p s : string) : bool := String.prefix p s.

(** [s.includes(needle)] on strings: [needle] occurs in [s]. *)
Fixpoint occursIn (needle s : string) : bool :=
  String.prefix needle s ||
  match s with
  | EmptyString => false
  | String _ s' => occursIn needle s'
  end.

Definition nonEmpty (s : string) : bool := negb (String.eqb s EmptyString).

(** The last element of the array [split] returns. *)
Definition lastPart (parts : list string) : string := last parts EmptyString.

Definition natToString (n : nat) : string :=
  NilEmpty.string_of_uint (Nat.to_uint n).

Definition intToString (n : Z) : string :=
  NilEmpty.string_of_int (Z.to_int n).

(** [s.trim()]: white space and line terminators removed at both ends. *)
Definition isSpace (c : ascii) : bool :=
  (Ascii.eqb c " " || Ascii.eqb c "009" || Ascii.eqb c "010" || Ascii.eqb c "011"
   || Ascii.eqb c "012" || Ascii.eqb c "013" || Ascii.eqb c "160")%char.

Fixpoint trimStart (s : string) : string :=
  match s with
  | EmptyString => EmptyString
  | String c s' => if isSpace c then trimStart s' else s
  end.

Fixpoint trimEnd (s : string) : string :=
  match s with
  | EmptyString => EmptyString
  | String c s' =>
      match trimEnd s' with
      | EmptyString => if isSpace c then EmptyString else String c EmptyString
      | t => String c t
      end
  end.

Definition trim (s : string) : string := trimEnd (trimStart s).

(** ** Truthiness and property reads *)

Definition truthy (v : value) : bool :=
  match v with
  | Undefined | Null => false
  | Boolean b => b
  | Number n => negb (n =? 0)%Z
  | Str s => nonEmpty s
  | Arr _ | Obj _ => true
  end.

(** [a || b] on values. *)
Definition or (a b : value) : value := if truthy a then a else b.

Definition isNullish (v : value) : bool :=
  match v with
  | Undefined | Null => true
  | _ => false
  end.

Fixpoint lookup {A : Type} (k : string) (fs : list (string * A)) : option A :=
  match fs with
  | [] => None
  | (k', v) :: fs' => if String.eqb k k' then Some v else lookup k fs'
  end.

Definition indexed {A : Type} (l : list A) : list (string * A) :=
  combine (map natToString (seq 0 (length l))) l.

Definition chars (s : string) : list value :=
  map (fun c => Str (String c EmptyString)) (list_ascii_of_string s).

(** [Object.entries(v)] for a [v] that is neither null nor undefined: the
    own enumerable properties, an array's and a string's being their
    indices. *)
Definition ownEntries (v : value) : list (string * value) :=
  match v with
  | Obj fs => fs
  | Arr l => indexed l
  | Str s => indexed (chars s)
  | _ => []
  end.

(** [Object.entries(v)] and [Object.keys(v)]; both throw on null and
    undefined. *)
Definition entries (v : value) : result (list (string * value)) :=
  if isNullish v then Throw TypeError else Ok (ownEntries v).

Definition keys (v : value) : result (list string) :=
  if isNullish v then Throw TypeError else Ok (map fst (ownEntries v)).

(** [v.k] and [v[k]] for a property name [k]: reading a property of null or
    undefined throws; otherwise the read yields [field v k], the own
    property of that name or [undefined].  The names the sources read this
    way are not defined on the prototypes of Object, Array, String, Number
    or Boolean; [length] and the methods have their own functions below. *)
Definition field (v : value) (k : string) : value :=
  match lookup k (ownEntries v) with
  | Some x => x
  | None => Undefined
  end.

Definition get (v : value) (k : string) : result value :=
  if isNullish v then Throw TypeError else Ok (field v k).

(** [v?.k]. *)
Definition getOpt (v : value) (k : string) : result value :=
  if isNullish v then Ok Undefined else get v k.

(** [v[0]] and [v?.[0]]. *)
Definition first (v : value) : result value := get v "0".
Definition firstOpt (v : value) : result value := getOpt v "0".

(** [v.length]. *)
Definition lengthOf (v : value) : result value :=
  match v with
  | Arr l => Ok (Number (Z.of_nat (length l)))
  | Str s => Ok (Number (Z.of_nat (String.length s)))
  | _ => get v "length"
  end.

Definition hasOwn (k : string) (fs : list (string * value)) : bool :=
  match lookup k fs with
  | Some _ => true
  | None => false
  end.

(** [v > 0].  A number compares as it is, a boolean as 0 or 1, null as 0,
    undefined as NaN; an object converts through [valueOf] and [toString]
    to the text [[object Object]], which is NaN, unless an own property
    hides [toString], and then the conversion throws. *)
Definition gt0 (v : value) : result bool :=
  match v with
  | Undefined | Null => Ok false
  | Boolean b => Ok b
  | Number n => Ok (0 <? n)%Z
  | Obj fs => if hasOwn "toString" fs then Throw TypeError else Ok false
  | Str _ | Arr _ => Beyond
  end.

(** The decimal form of a number, for the integers a double holds exactly. *)
Definition numberToString (n : Z) : result string :=
  if (Z.abs n <? 2 ^ 53)%Z then Ok (intToString n) else Beyond.

(** [String(v)], the conversion a template literal and [+] on strings
    apply.  An array joins its elements with a comma, null and undefined
    elements being empty. *)
Fixpoint toString (v : value) : result string :=
  match v with
  | Undefined => Ok "undefined"
  | Null => Ok "null"
  | Boolean true => Ok "true"
  | Boolean false => Ok "false"
  | Number n => numberToString n
  | Str s => Ok s
  | Arr l =>
      bind
        ((fix each (l : list value) : result (list string) :=
            match l with
            | [] => Ok []
            | x :: l' =>
                bind (if isNullish x then Ok EmptyString else toString x)
                  (fun s => bind (each l') (fun ss => Ok (s :: ss)))
            end) l)
        (fun parts => Ok (join "," parts))
  | Obj fs => if hasOwn "toString" fs then Throw TypeError else Ok "[object Object]"
  end.

(** The receiver of an array method ([.map], [for ... of] aside): anything
    but an array has no such method, and the call throws. *)
Definition asArray (v : value) : result (list value) :=
  match v with
  | Arr l => Ok l
  | _ => Throw TypeError
  end.

(** The receiver of a string method ([.split], [.toLowerCase], [.replace],
    [.charAt]). *)
Definition asString (v : value) : result string :=
  match v with
  | Str s => Ok s
  | _ => Throw TypeError
  end.

(** [for (const x of v)]: arrays and strings are iterable. *)
Definition iterate (v : value) : result (list value) :=
  match v with
  | Arr l => Ok l
  | Str s => Ok (chars s)
  | _ => Throw TypeError
  end.

(** [v === 'text']. *)
Definition isStr (text : string) (v : value) : bool :=
  match v with
  | Str s => String.eqb s text
  | _ => false
  end.

(** [v.includes(name)]: membership in an array (a string element equal to
    [name]), occurrence in a string; no other value has the method. *)
Definition includes (v : value) (name : string) : result bool :=
  match v with
  | Arr l => Ok (existsb (isStr name) l)
  | Str s => Ok (occursIn name s)
  | _ => Throw TypeError
  end.

(** ** Lookups in object literals *)

(** What a property read on an object literal returns: one of the literal's
    own strings, or a member inherited from [Object.prototype]
    ([constructor], [__proto__]), which is not a string. *)
Inductive mapped : Type :=
| Label (text : string)
| Inherited (member : string).

(** The lower-case member names of [Object.prototype]; the others have an
    upper-case letter, and a lower-cased key never equals them. *)
Definition inheritedMembers : list string := ["constructor"; "__proto__"].

(** The text of an inherited member when it is converted to a string. *)
Definition inheritedText (member : string) : string :=
  if String.eqb member "constructor"
  then "function Object() { [native code] }"
  else "[object Object]".

Definition mappedText (m : mapped) : string :=
  match m with
  | Label text => text
  | Inherited member => inheritedText member
  end.

(** [table[key] || fallback] for an object literal [table] of strings. *)
Definition lookupOr (table : list (string * string)) (key fallback : string) : mapped :=
  match lookup key table with
  | Some text => if nonEmpty text then Label text else Label fallback
  | None =>
      if existsb (String.eqb key) inheritedMembers then Inherited key
      else Label fallback
  end.

End JS.

Import JS.

Declare Scope js_scope.
Delimit Scope js_scope with js.
Notation "x <- e ;; k" := (JS.bind e (fun x => k))
  (at level 61, e at next level, right associativity) : js_scope.
Local Open Scope js_scope.

(* ================================================================== *)
(** * src/types.ts: the canonical model *)
(* ================================================================== *)

(** The interfaces of src/types.ts.  TypeScript's field types are erased at
    run time: a field the parser fills with a value read from the document
    holds whatever the document holds, so it is a [value] here; a field the
    parser computes has the type of what it computes. *)

Module ParsedParameter.
Record t : Type := make {
  name : value;
  in_ : value;
  required : value;
  type : value;
  description : value;
  schema : value }.
End ParsedParameter.

Module ParsedRequestBody.
Record t : Type := make {
  required : value;
  contentTypes : list string;
  schema : value;
  example : value }.
End ParsedRequestBody.

Module ParsedResponse.
Record t : Type := make {
  statusCode : string;
  description : value;
  schema : value;
  example : value }.
End ParsedResponse.

Module ParsedEndpoint.
Record t : Type := make {
  path : string;
  method : string;
  operationId : value;
  summary : value;
  description : value;
  tags : value;
  parameters : list ParsedParameter.t;
  requestBody : option ParsedRequestBody.t;
  responses : list ParsedResponse.t;
  security : list string }.
End ParsedEndpoint.

Module ParsedProperty.
Record t : Type := make {
  name : string;
  type : value;
  description : value;
  required : bool;
  format : value;
  items : value;
  enum : value;
  example : value;
  ref : value;
  nullable : value }.
End ParsedProperty.

Module ParsedSchema.
Record t : Type := make {
  name : string;
  type : value;
  properties : list ParsedProperty.t;
  required : value;
  description : value;
  example : value;
  enum : value;
  format : value;
  ref : value }.
End ParsedSchema.

Module ParsedAPISpec.
Record t : Type := make {
  title : value;
  version : value;
  description : value;
  baseUrl : value;
  endpoints : list ParsedEndpoint.t;
  schemas : list ParsedSchema.t;
  securitySchemes : value }.
End ParsedAPISpec.

Module GeneratorConfig.
Record t : Type := make {
  inputFile : string;
  outputDir : string;
  language : string;
  clientName : string;
  includeExamples : bool;
  includeErrorHandling : bool;
  watchMode : bool }.
End GeneratorConfig.

(* ================================================================== *)
(** * src/parser.ts: class OpenAPIParser *)
(* ================================================================== *)

Module Parser.

Definition invalidSpecification : exn :=
  Error "Invalid OpenAPI specification: missing openapi or swagger field".

(** The constructor, from the document [JSON.parse] returned: the version
    gate, then [this.spec = parsed]. *)
Definition constructor (parsed : value) : result value :=
  openapi <- get parsed "openapi" ;;
  unmarked <-
    (if negb (truthy openapi)
     then swagger <- get parsed "swagger" ;; Ok (negb (truthy swagger))
     else Ok false) ;;
  if unmarked : bool then Throw invalidSpecification else Ok parsed.

Definition getBaseUrl (spec : value) : result value :=
  servers <- get spec "servers" ;;
  nonEmptyServers <-
    (if truthy servers then len <- lengthOf servers ;; gt0 len else Ok false) ;;
  if nonEmptyServers : bool then
    server <- first servers ;;
    get server "url"
  else
    host <- get spec "host" ;;
    if truthy host then
      schemes <- get spec "schemes" ;;
      scheme0 <- firstOpt schemes ;;
      basePath0 <- get spec "basePath" ;;
      scheme <- toString (or scheme0 (Str "https")) ;;
      hostText <- toString host ;;
      basePath <- toString (or basePath0 (Str "")) ;;
      Ok (Str (scheme ++ "://" ++ hostText ++ basePath))
    else Ok (Str "https://api.example.com").

(** [getSchemaType]: the recursion is on the value of the [items] property,
    which the inner loop finds among the fields of [schema]; the equation
    [getSchemaType_eq] below states the function in the source's form. *)
Fixpoint getSchemaType (schema : value) : result value :=
  let itemsType : result value :=
    match schema with
    | Obj fs =>
        (fix find (fs : list (string * value)) : result value :=
           match fs with
           | [] => Ok (Str "any")
           | (k, v) :: fs' =>
               if String.eqb "items" k then getSchemaType v else find fs'
           end) fs
    | _ => Ok (Str "any")
    end in
  if negb (truthy schema) then Ok (Str "any")
  else
    ref <- get schema "$ref" ;;
    if truthy ref then
      text <- asString ref ;;
      Ok (Str (lastPart (split "/" text)))
    else
      type <- get schema "type" ;;
      items <- get schema "items" ;;
      if isStr "array" type && truthy items then
        inner <- itemsType ;;
        text <- toString inner ;;
        Ok (Str (text ++ "[]"))
      else Ok (or type (Str "any")).

Definition capitalize (s : string) : string :=
  toUpperCase (charAt0 s) ++ slice1 s.

Definition generateOperationId (method path : string) : string :=
  let parts := filter nonEmpty (split "/" path) in
  let resource := match parts with
                  | p :: _ => p
                  | [] => "default"
                  end in
  toLowerCase method ++ capitalize resource.

Definition parseParameter (param : value) : result ParsedParameter.t :=
  name <- get param "name" ;;
  in_ <- get param "in" ;;
  required <- get param "required" ;;
  schema <- get param "schema" ;;
  type <- getSchemaType schema ;;
  description <- get param "description" ;;
  Ok (ParsedParameter.make name (or in_ (Str "query"))
        (or required (Boolean false)) type description schema).

Definition parseParameters (parameters : value) : result (list ParsedParameter.t) :=
  if negb (truthy parameters) then Ok []
  else
    params <- asArray parameters ;;
    forEach parseParameter params.

(** [content[contentTypes[0]]?.schema] and [?.example]: the first declared
    content type supplies both; with no content type the property read is
    that of the name [undefined]. *)
Definition firstContent (content : value) (contentTypes : list string) : result value :=
  get content (hd "undefined" contentTypes).

Definition parseRequestBody (requestBody : value) : result (option ParsedRequestBody.t) :=
  if negb (truthy requestBody) then Ok None
  else
    content0 <- get requestBody "content" ;;
    let content := or content0 (Obj []) in
    contentTypes <- keys content ;;
    required <- get requestBody "required" ;;
    entry <- firstContent content contentTypes ;;
    schema <- getOpt entry "schema" ;;
    example <- getOpt entry "example" ;;
    Ok (Some (ParsedRequestBody.make (or required (Boolean false))
                contentTypes schema example)).

Definition parseResponse (entry : string * value) : result ParsedResponse.t :=
  let (statusCode, response) := entry in
  content0 <- get response "content" ;;
  let content := or content0 (Obj []) in
  contentTypes <- keys content ;;
  description <- get response "description" ;;
  first <- firstContent content contentTypes ;;
  schema <- getOpt first "schema" ;;
  example <- getOpt first "example" ;;
  Ok (ParsedResponse.make statusCode (or description (Str "")) schema example).

Definition parseResponses (responses : value) : result (list ParsedResponse.t) :=
  if negb (truthy responses) then Ok []
  else forEach parseResponse (ownEntries responses).

(** [operation.security?.map(s => Object.keys(s || {})).flat() || []]. *)
Definition parseSecurity (security : value) : result (list string) :=
  if isNullish security then Ok []
  else
    alternatives <- asArray security ;;
    Ok (concat (map (fun s => map fst (ownEntries (or s (Obj [])))) alternatives)).

Definition parseEndpoint (path method : string) (operation : value)
  : result ParsedEndpoint.t :=
  rawParameters <- get operation "parameters" ;;
  parameters <- parseParameters rawParameters ;;
  rawBody <- get operation "requestBody" ;;
  requestBody <- parseRequestBody rawBody ;;
  rawResponses <- get operation "responses" ;;
  responses <- parseResponses rawResponses ;;
  operationId <- get operation "operationId" ;;
  summary <- get operation "summary" ;;
  description <- get operation "description" ;;
  tags <- get operation "tags" ;;
  rawSecurity <- get operation "security" ;;
  security <- parseSecurity rawSecurity ;;
  Ok (ParsedEndpoint.make path method
        (or operationId (Str (generateOperationId method path)))
        summary description
        (or tags (Arr [Str "default"]))
        parameters requestBody responses security).

Definition methods : list string :=
  ["get"; "post"; "put"; "delete"; "patch"; "options"; "head"].

(** The inner loop of [parseEndpoints] over the verbs of one path item. *)
Fixpoint parseOperations (pathKey : string) (pathItem : value) (ms : list string)
  : result (list ParsedEndpoint.t) :=
  match ms with
  | [] => Ok []
  | method :: ms' =>
      operation <- get pathItem method ;;
      if negb (truthy operation) then parseOperations pathKey pathItem ms'
      else
        endpoint <- parseEndpoint pathKey (toUpperCase method) operation ;;
        rest <- parseOperations pathKey pathItem ms' ;;
        Ok (endpoint :: rest)
  end.

Definition parsePathItem (entry : string * value) : result (list ParsedEndpoint.t) :=
  parseOperations (fst entry) (snd entry) methods.

Definition parseEndpoints (spec : value) : result (list ParsedEndpoint.t) :=
  paths <- get spec "paths" ;;
  if negb (truthy paths) then Ok []
  else
    perPath <- forEach parsePathItem (ownEntries paths) ;;
    Ok (concat perPath).

Definition parseProperty (name : string) (schema : value) : result ParsedProperty.t :=
  type <- getSchemaType schema ;;
  description <- get schema "description" ;;
  format <- get schema "format" ;;
  items <- get schema "items" ;;
  enum <- get schema "enum" ;;
  example <- get schema "example" ;;
  ref <- get schema "$ref" ;;
  nullable <- get schema "nullable" ;;
  Ok (ParsedProperty.make name type description false format items enum
        example ref nullable).

Definition parseSchema (name : string) (schema : value) : result ParsedSchema.t :=
  rawProperties <- get schema "properties" ;;
  properties <-
    (if truthy rawProperties
     then forEach (fun entry => parseProperty (fst entry) (snd entry))
            (ownEntries rawProperties)
     else Ok []) ;;
  type <- get schema "type" ;;
  required <- get schema "required" ;;
  description <- get schema "description" ;;
  example <- get schema "example" ;;
  enum <- get schema "enum" ;;
  format <- get schema "format" ;;
  ref <- get schema "$ref" ;;
  Ok (ParsedSchema.make name (or type (Str "object")) properties
        (or required (Arr [])) description example enum format ref).

Definition parseSchemas (spec : value) : result (list ParsedSchema.t) :=
  components <- get spec "components" ;;
  declared <- getOpt components "schemas" ;;
  if negb (truthy declared) then Ok []
  else forEach (fun entry => parseSchema (fst entry) (snd entry))
         (ownEntries declared).

Definition parseSecuritySchemes (spec : value) : result value :=
  components <- get spec "components" ;;
  schemes <- getOpt components "securitySchemes" ;;
  if negb (truthy schemes) then Ok (Obj []) else Ok schemes.

Definition parse (spec : value) : result ParsedAPISpec.t :=
  baseUrl <- getBaseUrl spec ;;
  endpoints <- parseEndpoints spec ;;
  schemas <- parseSchemas spec ;;
  securitySchemes <- parseSecuritySchemes spec ;;
  info <- get spec "info" ;;
  title <- getOpt info "title" ;;
  version <- getOpt info "version" ;;
  description <- getOpt info "description" ;;
  Ok (ParsedAPISpec.make (or title (Str "API")) (or version (Str "1.0.0"))
        description baseUrl endpoints schemas securitySchemes).

(** [new OpenAPIParser(file).parse()] on the parsed content of the file. *)
Definition parseDocument (parsed : value) : result ParsedAPISpec.t :=
  spec <- constructor parsed ;;
  parse spec.

End Parser.


(* ================================================================== *)
(** * src/engine.ts: the generation context *)
(* ================================================================== *)

(** A [Map] from tags to endpoints: its entries in insertion order. *)
Definition TagMap : Type := list (value * list ParsedEndpoint.t).

Module GeneratorContext.
Record t : Type := make {
  config : GeneratorConfig.t;
  spec : ParsedAPISpec.t;
  endpointsByTag : TagMap }.
End GeneratorContext.

(* ================================================================== *)
(** * The data of the client template *)
(* ================================================================== *)

(** What [generateClientCode] hands to the compiled client template. *)
Module PropertyView.
Record t : Type := make {
  name : string;
  type : mapped;
  required : bool;
  description : value }.
End PropertyView.

Module SchemaView.
Record t : Type := make {
  name : string;
  description : value;
  properties : list PropertyView.t }.
End SchemaView.

Module EndpointView.
Record t : Type := make {
  methodName : string;
  path : string;
  method : string;
  summary : value;
  description : string;
  parameters : list ParsedParameter.t;
  requestBody : option ParsedRequestBody.t;
  returnType : string;
  example : string }.
End EndpointView.

Module TagView.
Record t : Type := make {
  description : string;
  className : string;
  propertyName : string;
  endpoints : list EndpointView.t;
  paramTypeName : string }.
End TagView.

Module ClientView.
Record t : Type := make {
  clientName : string;
  baseUrl : value;
  version : value;
  description : value;
  schemas : list SchemaView.t;
  endpointsByTag : list TagView.t;
  includeErrorHandling : bool;
  includeExamples : bool;
  hasApiKey : bool;
  hasBearer : bool }.
End ClientView.

(* ================================================================== *)
(** * The file system and the console *)
(* ================================================================== *)

Module Node.

(** What the generator hands to [writeFileSync]: a text it has built, the
    compiled client template applied to its data (the rendering is
    Handlebars'), or [JSON.stringify(v, null, 2)] of a value. *)
Inductive artifact : Type :=
| Text (content : string)
| Template (data : ClientView.t)
| Json (v : value).

(** The calls that reach outside the process, in the order they are made. *)
Inductive event : Type :=
| ExistsSync (path : string)
| ReadFileSync (path : string)
| MkdirSync (path : string)
| WriteFileSync (path : string) (content : artifact)
| ConsoleLog (text : string)
| Watch (path : string).

(** [documents]: the JSON files on disk, by path, as [JSON.parse] reads
    them; [paths]: the directories and the other files that exist;
    [trace]: the events so far, oldest first. *)
Record state : Type := makeState {
  documents : list (string * value);
  paths : list string;
  trace : list event }.

Definition io (A : Type) : Type := state -> state * result A.

Definition ret {A : Type} (a : A) : io A := fun st => (st, Ok a).

Definition bind {A B : Type} (m : io A) (k : A -> io B) : io B :=
  fun st =>
    match m st with
    | (st', Ok a) => k a st'
    | (st', Throw e) => (st', Throw e)
    | (st', Beyond) => (st', Beyond)
    end.

(** A computation of the process itself, with no event. *)
Definition lift {A : Type} (r : result A) : io A := fun st => (st, r).

Definition throw {A : Type} (e : exn) : io A := lift (Throw e).

Definition emit (e : event) : io unit :=
  fun st => (makeState (documents st) (paths st) (trace st ++ [e])%list, Ok tt).

Definition present (st : state) (path : string) : bool :=
  existsb (String.eqb path) (paths st) || hasOwn path (documents st).

(** [path.resolve], on the absolute paths the model is given. *)
Definition resolve (p : string) : string := p.

(** [path.join] and [path.dirname], for segments without [.], [..] or a
    separator at their end; an empty segment is left out. *)
Definition pathJoin (a b : string) : string :=
  if nonEmpty a then (if nonEmpty b then a ++ "/" ++ b else a)
  else (if nonEmpty b then b else ".").

Definition dirname (p : string) : string :=
  match removelast (split "/" p) with
  | [] => "."
  | parents => if nonEmpty (join "/" parents) then join "/" parents else "/"
  end.

(** The directories [mkdirSync(p, {recursive: true})] makes sure of: [p]
    and the directories above it. *)
Fixpoint prefixes (parts : list string) : list (list string) :=
  match parts with
  | [] => []
  | p :: rest => [p] :: map (cons p) (prefixes rest)
  end.

Definition ancestors (p : string) : list string :=
  filter nonEmpty (map (join "/") (prefixes (split "/" p))).

Definition existsSync (path : string) : io bool :=
  fun st =>
    (makeState (documents st) (paths st) (trace st ++ [ExistsSync path])%list,
     Ok (present st path)).

Definition mkdirSync (path : string) : io unit :=
  fun st =>
    (makeState (documents st) (paths st ++ ancestors path)%list
       (trace st ++ [MkdirSync path])%list,
     Ok tt).

(** [writeFileSync] fails when the directory of the file does not exist. *)
Definition writeFileSync (path : string) (content : artifact) : io unit :=
  fun st =>
    let st' := makeState (documents st) (paths st)
                 (trace st ++ [WriteFileSync path content])%list in
    if present st (dirname path)
    then (makeState (documents st) (paths st ++ [path])%list (trace st'), Ok tt)
    else (st', Throw (Error "ENOENT: no such file or directory")).

(** [JSON.parse(fs.readFileSync(path, 'utf-8'))]: the document at [path];
    a missing file and a text that is not JSON both throw. *)
Definition readDocument (path : string) : io value :=
  fun st =>
    (makeState (documents st) (paths st) (trace st ++ [ReadFileSync path])%list,
     match lookup path (documents st) with
     | Some parsed => Ok parsed
     | None => Throw (Error "ENOENT or SyntaxError")
     end).

Definition consoleLog (text : string) : io unit := emit (ConsoleLog text).

Definition when (b : bool) (m : io unit) : io unit := if b then m else ret tt.

End Node.

Declare Scope io_scope.
Delimit Scope io_scope with io.
Notation "x <- e ;; k" := (Node.bind e (fun x => k))
  (at level 61, e at next level, right associativity) : io_scope.
Notation "e ;; k" := (Node.bind e (fun _ => k))
  (at level 61, right associativity) : io_scope.

(* ================================================================== *)
(** * src/generators/typescript.ts: class TypeScriptGenerator *)
(* ================================================================== *)

Module TypeScript.

Definition nl : string := String "010" EmptyString.

(** ** Naming utilities *)

Definition isSeparator (c : ascii) : bool :=
  (Ascii.eqb c "-" || Ascii.eqb c "_")%char.

(** [str.replace(/[-_](.)/g, (_, c) => c.toUpperCase())]. *)
Fixpoint replaceSeparators (s : string) : string :=
  match s with
  | EmptyString => EmptyString
  | String c s' =>
      match s' with
      | EmptyString => String c EmptyString
      | String d rest =>
          if isSeparator c && negb (isLineTerminator d)
          then String (upper d) (replaceSeparators rest)
          else String c (replaceSeparators s')
      end
  end.

(** [str.replace(/^(.)/, (_, c) => f(c))]. *)
Definition replaceFirst (f : ascii -> ascii) (s : string) : string :=
  match s with
  | EmptyString => EmptyString
  | String c s' => if isLineTerminator c then s else String (f c) s'
  end.

(** The match of [[^a-zA-Z0-9]+(.)] at a character outside the class, from
    the text [s] that follows it: the run is as long as it can be with a
    character left for the group, which is the character returned, with the
    count of characters of [s] the match takes. *)
Fixpoint longestRun (s : string) : option (ascii * nat) :=
  match s with
  | EmptyString => None
  | String d rest =>
      if isAlnum d then Some (d, 1)
      else match longestRun rest with
           | Some (e, n) => Some (e, S n)
           | None => if isLineTerminator d then None else Some (d, 1)
           end
  end.

(** [str.replace(/[^a-zA-Z0-9]+(.)/g, (_, c) => c.toUpperCase())]; [skip]
    counts the characters still inside the last match. *)
Fixpoint replaceRuns (skip : nat) (s : string) : string :=
  match s with
  | EmptyString => EmptyString
  | String c s' =>
      match skip with
      | S n => replaceRuns n s'
      | O =>
          if isAlnum c then String c (replaceRuns 0 s')
          else match longestRun s' with
               | Some (d, n) => String (upper d) (replaceRuns n s')
               | None => String c (replaceRuns 0 s')
               end
      end
  end.

Definition pascalCase (s : string) : string :=
  replaceRuns 0 (replaceFirst upper (replaceSeparators s)).

Definition camelCase (s : string) : string :=
  replaceRuns 0 (replaceFirst lower (replaceSeparators s)).

Definition toPascalCase (str : value) : result string :=
  s <- asString str ;; Ok (pascalCase s).

Definition toCamelCase (str : value) : result string :=
  s <- asString str ;; Ok (camelCase s).

Definition capitalizeFirst (str : value) : result string :=
  s <- asString str ;; Ok (toUpperCase (charAt0 s) ++ slice1 s).

(** ** Return types *)

Definition getReturnType (endpoint : ParsedEndpoint.t) : result string :=
  match find (fun r => startsWith "2" (ParsedResponse.statusCode r))
          (ParsedEndpoint.responses endpoint) with
  | None => Ok "any"
  | Some successResponse =>
      let schema := ParsedResponse.schema successResponse in
      if negb (truthy schema) then Ok "any"
      else
        ref <- get schema "$ref" ;;
        if truthy ref then
          text <- asString ref ;;
          Ok (lastPart (split "/" text))
        else
          type <- get schema "type" ;;
          if isStr "array" type then
            items <- get schema "items" ;;
            if truthy items then
              itemsRef <- get items "$ref" ;;
              if truthy itemsRef then
                text <- asString itemsRef ;;
                Ok (lastPart (split "/" text) ++ "[]")
              else Ok "any[]"
            else Ok "any[]"
          else Ok "any"
  end.

(** ** Type mapping *)

Definition mapType_typeMap : list (string * string) :=
  [("string", "string"); ("integer", "number"); ("number", "number");
   ("boolean", "boolean"); ("array", "any[]"); ("object", "Record<string, any>");
   ("file", "Blob"); ("date", "string"); ("date-time", "string")].

Definition mapType (type nullable : value) : result mapped :=
  label <- asString type ;;
  let tsType := lookupOr mapType_typeMap (toLowerCase label) label in
  if truthy nullable then Ok (Label (mappedText tsType ++ " | null"))
  else Ok tsType.

(** ** The data of the client template *)

Definition formatProperty (schema : ParsedSchema.t) (prop : ParsedProperty.t)
  : result PropertyView.t :=
  type <- mapType (ParsedProperty.type prop) (ParsedProperty.nullable prop) ;;
  required <- includes (ParsedSchema.required schema) (ParsedProperty.name prop) ;;
  Ok (PropertyView.make (ParsedProperty.name prop) type required
        (or (ParsedProperty.description prop) (Str (ParsedProperty.name prop)))).

Definition formatSchema (schema : ParsedSchema.t) : result SchemaView.t :=
  properties <- forEach (formatProperty schema) (ParsedSchema.properties schema) ;;
  Ok (SchemaView.make (ParsedSchema.name schema)
        (or (ParsedSchema.description schema) (Str (ParsedSchema.name schema)))
        properties).

Definition formatDescription (description : value) : result string :=
  if negb (truthy description) then Ok ""
  else
    text <- asString description ;;
    Ok (join " " (filter nonEmpty (map trim (split "010" text)))).

Definition generateExample (endpoint : ParsedEndpoint.t) (context : GeneratorContext.t)
  : result string :=
  let clientName := GeneratorConfig.clientName (GeneratorContext.config context) in
  methodName <- toCamelCase (ParsedEndpoint.operationId endpoint) ;;
  baseUrl <- toString (ParsedAPISpec.baseUrl (GeneratorContext.spec context)) ;;
  summary <- toString (or (ParsedEndpoint.summary endpoint)
                          (ParsedEndpoint.operationId endpoint)) ;;
  Ok ("// Create client" ++ nl
      ++ "const client = new " ++ clientName ++ "({ baseURL: '" ++ baseUrl
      ++ "' });" ++ nl ++ nl
      ++ "// Call " ++ summary ++ nl
      ++ "const result = await client." ++ methodName ++ "();" ++ nl
      ++ "console.log(result);").

Definition formatEndpoint (context : GeneratorContext.t) (endpoint : ParsedEndpoint.t)
  : result EndpointView.t :=
  returnType <- getReturnType endpoint ;;
  methodName <- toCamelCase (ParsedEndpoint.operationId endpoint) ;;
  description <- formatDescription (ParsedEndpoint.description endpoint) ;;
  example <- generateExample endpoint context ;;
  Ok (EndpointView.make methodName
        (ParsedEndpoint.path endpoint) (ParsedEndpoint.method endpoint)
        (or (ParsedEndpoint.summary endpoint) (ParsedEndpoint.operationId endpoint))
        description
        (ParsedEndpoint.parameters endpoint) (ParsedEndpoint.requestBody endpoint)
        returnType example).

Definition formatTag (context : GeneratorContext.t)
    (entry : value * list ParsedEndpoint.t) : result TagView.t :=
  let (tag, endpoints) := entry in
  description <- capitalizeFirst tag ;;
  className <- toPascalCase tag ;;
  propertyName <- toCamelCase tag ;;
  views <- forEach (formatEndpoint context) endpoints ;;
  paramTypeName <- toPascalCase tag ;;
  Ok (TagView.make description (className ++ "Client") propertyName views
        (paramTypeName ++ "Params")).

(** [Object.keys(securitySchemes).some(key => test(securitySchemes[key]))]:
    [Object.keys] throws on [null] and [undefined]. *)
Definition hasScheme (test : value -> bool) (securitySchemes : value) : result bool :=
  names <- keys securitySchemes ;;
  Ok (existsb (fun key => test (field securitySchemes key)) names).

(** The argument of the compiled client template in [generateClientCode];
    the rendering itself is Handlebars'. *)
Definition generateClientCode (context : GeneratorContext.t) : result ClientView.t :=
  let config := GeneratorContext.config context in
  let spec := GeneratorContext.spec context in
  endpointsGrouped <- forEach (formatTag context) (GeneratorContext.endpointsByTag context) ;;
  hasApiKey <-
    hasScheme (fun scheme => isStr "apiKey" (field scheme "type"))
      (ParsedAPISpec.securitySchemes spec) ;;
  hasBearer <-
    hasScheme (fun scheme => isStr "http" (field scheme "type")
                             && isStr "bearer" (field scheme "scheme"))
      (ParsedAPISpec.securitySchemes spec) ;;
  schemas <- forEach formatSchema (ParsedAPISpec.schemas spec) ;;
  Ok (ClientView.make (GeneratorConfig.clientName config)
        (ParsedAPISpec.baseUrl spec) (ParsedAPISpec.version spec)
        (ParsedAPISpec.description spec) schemas endpointsGrouped
        (GeneratorConfig.includeErrorHandling config)
        (GeneratorConfig.includeExamples config) hasApiKey hasBearer).

(** ** The types artifact, types.ts *)

(** [`  /** ${description} */\n  ${name}${required ? '' : '?'}: ${tsType};`] *)
Definition propertyText (description name : string) (required : bool)
    (tsType : string) : string :=
  "  /** " ++ description ++ " */" ++ nl ++ "  " ++ name
  ++ (if required then "" else "?") ++ ": " ++ tsType ++ ";".

Definition generateProperty (schema : ParsedSchema.t) (prop : ParsedProperty.t)
  : result string :=
  tsType <- mapType (ParsedProperty.type prop) (ParsedProperty.nullable prop) ;;
  required <- includes (ParsedSchema.required schema) (ParsedProperty.name prop) ;;
  description <-
    toString (or (ParsedProperty.description prop) (Str (ParsedProperty.name prop))) ;;
  Ok (propertyText description (ParsedProperty.name prop) required (mappedText tsType)).

(** [`/** ${description} */\nexport interface ${name} {\n${properties}\n}`] *)
Definition interfaceText (description name properties : string) : string :=
  "/** " ++ description ++ " */" ++ nl ++ "export interface " ++ name
  ++ " {" ++ nl ++ properties ++ nl ++ "}".

Definition generateSchema (schema : ParsedSchema.t) : result string :=
  properties <- forEach (generateProperty schema) (ParsedSchema.properties schema) ;;
  description <-
    toString (or (ParsedSchema.description schema) (Str (ParsedSchema.name schema))) ;;
  Ok (interfaceText description (ParsedSchema.name schema) (join nl properties)).

(** The content [generateSchemas] writes to types.ts. *)
Definition schemasContent (schemas : list ParsedSchema.t) : result string :=
  interfaces <- forEach generateSchema schemas ;;
  Ok (join (nl ++ nl) interfaces).

(** ** The error taxonomy, errors.ts *)

(** The lines [generateErrorsFile] joins and writes. *)
Definition errorsLines : list string :=
  ["import { AxiosError } from 'axios';";
   EmptyString;
   "export class ApiError extends Error {";
   "  constructor(";
   "    message: string,";
   "    public statusCode?: number,";
   "    public response?: any";
   "  ) {";
   "    super(message);";
   "    this.name = 'ApiError';";
   "  }";
   "}";
   EmptyString;
   "export class ApiRequestError extends ApiError {";
   "  constructor(message: string, public request: any) {";
   "    super(message);";
   "    this.name = 'ApiRequestError';";
   "  }";
   "}";
   EmptyString;
   "export class ApiResponseError extends ApiError {";
   "  constructor(message: string, statusCode: number, response: any) {";
   "    super(message, statusCode, response);";
   "    this.name = 'ApiResponseError';";
   "  }";
   "}";
   EmptyString;
   "export class NetworkError extends ApiError {";
   "  constructor(message: string, public originalError?: Error) {";
   "    super(message);";
   "    this.name = 'NetworkError';";
   "  }";
   "}";
   EmptyString;
   "export class TimeoutError extends ApiError {";
   "  constructor(message: string = 'Request timed out') {";
   "    super(message);";
   "    this.name = 'TimeoutError';";
   "  }";
   "}";
   EmptyString;
   "export type ErrorType = ApiError | ApiRequestError | ApiResponseError | NetworkError | TimeoutError;";
   EmptyString;
   "export function isApiError(error: any): error is ApiError {";
   "  return error instanceof ApiError;";
   "}";
   EmptyString;
   "export function isRetryableError(error: any): boolean {";
   "  if (error instanceof NetworkError || error instanceof TimeoutError) {";
   "    return true;";
   "  }";
   "  if (error instanceof ApiResponseError && error.statusCode && error.statusCode >= 500) {";
   "    return true;";
   "  }";
   "  return false;";
   "}"].

Definition errorsContent : string := join nl errorsLines.

(** *** What errors.ts means

    The class a line of errors.ts declares, with the class it extends:
    [export class C extends P {].  The prototype chains below are read off
    the lines [generateErrorsFile] writes. *)
Definition classDeclaration (line : string) : option (string * string) :=
  match split " " line with
  | [w1; w2; c; w3; p; w4] =>
      if String.eqb w1 "export" && String.eqb w2 "class"
         && String.eqb w3 "extends" && String.eqb w4 "{"
      then Some (c, p)
      else None
  | _ => None
  end.

Definition declaredClasses : list (string * string) :=
  flat_map (fun line => match classDeclaration line with
                        | Some declaration => [declaration]
                        | None => []
                        end) errorsLines.

(** The prototype chain of a class: the class, the class it extends, and so
    on up to a class errors.ts does not declare. *)
Fixpoint prototypeChain (fuel : nat) (c : string) : list string :=
  c :: match fuel with
       | O => []
       | S fuel' =>
           match lookup c declaredClasses with
           | Some parent => prototypeChain fuel' parent
           | None => []
           end
       end.

(** The instances [new] builds from the classes of errors.ts, by the
    arguments that matter: [ApiError] takes an optional status code,
    [ApiResponseError] a status code, the others none. *)
Inductive apiError : Type :=
| ApiError (statusCode : option Z)
| ApiRequestError
| ApiResponseError (statusCode : Z)
| NetworkError
| TimeoutError.

Definition className (error : apiError) : string :=
  match error with
  | ApiError _ => "ApiError"
  | ApiRequestError => "ApiRequestError"
  | ApiResponseError _ => "ApiResponseError"
  | NetworkError => "NetworkError"
  | TimeoutError => "TimeoutError"
  end.

(** What a caller may hand to the predicates, which take [error: any]. *)
Inductive thrown : Type :=
| ErrorInstance (error : apiError)
| Foreign (v : value).


(** [error instanceof C] for a class [C] of errors.ts: [C] is on the
    prototype chain of the class of [error]. *)
Definition instanceOf (error : thrown) (c : string) : bool :=
  match error with
  | ErrorInstance e =>
      existsb (String.eqb c) (prototypeChain (length declaredClasses) (className e))
  | Foreign _ => false
  end.

Definition isApiError (error : thrown) : bool := instanceOf error "ApiError".



(** ** The parameter bundles, params.ts *)

Definition generateParameter (param : ParsedParameter.t) : result string :=
  tsType <- mapType (ParsedParameter.type param) Undefined ;;
  description <-
    toString (or (ParsedParameter.description param) (ParsedParameter.name param)) ;;
  name <- toString (ParsedParameter.name param) ;;
  Ok ("  /** " ++ description ++ " */" ++ nl
      ++ "  " ++ name
      ++ (if truthy (ParsedParameter.required param) then "" else "?")
      ++ ": " ++ mappedText tsType ++ ";" ++ nl).

Definition generateParams (entry : value * list ParsedEndpoint.t) : result string :=
  let (tag, endpoints) := entry in
  typeName <- toPascalCase tag ;;
  perEndpoint <-
    forEach (fun ep => forEach generateParameter (ParsedEndpoint.parameters ep))
      endpoints ;;
  Ok ("export interface " ++ typeName ++ "Params" ++ " {" ++ nl
      ++ String.concat "" (List.concat perEndpoint)
      ++ "}" ++ nl ++ nl).

(** The content [generateTypesFile] writes to params.ts. *)
Definition paramsContent (context : GeneratorContext.t) : result string :=
  let spec := GeneratorContext.spec context in
  title <- toString (ParsedAPISpec.title spec) ;;
  version <- toString (ParsedAPISpec.version spec) ;;
  bundles <- forEach generateParams (GeneratorContext.endpointsByTag context) ;;
  Ok ("// Auto-generated types for " ++ title ++ nl
      ++ "// Version: " ++ version ++ nl ++ nl
      ++ String.concat "" bundles).

(** ** The examples, examples.ts *)

Definition exampleOf (context : GeneratorContext.t) (ep : ParsedEndpoint.t)
  : result string :=
  summary <- toString (or (ParsedEndpoint.summary ep) (ParsedEndpoint.operationId ep)) ;;
  example <- generateExample ep context ;;
  Ok ("// " ++ summary ++ nl
      ++ "// " ++ ParsedEndpoint.method ep ++ " " ++ ParsedEndpoint.path ep ++ nl
      ++ example ++ nl ++ nl).

Definition examplesOf (context : GeneratorContext.t)
    (entry : value * list ParsedEndpoint.t) : result string :=
  let (tag, endpoints) := entry in
  heading <- capitalizeFirst tag ;;
  examples <- forEach (exampleOf context) endpoints ;;
  Ok ("// " ++ heading ++ " endpoints" ++ nl ++ String.concat "" examples).

(** The content [generateExamples] writes to examples.ts. *)
Definition examplesContent (context : GeneratorContext.t) : result string :=
  let spec := GeneratorContext.spec context in
  let clientName := GeneratorConfig.clientName (GeneratorContext.config context) in
  title <- toString (ParsedAPISpec.title spec) ;;
  version <- toString (ParsedAPISpec.version spec) ;;
  baseUrl <- toString (ParsedAPISpec.baseUrl spec) ;;
  groups <- forEach (examplesOf context) (GeneratorContext.endpointsByTag context) ;;
  Ok ("// Auto-generated examples for " ++ title ++ nl
      ++ "// Version: " ++ version ++ nl ++ nl
      ++ "import { " ++ clientName ++ " } from './index';" ++ nl ++ nl
      ++ "// Create client instance" ++ nl
      ++ "const client = new " ++ clientName ++ "({" ++ nl
      ++ "  baseURL: '" ++ baseUrl ++ "'," ++ nl
      ++ "  timeout: 30000," ++ nl
      ++ "});" ++ nl ++ nl
      ++ String.concat "" groups).

(** ** Writing the artifacts *)

Local Open Scope io_scope.

(** The generator a [new TypeScriptGenerator(config)] builds: its
    configuration and [path.join(config.outputDir, config.language)]. *)
Record generator : Type := TypeScriptGenerator {
  config : GeneratorConfig.t;
  outputDir : string }.

Definition new (config : GeneratorConfig.t) : generator :=
  TypeScriptGenerator config
    (Node.pathJoin (GeneratorConfig.outputDir config) (GeneratorConfig.language config)).

Definition writeFile (this : generator) (filename : string)
    (content : Node.artifact) : Node.io unit :=
  let filepath := Node.pathJoin (outputDir this) filename in
  let dir := Node.dirname filepath in
  dirExists <- Node.existsSync dir ;;
  Node.when (negb dirExists) (Node.mkdirSync dir) ;;
  Node.writeFileSync filepath content ;;
  Node.consoleLog ("  ✓ Created: " ++ filename).

Definition generateSchemas (this : generator) (schemas : list ParsedSchema.t)
  : Node.io unit :=
  match schemas with
  | [] => Node.ret tt
  | _ =>
      content <- Node.lift (schemasContent schemas) ;;
      writeFile this "types.ts" (Node.Text content)
  end.

Definition generateErrorsFile (this : generator) : Node.io unit :=
  writeFile this "errors.ts" (Node.Text errorsContent).

Definition generateTypesFile (this : generator) (context : GeneratorContext.t)
  : Node.io unit :=
  content <- Node.lift (paramsContent context) ;;
  writeFile this "params.ts" (Node.Text content).

Definition generateExamples (this : generator) (context : GeneratorContext.t)
  : Node.io unit :=
  content <- Node.lift (examplesContent context) ;;
  writeFile this "examples.ts" (Node.Text content).

Definition packageJson (config : GeneratorConfig.t) : value :=
  Obj [("name", Str (toLowerCase (GeneratorConfig.clientName config) ++ "-client"));
       ("version", Str "1.0.0");
       ("description",
        Str ("Auto-generated TypeScript client for "
             ++ GeneratorConfig.clientName config));
       ("main", Str "dist/index.js");
       ("types", Str "dist/index.d.ts");
       ("scripts", Obj [("build", Str "tsc"); ("prepare", Str "npm run build")]);
       ("dependencies", Obj [("axios", Str "^1.6.0")]);
       ("devDependencies",
        Obj [("@types/node", Str "^20.0.0"); ("typescript", Str "^5.0.0")])].

Definition tsconfigJson : value :=
  Obj [("compilerOptions",
        Obj [("target", Str "ES2020");
             ("module", Str "commonjs");
             ("lib", Arr [Str "ES2020"]);
             ("declaration", Boolean true);
             ("outDir", Str "./dist");
             ("rootDir", Str "./src");
             ("strict", Boolean true);
             ("esModuleInterop", Boolean true);
             ("skipLibCheck", Boolean true);
             ("forceConsistentCasingInFileNames", Boolean true)]);
       ("include", Arr [Str "src/**/*"]);
       ("exclude", Arr [Str "node_modules"; Str "dist"])].

Definition generatePackageJson (this : generator) (config : GeneratorConfig.t)
  : Node.io unit :=
  writeFile this "package.json" (Node.Json (packageJson config)) ;;
  writeFile this "tsconfig.json" (Node.Json tsconfigJson).

(** [generate]: the artifacts in the order the source writes them. *)
Definition generate (this : generator) (context : GeneratorContext.t) : Node.io unit :=
  let config := GeneratorContext.config context in
  let spec := GeneratorContext.spec context in
  dirExists <- Node.existsSync (outputDir this) ;;
  Node.when (negb dirExists) (Node.mkdirSync (outputDir this)) ;;
  generateSchemas this (ParsedAPISpec.schemas spec) ;;
  clientCode <- Node.lift (generateClientCode context) ;;
  writeFile this "index.ts" (Node.Template clientCode) ;;
  Node.when (GeneratorConfig.includeErrorHandling config) (generateErrorsFile this) ;;
  generateTypesFile this context ;;
  Node.when (GeneratorConfig.includeExamples config) (generateExamples this context) ;;
  generatePackageJson this config.

End TypeScript.

(* ================================================================== *)
(** * src/engine.ts: class CodeGeneratorEngine and BaseGenerator *)
(* ================================================================== *)

Module Engine.

(** Equality of [Map] keys (SameValueZero).  Primitive keys compare by
    value.  An array or an object compares by identity: every tag the loop
    of [buildContext] visits is a distinct occurrence in the document, hence
    a distinct reference, so two such keys are never the same. *)
Definition sameValueZero (a b : value) : bool :=
  match a, b with
  | Undefined, Undefined => true
  | Null, Null => true
  | Boolean x, Boolean y => Bool.eqb x y
  | Number x, Number y => (x =? y)%Z
  | Str x, Str y => String.eqb x y
  | _, _ => false
  end.

(** One turn of the inner loop of [buildContext]:
    [if (!m.has(tag)) m.set(tag, []); m.get(tag).push(endpoint)]. *)
Fixpoint addToBucket (tag : value) (endpoint : ParsedEndpoint.t)
    (m : TagMap) : TagMap :=
  match m with
  | [] => [(tag, [endpoint])]
  | (k, bucket) :: m' =>
      if sameValueZero k tag then (k, (bucket ++ [endpoint])%list) :: m'
      else (k, bucket) :: addToBucket tag endpoint m'
  end.

Definition addEndpoint (m : TagMap)
    (endpoint : ParsedEndpoint.t) : result (TagMap) :=
  (tags <- iterate (ParsedEndpoint.tags endpoint) ;;
   Ok (fold_left (fun m tag => addToBucket tag endpoint m) tags m))%js.

Fixpoint groupEndpoints (m : TagMap)
    (endpoints : list ParsedEndpoint.t) : result (TagMap) :=
  match endpoints with
  | [] => Ok m
  | endpoint :: rest =>
      (m' <- addEndpoint m endpoint ;;
       groupEndpoints m' rest)%js
  end.

Definition buildContext (config : GeneratorConfig.t) (spec : ParsedAPISpec.t)
  : result GeneratorContext.t :=
  (endpointsByTag <- groupEndpoints [] (ParsedAPISpec.endpoints spec) ;;
   Ok (GeneratorContext.make config spec endpointsByTag))%js.

(** [endpointsByTag.get(tag)] for a string tag, the empty bucket standing
    for no entry. *)
Fixpoint bucketOf (tag : string) (m : TagMap)
  : list ParsedEndpoint.t :=
  match m with
  | [] => []
  | (k, bucket) :: m' => if isStr tag k then bucket else bucketOf tag m'
  end.

(** The engine a [new CodeGeneratorEngine(config, spec)] builds. *)
Record engine : Type := CodeGeneratorEngine {
  config : GeneratorConfig.t;
  spec : ParsedAPISpec.t;
  context : GeneratorContext.t }.

Definition new (config : GeneratorConfig.t) (spec : ParsedAPISpec.t) : result engine :=
  (context <- buildContext config spec ;;
   Ok (CodeGeneratorEngine config spec context))%js.

Local Open Scope io_scope.

Definition getGenerator (this : engine) : Node.io TypeScript.generator :=
  if String.eqb (GeneratorConfig.language (config this)) "typescript"
  then Node.ret (TypeScript.new (config this))
  else
    Node.consoleLog ("Note: " ++ GeneratorConfig.language (config this)
                     ++ " not yet fully implemented, generating TypeScript client") ;;
    Node.ret (TypeScript.new (config this)).

Definition generate (this : engine) : Node.io unit :=
  let config := config this in
  Node.consoleLog ("Generating " ++ GeneratorConfig.language config
                   ++ " client library...") ;;
  Node.consoleLog ("  Input: " ++ GeneratorConfig.inputFile config) ;;
  Node.consoleLog ("  Output: " ++ GeneratorConfig.outputDir config) ;;
  Node.consoleLog ("  Client Name: " ++ GeneratorConfig.clientName config) ;;
  dirExists <- Node.existsSync (GeneratorConfig.outputDir config) ;;
  Node.when (negb dirExists) (Node.mkdirSync (GeneratorConfig.outputDir config)) ;;
  generator <- getGenerator this ;;
  TypeScript.generate generator (context this) ;;
  Node.consoleLog "✓ Generation complete!".

(** [watch]: the listener is registered on the input file; what it does on
    a change belongs to the watcher. *)
Definition watch (this : engine) : Node.io unit :=
  Node.emit (Node.Watch (GeneratorConfig.inputFile (config this))) ;;
  Node.consoleLog ("👀 Watching for changes to "
                   ++ GeneratorConfig.inputFile (config this) ++ "...").

(** BaseGenerator.getTypeName; no class of the repository extends
    BaseGenerator, so nothing calls it. *)
Definition getTypeName_typeMap : list (string * string) :=
  [("string", "string"); ("integer", "number"); ("number", "number");
   ("boolean", "boolean"); ("array", "any[]"); ("object", "any");
   ("file", "Blob"); ("date", "string"); ("date-time", "string");
   ("email", "string"); ("uri", "string")].

Definition getTypeName (schemaType : value) : result mapped :=
  (label <- asString schemaType ;;
   Ok (lookupOr getTypeName_typeMap (toLowerCase label) label))%js.

End Engine.

(* ================================================================== *)
(** * The command-line program: generateClient and watchAndGenerate *)
(* ================================================================== *)

Module Cli.

Local Open Scope io_scope.

(** The options commander hands to the action of a command. *)
Record options : Type := makeOptions {
  input : string;
  output : string;
  language : string;
  name : string;
  examples : bool;
  errors : bool }.

Definition validLanguages : list string := ["typescript"; "python"; "go"].

Definition rule : string := String.concat "" (repeat "═" 50).

Definition nl : string := TypeScript.nl.

Definition nextSteps (language : string) : Node.io unit :=
  if String.eqb language "typescript" then
    Node.consoleLog "     npm install" ;;
    Node.consoleLog "     npm run build"
  else if String.eqb language "python" then
    Node.consoleLog "     pip install -r requirements.txt"
  else if String.eqb language "go" then
    Node.consoleLog "     go mod download"
  else Node.ret tt.

Definition generateClient (options : options) : Node.io unit :=
  let inputFile := Node.resolve (input options) in
  let outputDir := Node.resolve (output options) in
  let language := language options in
  inputExists <- Node.existsSync inputFile ;;
  if negb inputExists
  then Node.throw (Error ("Input file not found: " ++ inputFile))
  else
  if negb (existsb (String.eqb language) validLanguages)
  then Node.throw (Error ("Invalid language: " ++ language ++ ". Supported: "
                          ++ join ", " validLanguages))
  else
  Node.consoleLog (nl ++ "🚀 API Client Generator") ;;
  Node.consoleLog rule ;;
  Node.consoleLog (nl ++ "📖 Parsing OpenAPI specification...") ;;
  parsed <- Node.readDocument inputFile ;;
  spec <- Node.lift (Parser.parseDocument parsed) ;;
  title <- Node.lift (toString (ParsedAPISpec.title spec)) ;;
  version <- Node.lift (toString (ParsedAPISpec.version spec)) ;;
  Node.consoleLog ("  ✓ Loaded: " ++ title ++ " v" ++ version) ;;
  baseUrl <- Node.lift (toString (ParsedAPISpec.baseUrl spec)) ;;
  Node.consoleLog ("  ✓ Base URL: " ++ baseUrl) ;;
  Node.consoleLog ("  ✓ Endpoints: "
                   ++ natToString (length (ParsedAPISpec.endpoints spec))) ;;
  Node.consoleLog ("  ✓ Schemas: "
                   ++ natToString (length (ParsedAPISpec.schemas spec))) ;;
  let config := GeneratorConfig.make inputFile outputDir language (name options)
                  (examples options) (errors options) false in
  Node.consoleLog (nl ++ "🔧 Generating " ++ language ++ " client...") ;;
  engine <- Node.lift (Engine.new config spec) ;;
  Engine.generate engine ;;
  Node.consoleLog (nl ++ "✅ Generation complete!") ;;
  Node.consoleLog (nl ++ "📁 Output: " ++ outputDir ++ "/" ++ language) ;;
  Node.consoleLog (nl ++ "📝 Next steps:") ;;
  Node.consoleLog ("  1. cd " ++ outputDir ++ "/" ++ language) ;;
  Node.consoleLog "  2. Install dependencies:" ;;
  nextSteps language.

Definition watchAndGenerate (options : options) : Node.io unit :=
  let inputFile := Node.resolve (input options) in
  let outputDir := Node.resolve (output options) in
  let language := language options in
  inputExists <- Node.existsSync inputFile ;;
  if negb inputExists
  then Node.throw (Error ("Input file not found: " ++ inputFile))
  else
  Node.consoleLog (nl ++ "👀 Watch Mode - Press Ctrl+C to stop") ;;
  Node.consoleLog rule ;;
  parsed <- Node.readDocument inputFile ;;
  spec <- Node.lift (Parser.parseDocument parsed) ;;
  title <- Node.lift (toString (ParsedAPISpec.title spec)) ;;
  version <- Node.lift (toString (ParsedAPISpec.version spec)) ;;
  Node.consoleLog (nl ++ "📖 Loaded: " ++ title ++ " v" ++ version) ;;
  Node.consoleLog ("  ✓ Endpoints: "
                   ++ natToString (length (ParsedAPISpec.endpoints spec))) ;;
  let config := GeneratorConfig.make inputFile outputDir language (name options)
                  (examples options) (errors options) true in
  engine <- Node.lift (Engine.new config spec) ;;
  Engine.generate engine ;;
  Engine.watch engine.

(** The initial state of a run: the documents on disk and the directories
    that exist. *)
Definition run {A : Type} (command : Node.io A) (documents : list (string * value))
    (directories : list string) : Node.state * result A :=
  command (Node.makeState documents directories []).

End Cli.

(* ================================================================== *)
(** * Vocabulary of the statements, and sample inputs *)
(* ================================================================== *)

Module Spec.

(** ** Paths *)

Fixpoint allChars (p : ascii -> bool) (s : string) : bool :=
  match s with
  | EmptyString => true
  | String c s' => p c && allChars p s'
  end.

Definition onlySlashes : string -> bool := allChars (Ascii.eqb "/").
Definition noSlash : string -> bool := allChars (fun c => negb (Ascii.eqb c "/")).

(** What follows the first segment of a path: nothing, or a slash and the
    rest. *)
Definition tailOf (rest : option string) : string :=
  match rest with
  | None => EmptyString
  | Some t => String "/" t
  end.

(** ** Endpoints and responses *)

Definition response (statusCode : string) (schema : value) : ParsedResponse.t :=
  ParsedResponse.make statusCode (Str "") schema Undefined.

Definition endpoint (method path : string) (tags : value)
    (responses : list ParsedResponse.t) : ParsedEndpoint.t :=
  ParsedEndpoint.make path method (Str (Parser.generateOperationId method path))
    Undefined Undefined tags [] None responses [].

Definition refTo (name : string) : value :=
  Obj [("$ref", Str ("#/components/schemas/" ++ name))].

(** [{type: array, items: {$ref: "#/components/schemas/Pet"}}] *)
Definition arrayOfPets : value :=
  Obj [("type", Str "array"); ("items", refTo "Pet")].

(** [{type: "string"}] *)
Definition stringSchema : value := Obj [("type", Str "string")].

Definition listPets : ParsedEndpoint.t :=
  endpoint "GET" "/pets" (Arr [Str "pets"])
    [response "404" Undefined; response "200" arrayOfPets].

Definition getName : ParsedEndpoint.t :=
  endpoint "GET" "/name" (Arr [Str "pets"]) [response "200" stringSchema].

(** The schema of the first response whose status code begins with 2;
    [undefined] when there is none. *)
Definition successSchema (e : ParsedEndpoint.t) : value :=
  match find (fun r => startsWith "2" (ParsedResponse.statusCode r))
          (ParsedEndpoint.responses e) with
  | Some r => ParsedResponse.schema r
  | None => Undefined
  end.

(** ** Exceptions *)

(** The completion is not an [Error]: [parse] itself throws nothing but
    TypeErrors. *)
Definition noError {A : Type} (r : result A) : Prop :=
  forall message : string, r <> Throw (Error message).

(** ** Tags *)

Definition isString (v : value) : bool :=
  match v with
  | Str _ => true
  | _ => false
  end.

Definition textOf (v : value) : string :=
  match v with
  | Str s => s
  | _ => EmptyString
  end.

(** The tags of an endpoint whose [tags] is an array of strings, which is
    what the interface ParsedEndpoint declares. *)
Definition taggedByStrings (e : ParsedEndpoint.t) : bool :=
  match ParsedEndpoint.tags e with
  | Arr l => forallb isString l
  | _ => false
  end.

Definition tagsOf (e : ParsedEndpoint.t) : list string :=
  match ParsedEndpoint.tags e with
  | Arr l => map textOf l
  | _ => []
  end.

Definition hasTag (t : string) (e : ParsedEndpoint.t) : bool :=
  existsb (String.eqb t) (tagsOf e).

(** The distinct elements of a list, in the order of their first
    occurrence. *)
Fixpoint firstOccurrences (l : list string) : list string :=
  match l with
  | [] => []
  | x :: l' => x :: filter (fun y => negb (String.eqb x y)) (firstOccurrences l')
  end.

(** The turns of the two loops of [buildContext], flattened: one per
    endpoint and tag. *)
Definition turns (es : list ParsedEndpoint.t) : list (string * ParsedEndpoint.t) :=
  flat_map (fun e => map (fun t => (t, e)) (tagsOf e)) es.

Definition turn (m : TagMap)
    (p : string * ParsedEndpoint.t) : TagMap :=
  Engine.addToBucket (Str (fst p)) (snd p) m.

(** Every endpoint a bucket holds has at least one tag. *)
Definition bucketsTagged (m : TagMap) : Prop :=
  forall entry e, In entry m -> In e (snd entry) ->
                  iterate (ParsedEndpoint.tags e) <> Ok [].

Definition addKey (ks : list string) (t : string) : list string :=
  if existsb (String.eqb t) ks then ks else (ks ++ [t])%list.

Definition notIn (ks : list string) (x : string) : bool :=
  negb (existsb (String.eqb x) ks).

(** A property name that does not begin with a digit is not an index. *)
Definition named (k : string) : bool :=
  match k with
  | EmptyString => false
  | String c _ => negb (isDigit c)
  end.

(** ** Schemas and their declarations *)

(** A description the generator can interpolate: a string, or none. *)
Definition describable (v : value) : bool :=
  match v with
  | Undefined | Null | Str _ => true
  | _ => false
  end.

Definition isArray (v : value) : bool :=
  match v with
  | Arr _ => true
  | _ => false
  end.

(** Schemas as the interfaces ParsedSchema and ParsedProperty declare them:
    [required] an array, the type labels strings, the descriptions strings
    or absent. *)
Definition typedProperty (p : ParsedProperty.t) : bool :=
  isString (ParsedProperty.type p) && describable (ParsedProperty.description p).

Definition typedSchema (s : ParsedSchema.t) : bool :=
  isArray (ParsedSchema.required s)
  && describable (ParsedSchema.description s)
  && forallb typedProperty (ParsedSchema.properties s).

(** The names the owning schema lists as required. *)
Definition requiredNames (s : ParsedSchema.t) : list value :=
  match ParsedSchema.required s with
  | Arr names => names
  | _ => []
  end.

Definition isRequired (s : ParsedSchema.t) (p : ParsedProperty.t) : bool :=
  existsb (isStr (ParsedProperty.name p)) (requiredNames s).

Definition descriptionOr (description : value) (name : string) : string :=
  textOf (or description (Str name)).

Definition typeText (p : ParsedProperty.t) : string :=
  match TypeScript.mapType (ParsedProperty.type p) (ParsedProperty.nullable p) with
  | Ok m => mappedText m
  | _ => EmptyString
  end.

(** The declaration of a property with the given mark of requiredness. *)
Definition declarationWith (required : bool) (p : ParsedProperty.t) : string :=
  TypeScript.propertyText
    (descriptionOr (ParsedProperty.description p) (ParsedProperty.name p))
    (ParsedProperty.name p) required (typeText p).

Definition declaration (s : ParsedSchema.t) (p : ParsedProperty.t) : string :=
  declarationWith (isRequired s p) p.

Definition interfaceOf (s : ParsedSchema.t) : string :=
  TypeScript.interfaceText
    (descriptionOr (ParsedSchema.description s) (ParsedSchema.name s))
    (ParsedSchema.name s)
    (join TypeScript.nl (map (declaration s) (ParsedSchema.properties s))).


(** ** The shape of a document *)

(** A version marker: a truthy value under [openapi] or under [swagger].
    An absent field reads as [undefined], which is not truthy. *)
Definition hasMarker (document : value) : bool :=
  truthy (field document "openapi") || truthy (field document "swagger").

(** The shape of the parts of a document the parser looks into.  No
    predicate asks for a field to be there: each constrains a field only if
    the document has it. *)

(** A schema: an object states its [$ref] and its [type] as strings, and
    its [items] is a schema. *)
Fixpoint shapedSchema (schema : value) : bool :=
  match schema with
  | Obj fs =>
      (fix each (fs : list (string * value)) : bool :=
         match fs with
         | [] => true
         | (k, v) :: fs' =>
             (if String.eqb k "$ref" then isString v
              else if String.eqb k "type" then isString v
              else if String.eqb k "items" then shapedSchema v
              else true)
             && each fs'
         end) fs
  | _ => true
  end.

Definition shapedParameter (param : value) : bool :=
  negb (isNullish param) && shapedSchema (field param "schema").

Definition present (v : value) : bool := negb (isNullish v).

Definition shapedOperation (operation : value) : bool :=
  (negb (truthy (field operation "parameters"))
   || match field operation "parameters" with
      | Arr params => forallb shapedParameter params
      | _ => false
      end)
  && (negb (truthy (field operation "responses"))
      || forallb (fun entry => present (snd entry))
           (ownEntries (field operation "responses")))
  && (isNullish (field operation "security")
      || isArray (field operation "security")).

(** The verbs an operation can stand under, in the order of the
    specification of the normalizer. *)
Definition verbs : list string :=
  ["get"; "post"; "put"; "delete"; "patch"; "options"; "head"].

Definition shapedPathItem (pathItem : value) : bool :=
  present pathItem
  && forallb (fun method =>
                negb (truthy (field pathItem method))
                || shapedOperation (field pathItem method))
       verbs.

Definition shapedProperty (prop : value) : bool :=
  present prop && shapedSchema prop.

Definition shapedDeclaration (schema : value) : bool :=
  present schema
  && (negb (truthy (field schema "properties"))
      || forallb (fun entry => shapedProperty (snd entry))
           (ownEntries (field schema "properties"))).

(** The fields of the base URL: [servers] an array of objects, [host] and
    [basePath] strings, [schemes] an array of strings. *)
Definition shapedLocation (document : value) : bool :=
  match field document "servers" with
  | Arr servers => forallb present servers
  | v => negb (truthy v)
  end
  && describable (field document "host")
  && describable (field document "basePath")
  && match field document "schemes" with
     | Arr schemes => forallb isString schemes
     | v => isNullish v
     end.

Definition shaped (document : value) : bool :=
  shapedLocation document
  && (negb (truthy (field document "paths"))
      || forallb (fun entry => shapedPathItem (snd entry))
           (ownEntries (field document "paths")))
  && (negb (truthy (field (field document "components") "schemas"))
      || forallb (fun entry => shapedDeclaration (snd entry))
           (ownEntries (field (field document "components") "schemas"))).

(** The operations of a document: for each path in the order of the
    document, the verbs get, post, put, delete, patch, options, head, in
    that order, under which the path item holds an operation (a truthy
    value; an object always is). *)
Definition presentVerbs (pathItem : value) : list string :=
  filter (fun method => truthy (field pathItem method)) verbs.

Definition presentOperations (document : value) : list (string * string) :=
  if truthy (field document "paths")
  then flat_map (fun entry => map (fun method => (fst entry, toUpperCase method))
                                (presentVerbs (snd entry)))
         (ownEntries (field document "paths"))
  else [].

Definition pathAndMethod (e : ParsedEndpoint.t) : string * string :=
  (ParsedEndpoint.path e, ParsedEndpoint.method e).

(** The names of the component schemas a document declares. *)
Definition declaredSchemas (document : value) : list string :=
  if truthy (field (field document "components") "schemas")
  then map fst (ownEntries (field (field document "components") "schemas"))
  else [].

(** The number of (path, verb) pairs with an operation, and the number of
    declared component schemas. *)
Definition operationCount (document : value) : nat :=
  if truthy (field document "paths")
  then list_sum (map (fun entry => length (presentVerbs (snd entry)))
                   (ownEntries (field document "paths")))
  else 0.

Definition schemaCount (document : value) : nat :=
  if truthy (field (field document "components") "schemas")
  then length (ownEntries (field (field document "components") "schemas"))
  else 0.

(** The fields named [names] are absent from [v]. *)
Definition absent (v : value) (names : list string) : Prop :=
  Forall (fun k => field v k = Undefined) names.

(** An object with the field [k] left out. *)
Definition without (k : string) (fs : list (string * value)) : list (string * value) :=
  filter (fun entry => negb (String.eqb (fst entry) k)) fs.

(** What [parse] returns for a document that has nothing but a marker. *)
Definition defaults : ParsedAPISpec.t :=
  ParsedAPISpec.make (Str "API") (Str "1.0.0") Undefined
    (Str "https://api.example.com") [] [] (Obj []).

(** What the parser returns for an operation, a parameter, a response and
    a schema that are empty objects. *)
Definition defaultEndpoint (path method : string) : ParsedEndpoint.t :=
  ParsedEndpoint.make path method (Str (Parser.generateOperationId method path))
    Undefined Undefined (Arr [Str "default"]) [] None [] [].

Definition defaultParameter : ParsedParameter.t :=
  ParsedParameter.make Undefined (Str "query") (Boolean false) (Str "any")
    Undefined Undefined.

Definition defaultResponse (statusCode : string) : ParsedResponse.t :=
  ParsedResponse.make statusCode (Str "") Undefined Undefined.

Definition defaultSchema (name : string) : ParsedSchema.t :=
  ParsedSchema.make name (Str "object") [] (Arr []) Undefined Undefined
    Undefined Undefined Undefined.


(** ** Documents *)

(** A document with a marker and nothing else, and one with everything but
    a marker. *)
Definition markerOnly : value := Obj [("swagger", Str "2.0")].

Definition noMarker : value :=
  Obj [("info", Obj [("title", Str "Pets")]); ("paths", Obj [])].

(** A document whose marker is there and is the empty string, and the
    document [null]. *)
Definition emptyMarker : value := Obj [("openapi", Str "")].

Definition nullDocument : value := Null.

(** A document that states a title and one path, and leaves out the version,
    the description, the servers, the host and the components; its one
    operation leaves out everything but a summary. *)
Definition titleAndPath : value :=
  Obj [("openapi", Str "3.0.0");
       ("info", Obj [("title", Str "Pets")]);
       ("paths", Obj [("/pets", Obj [("get", Obj [("summary", Str "All pets")])])])].

(** Two path items that state their operations in an order of their own,
    one of them under a verb the normalizer does not know, and two
    component schemas. *)
Definition verbsDocument : value :=
  Obj [("swagger", Str "2.0");
       ("paths",
        Obj [("/pets",
              Obj [("post", Obj []); ("trace", Obj []); ("get", Obj []);
                   ("parameters", Arr [])]);
             ("/pets/{id}",
              Obj [("head", Obj []); ("delete", Obj []); ("options", Obj []);
                   ("patch", Obj []); ("put", Obj [])])]);
       ("components",
        Obj [("schemas", Obj [("Pet", Obj []); ("Error", Obj [])])])].

(** One schema, Pet, with an integer [id] and a required string [name], and
    one endpoint, GET /pets/{id}, returning a Pet. *)
Definition petDocument : value :=
  Obj [("openapi", Str "3.0.0");
       ("paths",
        Obj [("/pets/{id}",
              Obj [("get",
                    Obj [("operationId", Str "getPet");
                         ("tags", Arr [Str "pets"]);
                         ("responses",
                          Obj [("200",
                                Obj [("description", Str "A pet");
                                     ("content",
                                      Obj [("application/json",
                                            Obj [("schema", refTo "Pet")])])])])])])]);
       ("components",
        Obj [("schemas",
              Obj [("Pet",
                    Obj [("type", Str "object");
                         ("required", Arr [Str "name"]);
                         ("properties",
                          Obj [("id", Obj [("type", Str "integer")]);
                               ("name", Obj [("type", Str "string")])])])])])].

Definition petTypes : string :=
  "/** Pet */" ++ TypeScript.nl
  ++ "export interface Pet {" ++ TypeScript.nl
  ++ "  /** id */" ++ TypeScript.nl
  ++ "  id?: number;" ++ TypeScript.nl
  ++ "  /** name */" ++ TypeScript.nl
  ++ "  name: string;" ++ TypeScript.nl
  ++ "}".

(** A document with one operation, GET /pets, whose [tags] is the empty
    array. *)
Definition untaggedDocument : value :=
  Obj [("openapi", Str "3.0.0");
       ("paths",
        Obj [("/pets",
              Obj [("get", Obj [("tags", Arr []);
                                ("responses", Obj [("200", Obj [])])])])])].

(** Three endpoints: one with two tags, one with one of them, and one with
    the tag an operation without [tags] is given. *)
Definition petsAndStore : ParsedEndpoint.t :=
  endpoint "GET" "/pets" (Arr [Str "pets"; Str "store"]) [].

Definition storeOnly : ParsedEndpoint.t :=
  endpoint "POST" "/orders" (Arr [Str "store"]) [].

Definition untagged : ParsedEndpoint.t :=
  endpoint "GET" "/health" (Arr [Str "default"]) [].

(** An endpoint that states the tag pets twice. *)
Definition petsTwice : ParsedEndpoint.t :=
  endpoint "GET" "/pets" (Arr [Str "pets"; Str "pets"]) [].

Definition specOf (endpoints : list ParsedEndpoint.t) : ParsedAPISpec.t :=
  ParsedAPISpec.make (Str "API") (Str "1.0.0") Undefined
    (Str "https://api.example.com") endpoints [] (Obj []).

(** The options of a command line that asks for the language typescript. *)
Definition typescriptOptions : Cli.options :=
  Cli.makeOptions "/work/api.json" "/work/out" "typescript" "APIClient" false true.

(** The options of a command line that asks for the language rust. *)
Definition rustOptions : Cli.options :=
  Cli.makeOptions "/work/api.json" "/work/out" "rust" "APIClient" false true.

(** The configuration a caller of the engine builds for the language rust,
    and the run of the engine on it from an empty output directory. *)
Definition rustConfig : GeneratorConfig.t :=
  GeneratorConfig.make "/work/api.json" "/work/out" "rust" "APIClient"
    false true false.

Definition engineRun (config : GeneratorConfig.t) (spec : ParsedAPISpec.t)
  : result (Node.state * result unit) :=
  JS.bind (Engine.new config spec)
    (fun engine => Ok (Engine.generate engine (Node.makeState [] ["/work"] []))).

(** The files a run has written, in order, and what it wrote to a path. *)
Definition writtenPaths (trace : list Node.event) : list string :=
  flat_map (fun e => match e with
                     | Node.WriteFileSync path _ => [path]
                     | _ => []
                     end) trace.

Definition writtenTo (path : string) (trace : list Node.event) : list Node.artifact :=
  flat_map (fun e => match e with
                     | Node.WriteFileSync p content =>
                         if String.eqb p path then [content] else []
                     | _ => []
                     end) trace.

Definition invalidLanguage (language : string) : string :=
  "Invalid language: " ++ language ++ ". Supported: typescript, python, go".

Definition notice (language : string) : string :=
  "Note: " ++ language ++ " not yet fully implemented, generating TypeScript client".

Definition sampleConfig : GeneratorConfig.t :=
  GeneratorConfig.make "/work/api.json" "/work/out" "typescript" "APIClient"
    false true false.

End Spec.

(* ================================================================== *)
(** * src/engine.ts: the template helpers and the rest of BaseGenerator *)
(* ================================================================== *)

Module Helpers.

(** The functions [registerHandlebarsHelpers] registers, under the names it
    registers them; src/generators/typescript.ts registers the same nine
    once more.  Each is the JavaScript function itself, applied to the
    values a template hands it. *)

(** [str.replace(/[-_](.)/g, (_, c) => c.toUpperCase())]. *)
Definition camelCase (str : value) : result string :=
  s <- asString str ;; Ok (TypeScript.replaceSeparators s).

(** [str.replace(/(.)(-|_)(.)/g, (_, a, b, c) => a + c.toUpperCase())]: a
    match takes three characters, and the search goes on after them. *)
Fixpoint replaceJoints (s : string) : string :=
  match s with
  | EmptyString => EmptyString
  | String a s' =>
      match s' with
      | String b (String c rest) =>
          if negb (isLineTerminator a) && TypeScript.isSeparator b
             && negb (isLineTerminator c)
          then String a (String (upper c) (replaceJoints rest))
          else String a (replaceJoints s')
      | _ => String a (replaceJoints s')
      end
  end.

Definition pascalCase (str : value) : result string :=
  s <- asString str ;; Ok (replaceJoints s).

(** [str.replace(/([A-Z])/g, mark + '$1')]. *)
Fixpoint markUpper (mark : ascii) (s : string) : string :=
  match s with
  | EmptyString => EmptyString
  | String c s' =>
      if isUpper c then String mark (String c (markUpper mark s'))
      else String c (markUpper mark s')
  end.

Definition snakeCase (str : value) : result string :=
  s <- asString str ;; Ok (toLowerCase (markUpper "_" s)).

Definition kebabCase (str : value) : result string :=
  s <- asString str ;; Ok (toLowerCase (markUpper "-" s)).

(** [arr && arr.length > 0]. *)
Definition isNotEmpty (arr : value) : result value :=
  if truthy arr then
    len <- lengthOf arr ;;
    positive <- gt0 len ;;
    Ok (Boolean positive)
  else Ok arr.

(** [arr && arr[0]]. *)
Definition first (arr : value) : result value :=
  if truthy arr then JS.first arr else Ok arr.

(** [arr.join(separator)]: the separator is converted first, a missing one
    being the comma; a null or undefined element is the empty text. *)
Definition join (arr separator : value) : result string :=
  elements <- asArray arr ;;
  sep <- (match separator with
          | Undefined => Ok ","
          | _ => toString separator
          end) ;;
  parts <- forEach (fun x => if isNullish x then Ok EmptyString else toString x)
             elements ;;
  Ok (JS.join sep parts).

Definition statusCategory (statusCode : value) : result string :=
  s <- asString statusCode ;;
  if startsWith "2" s then Ok "success"
  else if startsWith "4" s then Ok "clientError"
  else if startsWith "5" s then Ok "serverError"
  else Ok "informational".

End Helpers.

Module Base.

(** BaseGenerator.getHttpMethod. *)
Definition getHttpMethod (method : value) : result string :=
  s <- asString method ;; Ok (toLowerCase s).

(** BaseGenerator.formatDescription: the lines of a comment block.  The
    body does not read [maxLength]. *)
Definition formatDescription (description maxLength : value) : result string :=
  if negb (truthy description) then Ok ""
  else
    text <- asString description ;;
    Ok (JS.join (TypeScript.nl ++ " * ")
          (filter nonEmpty (map trim (split "010" text)))).

End Base.

(* ================================================================== *)
(** * The process: standard error and try/catch *)
(* ================================================================== *)

Module Process.

(** What [console.error] prints: a text, followed by the exception when one
    is handed to it. *)
Inductive report : Type :=
| Report (text : string) (error : option exn).

(** The state of a command: the file system and the console of [Node], and
    the standard error stream, oldest line first. *)
Record state : Type := makeState {
  node : Node.state;
  stderr : list report }.

Definition io (A : Type) : Type := state -> state * result A.

Definition ret {A : Type} (a : A) : io A := fun st => (st, Ok a).

Definition bind {A B : Type} (m : io A) (k : A -> io B) : io B :=
  fun st =>
    match m st with
    | (st', Ok a) => k a st'
    | (st', Throw e) => (st', Throw e)
    | (st', Beyond) => (st', Beyond)
    end.

(** A computation that does not print to standard error. *)
Definition lift {A : Type} (m : Node.io A) : io A :=
  fun st =>
    let (node', r) := m (node st) in
    (makeState node' (stderr st), r).

Definition throw {A : Type} (e : exn) : io A := fun st => (st, Throw e).

Definition consoleError (text : string) (error : option exn) : io unit :=
  fun st => (makeState (node st) (stderr st ++ [Report text error])%list, Ok tt).

(** [try { body } catch (error) { handler(error) }]: the handler runs in
    the state the body has reached. *)
Definition tryCatch {A : Type} (body : io A) (handler : exn -> io A) : io A :=
  fun st =>
    match body st with
    | (st', Throw e) => handler e st'
    | completion => completion
    end.

End Process.

Declare Scope process_scope.
Delimit Scope process_scope with process.
Notation "x <- e ;; k" := (Process.bind e (fun x => k))
  (at level 61, e at next level, right associativity) : process_scope.
Notation "e ;; k" := (Process.bind e (fun _ => k))
  (at level 61, right associativity) : process_scope.

(* ================================================================== *)
(** * The command-line program: initProject and validateSpec *)
(* ================================================================== *)

Module Commands.





(** [s.padEnd(n)]: spaces up to the length [n]. *)
Definition padEnd (n : nat) (s : string) : string :=
  s ++ String.concat "" (repeat " " (n - String.length s)).

(** One line of the list of endpoints. *)
Definition endpointLine (ep : ParsedEndpoint.t) : Node.io unit :=
  (operationId <- Node.lift (toString (ParsedEndpoint.operationId ep)) ;;
   Node.consoleLog ("  " ++ padEnd 7 (toUpperCase (ParsedEndpoint.method ep)) ++ " "
                    ++ ParsedEndpoint.path ep ++ " → " ++ operationId))%io.

Fixpoint endpointLines (endpoints : list ParsedEndpoint.t) : Node.io unit :=
  match endpoints with
  | [] => Node.ret tt
  | ep :: rest => (endpointLine ep ;; endpointLines rest)%io
  end.

(** The body of the [try] of [validateSpec]. *)
Definition summary (resolvedPath : string) : Node.io unit :=
  (parsed <- Node.readDocument resolvedPath ;;
   spec <- Node.lift (Parser.parseDocument parsed) ;;
   Node.consoleLog (Cli.nl ++ "✅ Validation passed!") ;;
   Node.consoleLog (Cli.nl ++ "📋 Summary:") ;;
   title <- Node.lift (toString (ParsedAPISpec.title spec)) ;;
   Node.consoleLog ("  Title: " ++ title) ;;
   version <- Node.lift (toString (ParsedAPISpec.version spec)) ;;
   Node.consoleLog ("  Version: " ++ version) ;;
   baseUrl <- Node.lift (toString (ParsedAPISpec.baseUrl spec)) ;;
   Node.consoleLog ("  Base URL: " ++ baseUrl) ;;
   Node.consoleLog ("  Endpoints: "
                    ++ natToString (length (ParsedAPISpec.endpoints spec))) ;;
   Node.consoleLog ("  Schemas: "
                    ++ natToString (length (ParsedAPISpec.schemas spec))) ;;
   schemeNames <- Node.lift (keys (ParsedAPISpec.securitySchemes spec)) ;;
   Node.consoleLog ("  Security Schemes: " ++ natToString (length schemeNames)) ;;
   Node.consoleLog (Cli.nl ++ "📡 Endpoints:") ;;
   endpointLines (ParsedAPISpec.endpoints spec))%io.

Definition validateSpec (inputFile : string) : Process.io unit :=
  (let resolvedPath := Node.resolve inputFile in
   Process.lift (Node.consoleLog (Cli.nl ++ "🔍 Validating OpenAPI Specification")) ;;
   Process.lift (Node.consoleLog Cli.rule) ;;
   fileExists <- Process.lift (Node.existsSync resolvedPath) ;;
   if negb fileExists
   then Process.throw (Error ("File not found: " ++ resolvedPath))
   else
     Process.tryCatch (Process.lift (summary resolvedPath))
       (fun error =>
          Process.consoleError (Cli.nl ++ "❌ Validation failed!") None ;;
          Process.throw error))%process.

End Commands.

(* ================================================================== *)
(** * src/engine.ts: the listener of the watcher *)
(* ================================================================== *)

Module Watcher.

(** The function [watch] registers for the event change; [callback] is the
    argument of [watch]. *)
Definition onChange (this : Engine.engine) (callback : option (Node.io unit))
  : Process.io unit :=
  (Process.lift (Node.consoleLog (Cli.nl ++ "📄 File changed, regenerating...")) ;;
   Process.tryCatch
     (Process.lift (Engine.generate this) ;;
      match callback with
      | Some call => Process.lift call
      | None => Process.ret tt
      end)
     (fun error => Process.consoleError "Error regenerating:" (Some error)))%process.

(** The callback [watchAndGenerate] hands to [watch]. *)
Definition regenerationComplete : Node.io unit :=
  Node.consoleLog (Cli.nl ++ "✨ Regeneration complete!").

End Watcher.

(* ================================================================== *)
(** * Vocabulary of the further statements *)
(* ================================================================== *)

Module Props.

(** ** The base URL *)

(** No server to take the base URL from: [servers] is missing, or the
    empty array. *)
Definition noServers (document : value) : bool :=
  match field document "servers" with
  | Arr [] => true
  | v => negb (truthy v)
  end.

(** The scheme and the base path of a legacy document, with the defaults
    of [getBaseUrl]. *)
Definition schemeOf (document : value) : string :=
  Spec.textOf (or (field (field document "schemes") "0") (Str "https")).

Definition basePathOf (document : value) : string :=
  Spec.textOf (or (field document "basePath") (Str "")).

Definition legacyUrl (document : value) : string :=
  match field document "host" with
  | Str host =>
      if nonEmpty host
      then schemeOf document ++ "://" ++ host ++ basePathOf document
      else "https://api.example.com"
  | _ => "https://api.example.com"
  end.

(** ** Arrays of arrays *)

(** The schema found [n] levels down the [items] of array schemas: at each
    level the schema is an array without [$ref] that states its items. *)
Fixpoint elementSchema (n : nat) (schema : value) : option value :=
  match n with
  | O => Some schema
  | S n' =>
      if truthy schema && negb (truthy (field schema "$ref"))
         && isStr "array" (field schema "type") && truthy (field schema "items")
      then elementSchema n' (field schema "items")
      else None
  end.

Fixpoint brackets (n : nat) : string :=
  match n with
  | O => EmptyString
  | S n' => brackets n' ++ "[]"
  end.

(** The last character of [s] is [c]. *)
Fixpoint endsWith (c : ascii) (s : string) : bool :=
  match s with
  | EmptyString => false
  | String d EmptyString => Ascii.eqb d c
  | String _ s' => endsWith c s'
  end.

(** The type of a property in types.ts: the label, and [| null] after it
    for a nullable property. *)
Definition nullableType (label : string) (nullable : value) : mapped :=
  if truthy nullable then Label (label ++ " | null") else Label label.

(** ** The schema of the success response, in the document *)

(** The schema under the first media type of a response. *)
Definition firstMediaSchema (response : value) : value :=
  let content := or (field response "content") (Obj []) in
  field (field content (hd "undefined" (map fst (ownEntries content)))) "schema".

(** The schema the return type of an operation is read from: that of the
    first response, in property order, whose status code begins with 2. *)
Definition successSchemaOf (operation : value) : value :=
  if truthy (field operation "responses") then
    match find (fun entry => startsWith "2" (fst entry))
            (ownEntries (field operation "responses")) with
    | Some entry => firstMediaSchema (snd entry)
    | None => Undefined
    end
  else Undefined.

(** ** Names *)

(** A word: letters and digits, at least one.  A gap between two words: any
    other ASCII characters, at least one. *)
Definition isPunctuation (c : ascii) : bool :=
  negb (isAlnum c) && (nat_of_ascii c <? 128)%nat.

Definition isWord (w : string) : bool := nonEmpty w && Spec.allChars isAlnum w.

Definition isGap (g : string) : bool := nonEmpty g && Spec.allChars isPunctuation g.

(** A first word followed by gaps and words. *)
Definition phrase (w : string) (rest : list (string * string)) : string :=
  w ++ String.concat "" (map (fun p => fst p ++ snd p) rest).

Definition gapsAndWords (rest : list (string * string)) : bool :=
  forallb (fun p => isGap (fst p) && isWord (snd p)) rest.

Definition uncapitalize (s : string) : string :=
  toLowerCase (charAt0 s) ++ slice1 s.

(** The words after the first, each with its first letter in upper case,
    one after the other. *)
Definition capitalized (rest : list (string * string)) : string :=
  String.concat "" (map (fun p => Parser.capitalize (snd p)) rest).

(** ** The case helpers *)

(** A name in snake case ([mark] the underscore) or kebab case ([mark] the
    hyphen): lower-case letters and digits, and marks each followed by a
    lower-case letter. *)
Fixpoint isCased (mark : ascii) (s : string) : bool :=
  match s with
  | EmptyString => true
  | String c s' =>
      if Ascii.eqb c mark then
        match s' with
        | String d s'' => isLower d && isCased mark s''
        | EmptyString => false
        end
      else (isLower c || isDigit c) && isCased mark s'
  end.

Definition noSeparator (s : string) : bool :=
  Spec.allChars (fun c => negb (TypeScript.isSeparator c)) s.

(** Words joined by one hyphen or one underscore each; every word between
    two joints has two characters or more. *)
Fixpoint joints (rest : list (string * string)) : bool :=
  match rest with
  | [] => true
  | (gap, word) :: rest' =>
      (String.eqb gap "-" || String.eqb gap "_")
      && isWord word
      && match rest' with
         | [] => true
         | _ => (2 <=? String.length word)%nat
         end
      && joints rest'
  end.

(** ** Descriptions *)

Definition isAscii (s : string) : bool :=
  Spec.allChars (fun c => (nat_of_ascii c <? 128)%nat) s.

(** The first, and the last, character of [s] satisfies [p]. *)
Definition firstIs (p : ascii -> bool) (s : string) : bool :=
  match s with
  | EmptyString => false
  | String c _ => p c
  end.

Fixpoint lastIs (p : ascii -> bool) (s : string) : bool :=
  match s with
  | EmptyString => false
  | String c EmptyString => p c
  | String _ s' => lastIs p s'
  end.

Definition noLineFeed (s : string) : bool :=
  Spec.allChars (fun c => negb (Ascii.eqb c "010")) s.

(** A description of three lines, the second blank. *)
Definition listing : string :=
  "  List the pets." ++ TypeScript.nl ++ "   " ++ TypeScript.nl
  ++ "Paged by cursor.  ".

(** ** The buckets of the generation context *)

(** The tags of an endpoint can be iterated: an array, or a string, whose
    characters are then the tags. *)
Definition iterableTags (e : ParsedEndpoint.t) : bool :=
  match ParsedEndpoint.tags e with
  | Arr _ | Str _ => true
  | _ => false
  end.

Definition tagCount (e : ParsedEndpoint.t) : nat :=
  match ParsedEndpoint.tags e with
  | Arr l => length l
  | Str s => String.length s
  | _ => 0
  end.

(** The number of endpoints the buckets hold, each counted as often as it
    occurs. *)
Definition bucketSizes (m : TagMap) : nat := length (concat (map snd m)).

(** ** Runs of the generator *)

(** The names of the artifacts [generate] writes for a context, in the
    order it writes them. *)
Definition artifactNames (context : GeneratorContext.t) : list string :=
  let config := GeneratorContext.config context in
  ((match ParsedAPISpec.schemas (GeneratorContext.spec context) with
    | [] => []
    | _ => ["types.ts"]
    end)
   ++ ["index.ts"]
   ++ (if GeneratorConfig.includeErrorHandling config then ["errors.ts"] else [])
   ++ ["params.ts"]
   ++ (if GeneratorConfig.includeExamples config then ["examples.ts"] else [])
   ++ ["package.json"; "tsconfig.json"])%list.

(** The directory of the artifacts: the language directory in the output
    directory. *)
Definition artifactDir (config : GeneratorConfig.t) : string :=
  Node.pathJoin (GeneratorConfig.outputDir config) (GeneratorConfig.language config).

Definition artifactPaths (config : GeneratorConfig.t) (context : GeneratorContext.t)
  : list string :=
  map (Node.pathJoin (artifactDir config)) (artifactNames context).

(** An event of a generation that looks at, or creates, no directory but
    those of [dirs], and reads and watches no file. *)
Definition within (dirs : list string) (e : Node.event) : bool :=
  match e with
  | Node.ConsoleLog _ | Node.WriteFileSync _ _ => true
  | Node.ExistsSync p | Node.MkdirSync p => existsb (String.eqb p) dirs
  | Node.ReadFileSync _ | Node.Watch _ => false
  end.

Fixpoint isPrefix (a b : list string) : bool :=
  match a, b with
  | [], _ => true
  | x :: a', y :: b' => String.eqb x y && isPrefix a' b'
  | _ :: _, [] => false
  end.

(** [m] writes the files [expected], in this order, when it returns, and
    the first of them when it throws; whatever it does stays [within] the
    directories [dirs], and the documents on disk are left as they are. *)
Definition inOrder {A : Type} (dirs expected : list string) (m : Node.io A) : Prop :=
  forall st : Node.state,
  exists evs : list Node.event,
    Node.trace (fst (m st)) = (Node.trace st ++ evs)%list
    /\ Node.documents (fst (m st)) = Node.documents st
    /\ forallb (within dirs) evs = true
    /\ isPrefix (Spec.writtenPaths evs) expected = true
    /\ (forall a : A, snd (m st) = Ok a -> Spec.writtenPaths evs = expected).

(** ** Specifications as src/types.ts declares them *)

(** A value a template literal prints without a conversion of its own: a
    string, a boolean, or none. *)
Definition printable (v : value) : bool :=
  match v with
  | Undefined | Null | Boolean _ | Str _ => true
  | _ => false
  end.

(** The [$ref] of a schema, when it has one, is a string. *)
Definition referenceOrNone (schema : value) : bool :=
  negb (truthy (field schema "$ref")) || Spec.isString (field schema "$ref").

(** The schema of a response: none, or one whose reference and whose
    items' reference are strings. *)
Definition typedResponseSchema (schema : value) : bool :=
  negb (truthy schema)
  || (referenceOrNone schema
      && (negb (isStr "array" (field schema "type"))
          || negb (truthy (field schema "items"))
          || referenceOrNone (field schema "items"))).

Definition typedParameter (p : ParsedParameter.t) : bool :=
  Spec.isString (ParsedParameter.type p)
  && Spec.isString (ParsedParameter.name p)
  && Spec.describable (ParsedParameter.description p).

Definition typedEndpoint (e : ParsedEndpoint.t) : bool :=
  Spec.taggedByStrings e
  && Spec.isString (ParsedEndpoint.operationId e)
  && printable (ParsedEndpoint.summary e)
  && Spec.describable (ParsedEndpoint.description e)
  && forallb typedParameter (ParsedEndpoint.parameters e)
  && typedResponseSchema (Spec.successSchema e).

Definition typedSpec (spec : ParsedAPISpec.t) : bool :=
  printable (ParsedAPISpec.title spec)
  && printable (ParsedAPISpec.version spec)
  && printable (ParsedAPISpec.baseUrl spec)
  && forallb typedEndpoint (ParsedAPISpec.endpoints spec)
  && forallb Spec.typedSchema (ParsedAPISpec.schemas spec)
  && Spec.present (ParsedAPISpec.securitySchemes spec).

Definition typedBucket (entry : value * list ParsedEndpoint.t) : bool :=
  Spec.isString (fst entry) && forallb typedEndpoint (snd entry).

Definition typedContext (context : GeneratorContext.t) : bool :=
  typedSpec (GeneratorContext.spec context)
  && forallb typedBucket (GeneratorContext.endpointsByTag context).

(** ** Paths on which the model of [path.join] is exact *)

(** A segment: not empty, without a slash, and neither [.] nor [..]. *)
Definition plainSegment (s : string) : bool :=
  nonEmpty s && Spec.noSlash s
  && negb (String.eqb s ".") && negb (String.eqb s "..").

(** An absolute path of one or more segments, as [path.resolve] returns
    them. *)
Definition plainPath (p : string) : bool :=
  match split "/" p with
  | EmptyString :: seg :: rest => forallb plainSegment (seg :: rest)
  | _ => false
  end.

(** ** The artifacts and their contents *)

(** The files a run has written, with what it wrote, in order. *)
Definition written (evs : list Node.event) : list (string * Node.artifact) :=
  flat_map (fun e => match e with
                     | Node.WriteFileSync path content => [(path, content)]
                     | _ => []
                     end) evs.

(** The artifacts of a typed specification: types.ts holds the interfaces
    of the schemas, index.ts the client template applied to [view],
    params.ts and examples.ts the texts [params] and [examples]. *)
Definition artifacts (config : GeneratorConfig.t) (context : GeneratorContext.t)
    (view : ClientView.t) (params examples : string)
  : list (string * Node.artifact) :=
  let schemas := ParsedAPISpec.schemas (GeneratorContext.spec context) in
  let flags := GeneratorContext.config context in
  map (fun file => (Node.pathJoin (artifactDir config) (fst file), snd file))
    ((match schemas with
      | [] => []
      | _ => [("types.ts",
               Node.Text (JS.join (TypeScript.nl ++ TypeScript.nl)
                            (map Spec.interfaceOf schemas)))]
      end)
     ++ [("index.ts", Node.Template view)]
     ++ (if GeneratorConfig.includeErrorHandling flags
         then [("errors.ts", Node.Text TypeScript.errorsContent)] else [])
     ++ [("params.ts", Node.Text params)]
     ++ (if GeneratorConfig.includeExamples flags
         then [("examples.ts", Node.Text examples)] else [])
     ++ [("package.json", Node.Json (TypeScript.packageJson flags));
         ("tsconfig.json", Node.Json TypeScript.tsconfigJson)])%list.

(** From a state where the paths [pre] exist, [m] returns [a] after it has
    written [files]; nothing that existed is gone, and the paths [post] and
    the files exist afterwards. *)
Definition produces {A : Type} (pre post : list string) (m : Node.io A) (a : A)
    (files : list (string * Node.artifact)) : Prop :=
  forall st : Node.state,
    (forall p, In p pre -> Node.present st p = true) ->
    exists (st' : Node.state) (evs : list Node.event),
      m st = (st', Ok a)
      /\ Node.trace st' = (Node.trace st ++ evs)%list
      /\ written evs = files
      /\ (forall p, Node.present st p = true -> Node.present st' p = true)
      /\ (forall p, In p post -> Node.present st' p = true)
      /\ Forall (fun file => Node.present st' (fst file) = true) files.

(** ** Commands *)

(** An event that creates a directory or writes a file. *)
Definition creates (e : Node.event) : bool :=
  match e with
  | Node.MkdirSync _ | Node.WriteFileSync _ _ => true
  | _ => false
  end.

Definition touches (evs : list Node.event) : bool := existsb creates evs.

(** The configuration the commands generate and watch build from their
    options. *)
Definition configOf (options : Cli.options) (watchMode : bool) : GeneratorConfig.t :=
  GeneratorConfig.make (Node.resolve (Cli.input options))
    (Node.resolve (Cli.output options)) (Cli.language options) (Cli.name options)
    (Cli.examples options) (Cli.errors options) watchMode.

(** [m] creates nothing: it adds events to the trace, none of which
    creates a directory or writes a file, and leaves the documents and the
    paths as they are. *)
Definition quiet {A : Type} (m : Node.io A) : Prop :=
  forall st : Node.state,
  exists evs : list Node.event,
    Node.trace (fst (m st)) = (Node.trace st ++ evs)%list
    /\ touches evs = false
    /\ Node.documents (fst (m st)) = Node.documents st
    /\ Node.paths (fst (m st)) = Node.paths st.

(** The text a template literal prints for a value. *)
Definition printed (v : value) : string :=
  match toString v with
  | Ok text => text
  | _ => EmptyString
  end.

(** The line [validateSpec] prints for an endpoint. *)
Definition endpointText (ep : ParsedEndpoint.t) : string :=
  "  " ++ Commands.padEnd 7 (toUpperCase (ParsedEndpoint.method ep)) ++ " "
  ++ ParsedEndpoint.path ep ++ " → " ++ printed (ParsedEndpoint.operationId ep).

Definition validationFailed : Process.report :=
  Process.Report (Cli.nl ++ "❌ Validation failed!") None.


(** Two states of the disk with the same paths and the same names of
    documents, whatever the documents hold, and the same trace. *)
Definition sameFiles (st st' : Node.state) : Prop :=
  map fst (Node.documents st) = map fst (Node.documents st')
  /\ Node.paths st = Node.paths st'
  /\ Node.trace st = Node.trace st'.

(** [m] does not look into the documents: on two states with the same
    files it returns the same and leaves the same files. *)
Definition blind {A : Type} (m : Node.io A) : Prop :=
  forall st st' : Node.state,
    sameFiles st st' ->
    snd (m st) = snd (m st') /\ sameFiles (fst (m st)) (fst (m st')).

(** The callback of the listener: the announcement of [watchAndGenerate],
    or none. *)
Definition callbackOf (announce : bool) : option (Node.io unit) :=
  if announce then Some Watcher.regenerationComplete else None.

(** ** The members of params.ts *)

(** The member [generateTypesFile] writes for a parameter: a comment, the
    name, a question mark unless the parameter is required, and the
    type. *)
Definition memberText (description name : string) (required : bool)
    (tsType : string) : string :=
  "  /** " ++ description ++ " */" ++ TypeScript.nl
  ++ "  " ++ name ++ (if required then "" else "?") ++ ": " ++ tsType ++ ";"
  ++ TypeScript.nl.

(** The type [mapType] gives a label, without the nullable mark. *)
Definition mappedLabel (label : string) : string :=
  mappedText (lookupOr TypeScript.mapType_typeMap (toLowerCase label) label).

(** A path parameter that says it is required, and a query parameter that
    says nothing. *)
Definition petId : value :=
  Obj [("name", Str "petId"); ("in", Str "path"); ("required", Boolean true);
       ("schema", Obj [("type", Str "integer")])].

Definition limit : value :=
  Obj [("name", Str "limit"); ("description", Str "Page size");
       ("schema", Obj [("type", Str "integer"); ("nullable", Boolean true)])].

(** The files a run has asked the watcher to watch. *)
Definition watched (evs : list Node.event) : list string :=
  flat_map (fun e => match e with
                     | Node.Watch path => [path]
                     | _ => []
                     end) evs.

Definition watching (path : string) : list Node.event :=
  [Node.Watch path;
   Node.ConsoleLog ("👀 Watching for changes to " ++ path ++ "...")].

(** ** Sample schemas and documents *)

(** [{type: array, items: {type: array, items: {$ref: ...Pet}}}] *)
Definition matrixOfPets : value :=
  Obj [("type", Str "array");
       ("items", Obj [("type", Str "array"); ("items", Spec.refTo "Pet")])].

(** [{type: array, items: {type: integer}, nullable: true}] *)
Definition integers : value :=
  Obj [("type", Str "array"); ("items", Obj [("type", Str "integer")]);
       ("nullable", Boolean true)].

(** A document whose one server states no URL, beside a host. *)
Definition serverWithoutUrl : value :=
  Obj [("openapi", Str "3.0.0"); ("servers", Arr [Obj []]);
       ("host", Str "example.org")].

(** A legacy document: host, base path and schemes. *)
Definition legacyDocument : value :=
  Obj [("swagger", Str "2.0"); ("host", Str "petstore.io");
       ("basePath", Str "/v2"); ("schemes", Arr [Str "http"; Str "https"])].

(** An operation with two 2xx responses and two media types. *)
Definition createPet : value :=
  Obj [("responses",
        Obj [("201",
              Obj [("content",
                    Obj [("application/json", Obj [("schema", Spec.refTo "Pet")]);
                         ("text/plain", Obj [("schema", Spec.stringSchema)])])]);
             ("202", Obj [("content",
                           Obj [("application/json",
                                 Obj [("schema", Spec.refTo "Job")])])]);
             ("default", Obj [])])].

(** Two endpoints whose tags are a number and a string: the tags of the
    second are its characters. *)
Definition numberTagged : ParsedEndpoint.t :=
  Spec.endpoint "GET" "/a" (Number 7) [].

Definition stringTagged : ParsedEndpoint.t :=
  Spec.endpoint "GET" "/b" (Str "ab") [].

(** The specification the normalizer returns for the Pet document. *)
Definition petSpec : ParsedAPISpec.t :=
  match Parser.parseDocument Spec.petDocument with
  | Ok spec => spec
  | _ => Spec.defaults
  end.




Definition petEngine : Engine.engine :=
  match Engine.new Spec.sampleConfig petSpec with
  | Ok engine => engine
  | _ => Engine.CodeGeneratorEngine Spec.sampleConfig petSpec
           (GeneratorContext.make Spec.sampleConfig petSpec [])
  end.

(** Two disks whose input file holds the Pet document and, after a change,
    a document with no schema. *)
Definition before : Node.state :=
  Node.makeState [("/work/api.json", Spec.petDocument)] ["/work"] [].

Definition after : Node.state :=
  Node.makeState [("/work/api.json", Spec.untaggedDocument)] ["/work"] [].

End Props.

(* ================================================================== *)
(** * Properties *)
(* ================================================================== *)

(** ** Evaluation in the two monads *)

Lemma bind_Ok {A B : Type} (r : result A) (k : A -> result B) (b : B) :
  JS.bind r k = Ok b <-> exists a, r = Ok a /\ k a = Ok b.
Proof.
  split.
  - destruct r as [a | e |]; simpl; intro H; try discriminate.
    exists a; split; [reflexivity | exact H].
  - intros (a & -> & H). exact H.
Qed.

Lemma forEach_map {A B : Type} (f : A -> result B) (g : A -> B) (l : list A) :
  (forall a, In a l -> f a = Ok (g a)) -> forEach f l = Ok (map g l).
Proof.
  induction l as [| a l IH]; intro H; simpl.
  - reflexivity.
  - rewrite (H a (or_introl eq_refl)). simpl.
    rewrite IH by (intros x Hx; apply H; right; exact Hx).
    reflexivity.
Qed.

Lemma forEach_length {A B : Type} (f : A -> result B) (l : list A) (bs : list B) :
  forEach f l = Ok bs -> length bs = length l.
Proof.
  revert bs. induction l as [| a l IH]; simpl; intros bs H.
  - injection H as <-. reflexivity.
  - apply bind_Ok in H. destruct H as (b & _ & H).
    apply bind_Ok in H. destruct H as (bs' & Hbs & H).
    injection H as <-. simpl. f_equal. apply IH. exact Hbs.
Qed.

Lemma forEach_Forall2 {A B : Type} (f : A -> result B) (l : list A) (bs : list B) :
  forEach f l = Ok bs -> Forall2 (fun a b => f a = Ok b) l bs.
Proof.
  revert bs. induction l as [| a l IH]; simpl; intros bs H.
  - injection H as <-. constructor.
  - apply bind_Ok in H. destruct H as (b & Hb & H).
    apply bind_Ok in H. destruct H as (bs' & Hbs & H).
    injection H as <-. constructor; [exact Hb | apply IH; exact Hbs].
Qed.

(** ** Strings *)

Lemma append_nil_r (s : string) : s ++ "" = s.
Proof. induction s as [| c s IH]; simpl; [reflexivity | now rewrite IH]. Qed.

Lemma append_assoc (a b c : string) : (a ++ b) ++ c = a ++ b ++ c.
Proof. induction a as [| x a IH]; simpl; [reflexivity | now rewrite IH]. Qed.


Lemma nonEmpty_true (s : string) : nonEmpty s = true <-> s <> "".
Proof.
  unfold nonEmpty. rewrite negb_true_iff. apply String.eqb_neq.
Qed.

(** ** Property reads *)

Lemma lookup_cons {A : Type} (k k' : string) (v : A) (fs : list (string * A)) :
  lookup k ((k', v) :: fs) = if String.eqb k k' then Some v else lookup k fs.
Proof. reflexivity. Qed.

Lemma natToString_not_named (n : nat) : Spec.named (natToString n) = false.
Proof.
  unfold natToString. destruct (Nat.to_uint n); reflexivity.
Qed.

Lemma lookup_indices {A : Type} (k : string) (l : list A) (a : nat) :
  Spec.named k = true ->
  lookup k (combine (map natToString (seq a (length l))) l) = None.
Proof.
  intro Hk. revert a. induction l as [| x l IH]; intro a; simpl.
  - reflexivity.
  - destruct (String.eqb k (natToString a)) eqn:E.
    + apply String.eqb_eq in E. subst k.
      rewrite natToString_not_named in Hk. discriminate Hk.
    + apply IH.
Qed.

Lemma field_not_object (v : value) (k : string) :
  Spec.named k = true ->
  (forall fs, v <> Obj fs) ->
  field v k = Undefined.
Proof.
  intros Hk Hv. unfold field.
  destruct v as [| | b | n | s | l | fs]; simpl; try reflexivity.
  - unfold indexed. rewrite lookup_indices by exact Hk. reflexivity.
  - unfold indexed. rewrite lookup_indices by exact Hk. reflexivity.
  - exfalso. apply (Hv fs). reflexivity.
Qed.

Lemma truthy_not_nullish (v : value) : truthy v = true -> isNullish v = false.
Proof. destruct v; simpl; intro H; try reflexivity; discriminate H. Qed.

Lemma get_truthy (v : value) (k : string) :
  truthy v = true -> get v k = Ok (field v k).
Proof.
  intro H. unfold get. rewrite (truthy_not_nullish v H). reflexivity.
Qed.

Lemma get_Ok (v x : value) (k : string) :
  get v k = Ok x -> isNullish v = false /\ x = field v k.
Proof.
  unfold get. destruct (isNullish v); intro H; [discriminate H |].
  injection H as <-. split; reflexivity.
Qed.

(** ** The type of a schema *)

(** [getSchemaType] in the form of parser.ts. *)
Lemma getSchemaType_eq (schema : value) :
  Parser.getSchemaType schema
  = if negb (truthy schema) then Ok (Str "any")
    else
      ref <- get schema "$ref" ;;
      if truthy ref then
        text <- asString ref ;;
        Ok (Str (lastPart (split "/" text)))
      else
        type <- get schema "type" ;;
        items <- get schema "items" ;;
        if isStr "array" type && truthy items then
          inner <- Parser.getSchemaType items ;;
          text <- toString inner ;;
          Ok (Str (text ++ "[]"))
        else Ok (or type (Str "any")).
Proof.
  destruct (truthy schema) eqn:Ht.
  2: { destruct schema; simpl in Ht; try discriminate Ht; try reflexivity.
       - destruct b; [discriminate Ht | reflexivity].
       - simpl. rewrite Ht. reflexivity.
       - simpl. rewrite Ht. reflexivity. }
  assert (Hitems :
            match schema with
            | Obj fs =>
                (fix find (fs : list (string * value)) : result value :=
                   match fs with
                   | [] => Ok (Str "any")
                   | (k, v) :: fs' =>
                       if String.eqb "items" k then Parser.getSchemaType v
                       else find fs'
                   end) fs
            | _ => Ok (Str "any")
            end = Parser.getSchemaType (field schema "items")).
  { destruct schema as [| | b | n | s | l | fs];
      try (rewrite field_not_object;
           [reflexivity | reflexivity | intros fs H; discriminate H]).
    unfold field. simpl ownEntries. clear Ht.
    induction fs as [| [k v] fs IH]; [reflexivity |].
    rewrite lookup_cons. destruct (String.eqb "items" k); [reflexivity | exact IH]. }
  simpl negb. cbv iota.
  rewrite !(get_truthy schema _ Ht). simpl JS.bind at 1.
  destruct schema as [| | b | n | s | l | fs]; simpl in Ht; try discriminate Ht;
    cbn [Parser.getSchemaType]; simpl truthy; rewrite ?Ht; simpl negb; cbv iota;
    rewrite ?get_truthy by (simpl; exact Ht || reflexivity);
    simpl JS.bind at 1;
    try (rewrite <- Hitems); reflexivity.
Qed.
(** ** The type mapping *)

(** C9, as the code has it.  [mapType] looks the lower-cased label up in its
    table: string to string, integer and number to number, boolean to
    boolean, array to any[], object to Record<string, any>, file to Blob,
    date and date-time to string.  A label whose lower-cased form is not a
    key of the table passes through unchanged, email and uri among them,
    unless that form is the name of a member every object inherits,
    constructor or __proto__: for such a label the lookup finds the
    inherited member, and [mapType] returns it, not the label.  A truthy
    nullable flag appends [ | null] to the text of the mapped type.  Only
    [BaseGenerator.getTypeName], which nothing calls, maps email and uri to
    string, and it maps object to any. *)
Theorem mapType_table (label : string) (nullable : value) :
  (forall tsType : string,
      lookup (toLowerCase label) TypeScript.mapType_typeMap = Some tsType ->
      TypeScript.mapType (Str label) Undefined = Ok (Label tsType))
  /\ (lookup (toLowerCase label) TypeScript.mapType_typeMap = None ->
      existsb (String.eqb (toLowerCase label)) inheritedMembers = false ->
      TypeScript.mapType (Str label) Undefined = Ok (Label label))
  /\ (existsb (String.eqb (toLowerCase label)) inheritedMembers = true ->
      TypeScript.mapType (Str label) Undefined = Ok (Inherited (toLowerCase label))
      /\ TypeScript.mapType (Str label) Undefined <> Ok (Label label))
  /\ (existsb (String.eqb (toLowerCase label)) inheritedMembers = true <->
      toLowerCase label = "constructor" \/ toLowerCase label = "__proto__")
  /\ (truthy nullable = true ->
      forall m : mapped,
        TypeScript.mapType (Str label) Undefined = Ok m ->
        TypeScript.mapType (Str label) nullable
        = Ok (Label (mappedText m ++ " | null")))
  /\ (truthy nullable = false ->
      TypeScript.mapType (Str label) nullable
      = TypeScript.mapType (Str label) Undefined)
  /\ map (fun l => TypeScript.mapType (Str l) Undefined)
       ["string"; "integer"; "number"; "boolean"; "array"; "object"; "file";
        "date"; "date-time"; "email"; "uri"; "Pet"; "String"]
     = map (fun t => Ok (Label t))
         ["string"; "number"; "number"; "boolean"; "any[]";
          "Record<string, any>"; "Blob"; "string"; "string"; "email"; "uri";
          "Pet"; "string"]
  /\ map (fun l => Engine.getTypeName (Str l)) ["email"; "uri"; "object"]
     = map (fun t => Ok (Label t)) ["string"; "string"; "any"].
Proof.
  unfold TypeScript.mapType. simpl JS.bind. cbv beta.
  repeat split.
  - intros tsType H. unfold lookupOr. rewrite H.
    assert (Hne : nonEmpty tsType = true).
    { simpl in H.
      repeat match type of H with
             | (if ?c then _ else _) = _ => destruct c
             end;
        try discriminate H; injection H as <-; reflexivity. }
    rewrite Hne. reflexivity.
  - intros H Hin. unfold lookupOr. rewrite H, Hin. reflexivity.
  - cbn [existsb inheritedMembers] in H. unfold lookupOr.
    apply orb_prop in H. destruct H as [H | H].
    + apply String.eqb_eq in H. rewrite H. reflexivity.
    + apply orb_prop in H. destruct H as [H | H]; [| discriminate H].
      apply String.eqb_eq in H. rewrite H. reflexivity.
  - cbn [existsb inheritedMembers] in H. unfold lookupOr.
    apply orb_prop in H. destruct H as [H | H].
    + apply String.eqb_eq in H. rewrite H. intro E. discriminate E.
    + apply orb_prop in H. destruct H as [H | H]; [| discriminate H].
      apply String.eqb_eq in H. rewrite H. intro E. discriminate E.
  - cbn [existsb inheritedMembers]. intro H.
    apply orb_prop in H. destruct H as [H | H].
    + left. apply String.eqb_eq. exact H.
    + apply orb_prop in H. destruct H as [H | H]; [| discriminate H].
      right. apply String.eqb_eq. exact H.
  - cbn [existsb inheritedMembers].
    intros [-> | ->]; reflexivity.
  - intros Hn m Hm. rewrite Hn. injection Hm as <-. reflexivity.
  - intros Hn. rewrite Hn. reflexivity.
Qed.

(** The table at work on a label in upper case, on a schema name, and with
    the nullable flag. *)
Lemma mapType_table_witness :
  TypeScript.mapType (Str "INTEGER") Undefined = Ok (Label "number")
  /\ TypeScript.mapType (Str "Pet") Undefined = Ok (Label "Pet")
  /\ TypeScript.mapType (Str "Pet") (Boolean true) = Ok (Label "Pet | null")
  /\ TypeScript.mapType (Str "Pet") (Boolean false) = Ok (Label "Pet")
  /\ TypeScript.mapType (Str "Constructor") Undefined = Ok (Inherited "constructor")
  /\ TypeScript.mapType (Str "Constructor") (Boolean true)
     = Ok (Label "function Object() { [native code] } | null").
Proof.
  destruct (mapType_table "INTEGER" Undefined) as (H1 & _).
  destruct (mapType_table "Pet" (Boolean true)) as (_ & H2 & _ & _ & H3 & _).
  destruct (mapType_table "Pet" (Boolean false)) as (_ & _ & _ & _ & _ & H4 & _).
  destruct (mapType_table "Constructor" (Boolean true))
    as (_ & _ & H5 & _ & H6 & _).
  split; [apply H1; reflexivity |].
  split; [apply H2; reflexivity |].
  split; [apply (H3 eq_refl (Label "Pet")); apply H2; reflexivity |].
  split; [rewrite (H4 eq_refl); apply H2; reflexivity |].
  split; [apply H5; reflexivity |].
  apply (H6 eq_refl (Inherited "constructor")). apply H5. reflexivity.
Defined.

(** C9 as stated fails: email and uri are not mapped to string. *)
Lemma mapType_email_uri_counterexample :
  TypeScript.mapType (Str "email") Undefined = Ok (Label "email")
  /\ TypeScript.mapType (Str "uri") Undefined = Ok (Label "uri")
  /\ TypeScript.mapType (Str "email") Undefined <> Ok (Label "string")
  /\ TypeScript.mapType (Str "uri") Undefined <> Ok (Label "string").
Proof.
  repeat split; try reflexivity; intro H; discriminate H.
Qed.

(** ** Operation identifiers *)

Lemma split_slash (s : string) : split "/" (String "/" s) = "" :: split "/" s.
Proof. reflexivity. Qed.

Lemma split_segment (seg : string) (rest : option string) :
  Spec.noSlash seg = true ->
  split "/" (seg ++ Spec.tailOf rest)
  = seg :: match rest with
           | None => []
           | Some t => split "/" t
           end.
Proof.
  induction seg as [| c seg IH]; intro H.
  - destruct rest as [t |]; reflexivity.
  - simpl in H. apply andb_prop in H. destruct H as (Hc & Hseg).
    apply negb_true_iff in Hc.
    change (String c seg ++ Spec.tailOf rest)
      with (String c (seg ++ Spec.tailOf rest)).
    cbn [split]. rewrite Hc, (IH Hseg). reflexivity.
Qed.

Lemma segments_after_slashes (prefix s : string) :
  Spec.onlySlashes prefix = true ->
  filter nonEmpty (split "/" (prefix ++ s)) = filter nonEmpty (split "/" s).
Proof.
  induction prefix as [| c prefix IH]; intro H; [reflexivity |].
  simpl in H. apply andb_prop in H. destruct H as (Hc & Hp).
  apply Ascii.eqb_eq in Hc. subst c.
  change (String "/" prefix ++ s) with (String "/" (prefix ++ s)).
  rewrite split_slash. simpl. apply IH. exact Hp.
Qed.

Lemma segments_of_slashes (prefix : string) :
  Spec.onlySlashes prefix = true ->
  filter nonEmpty (split "/" prefix) = [].
Proof.
  intro H. rewrite <- (append_nil_r prefix).
  rewrite (segments_after_slashes prefix "" H). reflexivity.
Qed.

(** C4, as the code has it.  An operation without a declared identifier
    (none, or a falsy one) is given [lowercase(method)] followed by the
    first non-empty segment of the path with its first character in upper
    case and the rest of the segment as it is; the segment is [default] when
    the path has no non-empty segment.  GET /pets yields getPets, POST /
    yields postDefault, and GET /pet-store yields getPet-store: a hyphen
    inside the segment is kept.  Stated for a method and a first segment in
    ASCII, on which the case conversions of the model are those of
    JavaScript. *)
Theorem generateOperationId_first_segment
    (method prefix seg : string) (rest : option string) :
  Props.isAscii method = true ->
  Props.isAscii seg = true ->
  Spec.onlySlashes prefix = true ->
  Spec.noSlash seg = true ->
  nonEmpty seg = true ->
  let path := prefix ++ seg ++ Spec.tailOf rest in
  Parser.generateOperationId method path
  = toLowerCase method ++ toUpperCase (charAt0 seg) ++ slice1 seg
  /\ Parser.generateOperationId method prefix = toLowerCase method ++ "Default"
  /\ (forall (operation : value) (e : ParsedEndpoint.t),
        Parser.parseEndpoint path method operation = Ok e ->
        ParsedEndpoint.operationId e
        = if truthy (field operation "operationId")
          then field operation "operationId"
          else Str (Parser.generateOperationId method path)).
Proof.
  intros _ _ Hprefix Hseg Hne path. repeat split.
  - unfold Parser.generateOperationId, path.
    rewrite (segments_after_slashes _ _ Hprefix), (split_segment _ _ Hseg).
    simpl filter. rewrite Hne. reflexivity.
  - unfold Parser.generateOperationId.
    rewrite (segments_of_slashes _ Hprefix). reflexivity.
  - intros operation e H. unfold Parser.parseEndpoint in H.
    repeat (apply bind_Ok in H; destruct H as (? & ? & H)).
    injection H as <-. simpl.
    match goal with
    | Hid : get operation "operationId" = Ok ?x |- _ =>
        unfold get in Hid; destruct (isNullish operation); [discriminate Hid |];
        injection Hid as <-
    end.
    reflexivity.
Qed.

(** GET /pets yields getPets, POST / yields postDefault, GET /pet-store/{id}
    yields getPet-store. *)
Lemma generateOperationId_examples :
  Parser.generateOperationId "GET" "/pets" = "getPets"
  /\ Parser.generateOperationId "POST" "/" = "postDefault"
  /\ Parser.generateOperationId "GET" "/pet-store/{id}" = "getPet-store".
Proof.
  destruct (generateOperationId_first_segment "GET" "/" "pets" None
              eq_refl eq_refl eq_refl eq_refl eq_refl) as (H1 & _).
  destruct (generateOperationId_first_segment "POST" "/" "pets" None
              eq_refl eq_refl eq_refl eq_refl eq_refl) as (_ & H2 & _).
  destruct (generateOperationId_first_segment "GET" "/" "pet-store" (Some "{id}")
              eq_refl eq_refl eq_refl eq_refl eq_refl) as (H3 & _).
  split; [exact H1 |]. split; [exact H2 | exact H3].
Defined.

(** C4 as stated fails: for the segment pet-store the synthesized
    identifier is not [get] followed by the PascalCase form of the segment,
    which the generator's own [toPascalCase] gives as PetStore. *)
Lemma generateOperationId_hyphen_counterexample :
  TypeScript.pascalCase "pet-store" = "PetStore"
  /\ Parser.generateOperationId "GET" "/pet-store" = "getPet-store"
  /\ Parser.generateOperationId "GET" "/pet-store"
     <> toLowerCase "GET" ++ TypeScript.pascalCase "pet-store".
Proof.
  repeat split; try reflexivity. intro H. discriminate H.
Qed.

(** ** Return types *)

Lemma getReturnType_eq (e : ParsedEndpoint.t) :
  TypeScript.getReturnType e
  = let schema := Spec.successSchema e in
    if negb (truthy schema) then Ok "any"
    else
      ref <- get schema "$ref" ;;
      if truthy ref then
        text <- asString ref ;;
        Ok (lastPart (split "/" text))
      else
        type <- get schema "type" ;;
        if isStr "array" type then
          items <- get schema "items" ;;
          if truthy items then
            itemsRef <- get items "$ref" ;;
            if truthy itemsRef then
              text <- asString itemsRef ;;
              Ok (lastPart (split "/" text) ++ "[]")
            else Ok "any[]"
          else Ok "any[]"
        else Ok "any".
Proof.
  unfold TypeScript.getReturnType, Spec.successSchema.
  destruct (find _ _); reflexivity.
Qed.

Lemma isStr_true (text : string) (v : value) : isStr text v = true <-> v = Str text.
Proof.
  destruct v; simpl; split; intro H; try discriminate H.
  - apply String.eqb_eq in H. now subst.
  - injection H as ->. apply String.eqb_refl.
Qed.

(** C1, as the code has it.  The return type of an endpoint is decided by
    the schema of the first response whose status code begins with 2.  With
    no such response, or no schema on it, the type is any.  A schema that is
    a reference yields the last segment of the reference, as in the
    normalizer.  A schema of type array whose items are a reference yields
    that last segment followed by [[]], as in the normalizer; any other
    array yields any[].  Every other schema, a declared primitive such as
    [{type: "string"}] included, yields any. *)
Theorem getReturnType_rules (e : ParsedEndpoint.t) :
  let schema := Spec.successSchema e in
  (truthy schema = false -> TypeScript.getReturnType e = Ok "any")
  /\ (truthy schema = true ->
      forall text : string,
        field schema "$ref" = Str text -> nonEmpty text = true ->
        TypeScript.getReturnType e = Ok (lastPart (split "/" text))
        /\ Parser.getSchemaType schema = Ok (Str (lastPart (split "/" text))))
  /\ (truthy schema = true ->
      truthy (field schema "$ref") = false ->
      field schema "type" = Str "array" ->
      (forall text : string,
          field (field schema "items") "$ref" = Str text ->
          nonEmpty text = true ->
          TypeScript.getReturnType e = Ok (lastPart (split "/" text) ++ "[]")
          /\ Parser.getSchemaType schema
             = Ok (Str (lastPart (split "/" text) ++ "[]")))
      /\ (truthy (field (field schema "items") "$ref") = false ->
          TypeScript.getReturnType e = Ok "any[]"))
  /\ (truthy schema = true ->
      truthy (field schema "$ref") = false ->
      isStr "array" (field schema "type") = false ->
      TypeScript.getReturnType e = Ok "any").
Proof.
  intro schema. rewrite getReturnType_eq. fold schema. cbv zeta.
  split; [| split; [| split]].
  - intro Ht. rewrite Ht. reflexivity.
  - intros Ht text Href Hne.
    rewrite getSchemaType_eq.
    rewrite Ht, (get_truthy _ _ Ht), Href.
    cbn [negb JS.bind truthy asString]. rewrite Hne.
    split; reflexivity.
  - intros Ht Href Htype.
    assert (Hitems : forall text : string,
               field (field schema "items") "$ref" = Str text ->
               nonEmpty text = true ->
               truthy (field schema "items") = true).
    { intros text H Hne.
      destruct (field schema "items") eqn:E; try reflexivity;
        (rewrite field_not_object in H;
         [discriminate H | reflexivity | intros fs Hfs; discriminate Hfs]). }
    split.
    + intros text Hiref Hne.
      pose proof (Hitems text Hiref Hne) as Hit.
      split.
      * rewrite Ht, !(get_truthy _ _ Ht). cbn [negb JS.bind].
        rewrite Href, Htype. cbn [isStr JS.bind]. rewrite String.eqb_refl, Hit.
        rewrite (get_truthy _ _ Hit). cbn [JS.bind]. rewrite Hiref.
        cbn [truthy asString JS.bind]. rewrite Hne. reflexivity.
      * rewrite getSchemaType_eq.
        rewrite Ht, !(get_truthy _ _ Ht). cbn [negb JS.bind].
        rewrite Href, Htype. cbn [isStr]. rewrite String.eqb_refl, Hit.
        cbn [andb]. rewrite getSchemaType_eq.
        rewrite Hit, (get_truthy _ _ Hit). cbn [negb JS.bind]. rewrite Hiref.
        cbn [truthy asString JS.bind]. rewrite Hne. reflexivity.
    + intro Hiref.
      rewrite Ht, !(get_truthy _ _ Ht). cbn [negb JS.bind].
      rewrite Href, Htype. cbn [isStr JS.bind]. rewrite String.eqb_refl.
      destruct (truthy (field schema "items")) eqn:Hit; [| reflexivity].
      rewrite (get_truthy _ _ Hit). cbn [JS.bind]. rewrite Hiref. reflexivity.
  - intros Ht Href Htype.
    rewrite Ht, !(get_truthy _ _ Ht). cbn [negb JS.bind].
    rewrite Href, Htype. reflexivity.
Qed.

(** An endpoint whose first 2xx response has the schema
    [{type: array, items: {$ref: "#/components/schemas/Pet"}}] has the
    return type Pet[], and the normalizer gives the schema the same label. *)
Lemma getReturnType_rules_witness :
  TypeScript.getReturnType Spec.listPets = Ok "Pet[]"
  /\ Parser.getSchemaType Spec.arrayOfPets = Ok (Str "Pet[]").
Proof.
  destruct (getReturnType_rules Spec.listPets) as (_ & _ & H & _).
  destruct (H eq_refl eq_refl eq_refl) as (Href & _).
  exact (Href "#/components/schemas/Pet" eq_refl eq_refl).
Defined.

(** C1 as stated fails: a 2xx response with the declared primitive schema
    [{type: "string"}] yields any, not the label string the normalizer
    gives that schema. *)
Lemma getReturnType_primitive_counterexample :
  Parser.getSchemaType Spec.stringSchema = Ok (Str "string")
  /\ TypeScript.getReturnType Spec.getName = Ok "any"
  /\ TypeScript.getReturnType Spec.getName <> Ok "string".
Proof.
  repeat split; try reflexivity. intro H. discriminate H.
Qed.

(** ** Grouping by tag *)

Lemma strings_map (l : list value) :
  forallb Spec.isString l = true -> l = map Str (map Spec.textOf l).
Proof.
  induction l as [| v l IH]; simpl; intro H; [reflexivity |].
  apply andb_prop in H. destruct H as (Hv & Hl).
  destruct v; try discriminate Hv. simpl. f_equal. apply IH. exact Hl.
Qed.

Lemma addEndpoint_turns (m : TagMap) (e : ParsedEndpoint.t) :
  Spec.taggedByStrings e = true ->
  Engine.addEndpoint m e
  = Ok (fold_left Spec.turn (map (fun t => (t, e)) (Spec.tagsOf e)) m).
Proof.
  unfold Spec.taggedByStrings, Spec.tagsOf, Engine.addEndpoint.
  destruct (ParsedEndpoint.tags e) as [| | | | | l |]; try discriminate.
  intro H. simpl. f_equal.
  rewrite (strings_map l H) at 1.
  generalize (map Spec.textOf l) as ts. clear. intro ts. revert m.
  induction ts as [| t ts IH]; intro m; simpl; [reflexivity | apply IH].
Qed.

Lemma groupEndpoints_turns (es : list ParsedEndpoint.t) (m : TagMap) :
  forallb Spec.taggedByStrings es = true ->
  Engine.groupEndpoints m es = Ok (fold_left Spec.turn (Spec.turns es) m).
Proof.
  revert m. induction es as [| e es IH]; intros m H; simpl; [reflexivity |].
  simpl in H. apply andb_prop in H. destruct H as (He & Hes).
  rewrite (addEndpoint_turns m e He). simpl.
  unfold Spec.turns. simpl. rewrite fold_left_app. apply IH. exact Hes.
Qed.

(** *** The bucket of a tag *)

Lemma bucketOf_addToBucket (t t' : string) (e : ParsedEndpoint.t) (m : TagMap) :
  Engine.bucketOf t (Engine.addToBucket (Str t') e m)
  = (Engine.bucketOf t m ++ if String.eqb t t' then [e] else [])%list.
Proof.
  induction m as [| [k b] m IH]; simpl.
  - rewrite String.eqb_sym. destruct (String.eqb t t'); reflexivity.
  - destruct k as [| | x | n | s | l | fs]; simpl; try exact IH.
    destruct (String.eqb s t') eqn:E1; simpl.
    + apply String.eqb_eq in E1. subst s.
      rewrite (String.eqb_sym t' t).
      destruct (String.eqb t t'); [reflexivity |].
      rewrite app_nil_r. reflexivity.
    + destruct (String.eqb s t) eqn:E2; [| exact IH].
      apply String.eqb_eq in E2. subst s.
      rewrite E1, app_nil_r. reflexivity.
Qed.

Lemma bucketOf_turns (t : string) (ps : list (string * ParsedEndpoint.t)) (m : TagMap) :
  Engine.bucketOf t (fold_left Spec.turn ps m)
  = (Engine.bucketOf t m
     ++ map snd (filter (fun p => String.eqb t (fst p)) ps))%list.
Proof.
  revert m. induction ps as [| [t' e] ps IH]; intro m; simpl.
  - rewrite app_nil_r. reflexivity.
  - rewrite IH. unfold Spec.turn. simpl fst. simpl snd.
    rewrite bucketOf_addToBucket.
    destruct (String.eqb t t'); simpl.
    + rewrite <- app_assoc. reflexivity.
    + rewrite app_nil_r. reflexivity.
Qed.

Lemma turns_of_tag (t : string) (es : list ParsedEndpoint.t) :
  map snd (filter (fun p => String.eqb t (fst p)) (Spec.turns es))
  = flat_map (fun e => repeat e (count_occ string_dec (Spec.tagsOf e) t)) es.
Proof.
  induction es as [| e es IH]; [reflexivity |].
  unfold Spec.turns. simpl. rewrite filter_app, map_app. f_equal; [| exact IH].
  generalize (Spec.tagsOf e) as ts. intro ts.
  induction ts as [| x ts IHts]; [reflexivity |].
  simpl. destruct (string_dec x t) as [-> | Hneq].
  - rewrite String.eqb_refl. simpl. f_equal. exact IHts.
  - assert (E : String.eqb t x = false).
    { apply String.eqb_neq. intro Heq. apply Hneq. symmetry. exact Heq. }
    rewrite E. exact IHts.
Qed.

Lemma existsb_eqb_In (t : string) (l : list string) :
  existsb (String.eqb t) l = true <-> In t l.
Proof.
  rewrite existsb_exists. split.
  - intros (x & Hx & E). apply String.eqb_eq in E. now subst.
  - intro H. exists t. split; [exact H | apply String.eqb_refl].
Qed.

Lemma count_occ_NoDup (t : string) (l : list string) :
  NoDup l ->
  count_occ string_dec l t = if existsb (String.eqb t) l then 1 else 0.
Proof.
  intro H. destruct (existsb (String.eqb t) l) eqn:E.
  - apply existsb_eqb_In in E.
    apply (proj1 (NoDup_count_occ' string_dec l) H). exact E.
  - apply count_occ_not_In. intro Hin.
    apply existsb_eqb_In in Hin. rewrite Hin in E. discriminate E.
Qed.

Lemma repeat_by_tag (es : list ParsedEndpoint.t) (t : string) :
  (forall e, In e es -> NoDup (Spec.tagsOf e)) ->
  flat_map (fun e => repeat e (count_occ string_dec (Spec.tagsOf e) t)) es
  = filter (Spec.hasTag t) es.
Proof.
  induction es as [| e es IH]; intro H; [reflexivity |].
  simpl. rewrite IH by (intros x Hx; apply H; right; exact Hx).
  rewrite (count_occ_NoDup t _ (H e (or_introl eq_refl))).
  unfold Spec.hasTag at 2.
  destruct (existsb (String.eqb t) (Spec.tagsOf e)); reflexivity.
Qed.

Lemma in_bucket_iff (es : list ParsedEndpoint.t) (t : string) (e : ParsedEndpoint.t) :
  In e (flat_map (fun e => repeat e (count_occ string_dec (Spec.tagsOf e) t)) es)
  <-> In e es /\ In t (Spec.tagsOf e).
Proof.
  rewrite in_flat_map. split.
  - intros (e' & He' & Hin).
    pose proof (repeat_spec _ _ _ Hin) as ->.
    split; [exact He' |].
    apply (count_occ_In string_dec).
    destruct (count_occ string_dec (Spec.tagsOf e') t); [destruct Hin | lia].
  - intros (He & Ht). exists e. split; [exact He |].
    apply (count_occ_In string_dec) in Ht.
    destruct (count_occ string_dec (Spec.tagsOf e) t); [lia | left; reflexivity].
Qed.

(** *** The keys *)

Lemma filter_filter {A : Type} (f g : A -> bool) (l : list A) :
  filter f (filter g l) = filter (fun x => g x && f x) l.
Proof.
  induction l as [| x l IH]; [reflexivity |].
  simpl. destruct (g x); simpl; [destruct (f x) |]; rewrite IH; reflexivity.
Qed.

Lemma keys_addToBucket (t : string) (e : ParsedEndpoint.t) (m : TagMap)
    (ks : list string) :
  map fst m = map Str ks ->
  map fst (Engine.addToBucket (Str t) e m) = map Str (Spec.addKey ks t).
Proof.
  unfold Spec.addKey. revert ks. induction m as [| [k b] m IH]; intros ks H.
  - destruct ks; [reflexivity | discriminate H].
  - destruct ks as [| k' ks]; [discriminate H |].
    simpl in H. injection H as -> Hm. simpl.
    rewrite (String.eqb_sym t k').
    destruct (String.eqb k' t); simpl; [rewrite Hm; reflexivity |].
    rewrite (IH ks Hm).
    destruct (existsb (String.eqb t) ks); reflexivity.
Qed.

Lemma keys_turns (ps : list (string * ParsedEndpoint.t)) (m : TagMap)
    (ks : list string) :
  map fst m = map Str ks ->
  map fst (fold_left Spec.turn ps m) = map Str (fold_left Spec.addKey (map fst ps) ks).
Proof.
  revert m ks. induction ps as [| [t e] ps IH]; intros m ks H; simpl.
  - exact H.
  - apply IH. unfold Spec.turn. simpl. apply keys_addToBucket. exact H.
Qed.

Lemma addKey_firstOccurrences (l ks : list string) :
  fold_left Spec.addKey l ks
  = (ks ++ filter (Spec.notIn ks) (Spec.firstOccurrences l))%list.
Proof.
  revert ks. induction l as [| x l IH]; intro ks; simpl.
  - rewrite app_nil_r. reflexivity.
  - rewrite IH. unfold Spec.addKey, Spec.notIn at 2.
    destruct (existsb (String.eqb x) ks) eqn:E; simpl.
    + f_equal. rewrite filter_filter. apply filter_ext.
      intro y. unfold Spec.notIn.
      destruct (existsb (String.eqb y) ks) eqn:Ey; simpl;
        [rewrite andb_false_r; reflexivity |].
      destruct (String.eqb x y) eqn:Exy; [| reflexivity].
      apply String.eqb_eq in Exy. subst y. rewrite E in Ey. discriminate Ey.
    + rewrite <- app_assoc. simpl. f_equal. f_equal.
      rewrite filter_filter. apply filter_ext. intro y.
      unfold Spec.notIn. rewrite existsb_app. simpl. rewrite orb_false_r.
      rewrite negb_orb, (String.eqb_sym y x). apply andb_comm.
Qed.


Lemma firstOccurrences_In (x : string) (l : list string) :
  In x (Spec.firstOccurrences l) <-> In x l.
Proof.
  induction l as [| y l IH]; simpl; [tauto |].
  rewrite filter_In, IH, negb_true_iff, String.eqb_neq.
  destruct (string_dec y x) as [-> | Hneq]; tauto.
Qed.

Lemma firstOccurrences_NoDup (l : list string) : NoDup (Spec.firstOccurrences l).
Proof.
  induction l as [| y l IH]; simpl; constructor.
  - rewrite filter_In, negb_true_iff, String.eqb_neq. tauto.
  - apply NoDup_filter. exact IH.
Qed.

Lemma keys_of_groups (es : list ParsedEndpoint.t) :
  map fst (fold_left Spec.turn (Spec.turns es) [])
  = map Str (Spec.firstOccurrences (flat_map Spec.tagsOf es)).
Proof.
  rewrite (keys_turns (Spec.turns es) [] [] eq_refl).
  rewrite addKey_firstOccurrences. simpl. f_equal.
  assert (Hfst : map fst (Spec.turns es) = flat_map Spec.tagsOf es).
  { unfold Spec.turns. induction es as [| e es IH]; [reflexivity |].
    simpl. rewrite map_app, IH. f_equal.
    rewrite map_map. simpl. apply map_id. }
  rewrite Hfst.
  rewrite (filter_ext (Spec.notIn []) (fun _ => true)) by reflexivity.
  clear. induction (Spec.firstOccurrences _) as [| x l IH];
    [reflexivity | simpl; now rewrite IH].
Qed.

(** The buckets that hold an endpoint are as many as its tags. *)
Lemma buckets_of_endpoint (es : list ParsedEndpoint.t) (e : ParsedEndpoint.t) :
  In e es -> NoDup (Spec.tagsOf e) ->
  length (filter (fun k => Spec.hasTag k e)
            (Spec.firstOccurrences (flat_map Spec.tagsOf es)))
  = length (Spec.tagsOf e).
Proof.
  intros He Hnd. apply Permutation_length, NoDup_Permutation.
  - apply NoDup_filter, firstOccurrences_NoDup.
  - exact Hnd.
  - intro k. rewrite filter_In, firstOccurrences_In, in_flat_map.
    unfold Spec.hasTag. rewrite existsb_eqb_In. split.
    + tauto.
    + intro Hk. split; [exists e; split; assumption | exact Hk].
Qed.

Lemma parseEndpoint_tags (path method : string) (operation : value)
    (e : ParsedEndpoint.t) :
  Parser.parseEndpoint path method operation = Ok e ->
  ParsedEndpoint.tags e = or (field operation "tags") (Arr [Str "default"]).
Proof.
  intro H. unfold Parser.parseEndpoint in H.
  repeat (apply bind_Ok in H; destruct H as (? & ? & H)).
  injection H as <-. simpl.
  match goal with
  | Hid : get operation "tags" = Ok ?x |- _ =>
      apply get_Ok in Hid; destruct Hid as (_ & ->)
  end.
  reflexivity.
Qed.

(** C5, as the code has it.  When the tags of every endpoint are an array
    of strings, the context is built and its tag-to-endpoints mapping is as
    follows.  Its
    keys are the tags of the endpoints in the order of their first use.  The
    bucket of a tag holds the endpoints of the specification in their order,
    each as many times as it carries the tag: nothing is deduplicated or
    sorted.  An endpoint whose tags are distinct is therefore once in the
    bucket of each of its tags and in no other bucket, so an endpoint with N
    tags is in exactly N buckets, and when all endpoints have distinct tags
    the bucket of a tag is the list of the endpoints that carry it.  An
    endpoint parsed from an operation without a [tags] field has the single
    tag default. *)
Theorem buildContext_groups (config : GeneratorConfig.t) (spec : ParsedAPISpec.t) :
  forallb Spec.taggedByStrings (ParsedAPISpec.endpoints spec) = true ->
  let es := ParsedAPISpec.endpoints spec in
  exists context : GeneratorContext.t,
    Engine.buildContext config spec = Ok context
    /\ GeneratorContext.spec context = spec
    /\ map fst (GeneratorContext.endpointsByTag context)
       = map Str (Spec.firstOccurrences (flat_map Spec.tagsOf es))
    /\ (forall t : string,
          Engine.bucketOf t (GeneratorContext.endpointsByTag context)
          = flat_map
              (fun e => repeat e (count_occ string_dec (Spec.tagsOf e) t)) es)
    /\ (forall e : ParsedEndpoint.t,
          In e es -> NoDup (Spec.tagsOf e) ->
          (forall t : string,
              In e (Engine.bucketOf t (GeneratorContext.endpointsByTag context))
              <-> In t (Spec.tagsOf e))
          /\ length (filter (fun k => Spec.hasTag k e)
                       (Spec.firstOccurrences (flat_map Spec.tagsOf es)))
             = length (Spec.tagsOf e))
    /\ ((forall e : ParsedEndpoint.t, In e es -> NoDup (Spec.tagsOf e)) ->
        forall t : string,
          Engine.bucketOf t (GeneratorContext.endpointsByTag context)
          = filter (Spec.hasTag t) es)
    /\ (forall (path method : string) (operation : value) (e : ParsedEndpoint.t),
          field operation "tags" = Undefined ->
          Parser.parseEndpoint path method operation = Ok e ->
          ParsedEndpoint.tags e = Arr [Str "default"]
          /\ Spec.tagsOf e = ["default"]
          /\ (In e es ->
              forall t : string,
                In e (Engine.bucketOf t (GeneratorContext.endpointsByTag context))
                <-> t = "default")).
Proof.
  intros Htags es.
  assert (Hbucket : forall t : string,
             Engine.bucketOf t (fold_left Spec.turn (Spec.turns es) [])
             = flat_map
                 (fun e => repeat e (count_occ string_dec (Spec.tagsOf e) t)) es).
  { intro t. rewrite bucketOf_turns. simpl. apply turns_of_tag. }
  unfold Engine.buildContext. fold es.
  rewrite (groupEndpoints_turns es [] Htags). simpl JS.bind.
  eexists. split; [reflexivity |]. simpl.
  split; [reflexivity |].
  split; [apply keys_of_groups |].
  split; [exact Hbucket |].
  split; [| split].
  - intros e He Hnd. split.
    + intro t. rewrite Hbucket, in_bucket_iff. tauto.
    + apply buckets_of_endpoint; assumption.
  - intros Hnd t. rewrite Hbucket. apply repeat_by_tag. exact Hnd.
  - intros path method operation e Hno Hparse.
    pose proof (parseEndpoint_tags _ _ _ _ Hparse) as Ht.
    rewrite Hno in Ht. simpl in Ht.
    assert (Htags' : Spec.tagsOf e = ["default"]).
    { unfold Spec.tagsOf. rewrite Ht. reflexivity. }
    split; [exact Ht |]. split; [exact Htags' |].
    intros He t. rewrite Hbucket, in_bucket_iff, Htags'. simpl.
    split; [intros (_ & [<- | []]); reflexivity | intros ->; tauto].
Qed.

(** An endpoint tagged pets and store is in the bucket of pets and in the
    bucket of store; the buckets keep the order of the specification. *)
Lemma buildContext_groups_witness :
  exists context : GeneratorContext.t,
    Engine.buildContext Spec.sampleConfig
      (Spec.specOf [Spec.petsAndStore; Spec.storeOnly; Spec.untagged])
    = Ok context
    /\ map fst (GeneratorContext.endpointsByTag context)
       = [Str "pets"; Str "store"; Str "default"]
    /\ Engine.bucketOf "pets" (GeneratorContext.endpointsByTag context)
       = [Spec.petsAndStore]
    /\ Engine.bucketOf "store" (GeneratorContext.endpointsByTag context)
       = [Spec.petsAndStore; Spec.storeOnly]
    /\ Engine.bucketOf "default" (GeneratorContext.endpointsByTag context)
       = [Spec.untagged].
Proof.
  destruct (buildContext_groups Spec.sampleConfig
              (Spec.specOf [Spec.petsAndStore; Spec.storeOnly;
                               Spec.untagged]) eq_refl)
    as (context & Hbuild & _ & Hkeys & Hbucket & _).
  exists context. split; [exact Hbuild |].
  split; [exact Hkeys |].
  rewrite !Hbucket. repeat split.
Defined.

(** C5 as stated fails: an endpoint is not once in the bucket of each of
    its tags, and not in as many buckets as it has tags, when a tag is
    repeated.  An operation that states the tag pets twice is parsed with
    both, and the context holds one bucket, in which the endpoint is
    twice. *)
Lemma buildContext_repeated_tag_counterexample :
  (exists e : ParsedEndpoint.t,
      Parser.parseEndpoint "/pets" "GET"
        (Obj [("tags", Arr [Str "pets"; Str "pets"])]) = Ok e
      /\ Spec.tagsOf e = Spec.tagsOf Spec.petsTwice)
  /\ length (Spec.tagsOf Spec.petsTwice) = 2
  /\ exists context : GeneratorContext.t,
       Engine.buildContext Spec.sampleConfig (Spec.specOf [Spec.petsTwice])
       = Ok context
       /\ length (GeneratorContext.endpointsByTag context) = 1
       /\ Engine.bucketOf "pets" (GeneratorContext.endpointsByTag context)
          = [Spec.petsTwice; Spec.petsTwice].
Proof.
  split; [eexists; split; reflexivity |].
  split; [reflexivity |].
  eexists. split; [reflexivity |]. split; reflexivity.
Qed.

(** ** Endpoints without a tag *)

Lemma addToBucket_tagged (tag : value) (e : ParsedEndpoint.t)
    (m : TagMap) :
  iterate (ParsedEndpoint.tags e) <> Ok [] ->
  Spec.bucketsTagged m -> Spec.bucketsTagged (Engine.addToBucket tag e m).
Proof.
  intros He. induction m as [| [k b] m IH]; intro Hm.
  - intros entry e' [<- | []] [<- | []]. exact He.
  - simpl. destruct (Engine.sameValueZero k tag).
    + intros entry e' [<- | Hin] He'.
      * simpl in He'. apply in_app_or in He'. destruct He' as [Hb | [<- | []]].
        -- apply (Hm (k, b) e'); [left; reflexivity | exact Hb].
        -- exact He.
      * apply (Hm entry e'); [right; exact Hin | exact He'].
    + intros entry e' [<- | Hin] He'.
      * apply (Hm (k, b) e'); [left; reflexivity | exact He'].
      * apply IH with (entry := entry); try assumption.
        intros entry' e'' Hentry. apply Hm. right. exact Hentry.
Qed.

Lemma groupEndpoints_tagged (es : list ParsedEndpoint.t)
    (m m' : TagMap) :
  Engine.groupEndpoints m es = Ok m' -> Spec.bucketsTagged m -> Spec.bucketsTagged m'.
Proof.
  revert m. induction es as [| e es IH]; simpl; intros m H Hm.
  - injection H as <-. exact Hm.
  - apply bind_Ok in H. destruct H as (m1 & Hadd & H).
    apply (IH m1 H). clear IH H.
    unfold Engine.addEndpoint in Hadd.
    apply bind_Ok in Hadd. destruct Hadd as (tags & Htags & Hadd).
    injection Hadd as <-.
    assert (Hstep : forall (ts : list value) (m0 : TagMap),
               (ts <> [] -> iterate (ParsedEndpoint.tags e) <> Ok []) ->
               Spec.bucketsTagged m0 ->
               Spec.bucketsTagged
                 (fold_left (fun m tag => Engine.addToBucket tag e m) ts m0)).
    { induction ts as [| t ts IHts]; intros m0 Hne Hm0; simpl; [exact Hm0 |].
      apply IHts.
      - intros _. apply Hne. discriminate.
      - apply addToBucket_tagged; [apply Hne; discriminate | exact Hm0]. }
    apply Hstep; [| exact Hm].
    intros Hne Heq. rewrite Htags in Heq. injection Heq as ->.
    apply Hne. reflexivity.
Qed.

Lemma groupEndpoints_total (es : list ParsedEndpoint.t)
    (m : TagMap) :
  Forall (fun e => exists l, iterate (ParsedEndpoint.tags e) = Ok l) es ->
  exists m', Engine.groupEndpoints m es = Ok m'.
Proof.
  intro H. revert m. induction H as [| e es (l & Hl) _ IH]; intro m; simpl.
  - exists m. reflexivity.
  - unfold Engine.addEndpoint. rewrite Hl. simpl. apply IH.
Qed.

Lemma formatTag_endpoints (context : GeneratorContext.t)
    (entry : value * list ParsedEndpoint.t) (view : TagView.t) :
  TypeScript.formatTag context entry = Ok view ->
  Forall2 (fun e m => TypeScript.formatEndpoint context e = Ok m)
    (snd entry) (TagView.endpoints view).
Proof.
  destruct entry as [tag es]. unfold TypeScript.formatTag. intro H.
  repeat (apply bind_Ok in H; destruct H as (? & ? & H)).
  injection H as <-. simpl. apply forEach_Forall2. assumption.
Qed.

(** C10.  An operation whose [tags] is the empty array is parsed into an
    endpoint with no tag: the tag default replaces only a [tags] that is
    absent (or falsy), and the empty array is neither.  When the tags of
    every endpoint can be iterated, the context is built, and an endpoint
    with no tag is in none of its buckets.  The sub-clients of the generated
    client are the buckets and their methods are the endpoints of the
    buckets, one for one, so the client has no method for that endpoint. *)
Theorem empty_tags_no_method (config : GeneratorConfig.t) (spec : ParsedAPISpec.t) :
  Forall (fun e => exists l, iterate (ParsedEndpoint.tags e) = Ok l)
    (ParsedAPISpec.endpoints spec) ->
  (forall (path method : string) (operation : value) (e : ParsedEndpoint.t),
      Parser.parseEndpoint path method operation = Ok e ->
      ParsedEndpoint.tags e
      = (if truthy (field operation "tags") then field operation "tags"
         else Arr [Str "default"])
      /\ (field operation "tags" = Arr [] -> ParsedEndpoint.tags e = Arr []))
  /\ exists context : GeneratorContext.t,
       Engine.buildContext config spec = Ok context
       /\ (forall e : ParsedEndpoint.t,
              ParsedEndpoint.tags e = Arr [] ->
              forall entry, In entry (GeneratorContext.endpointsByTag context) ->
                            ~ In e (snd entry))
       /\ (forall view : ClientView.t,
              TypeScript.generateClientCode context = Ok view ->
              Forall2
                (fun entry tagView =>
                   Forall2 (fun e m => TypeScript.formatEndpoint context e = Ok m)
                     (snd entry) (TagView.endpoints tagView))
                (GeneratorContext.endpointsByTag context)
                (ClientView.endpointsByTag view)).
Proof.
  intro Hiter. split.
  - intros path method operation e Hparse.
    pose proof (parseEndpoint_tags _ _ _ _ Hparse) as Ht.
    split; [exact Ht |].
    intro Hempty. rewrite Ht, Hempty. reflexivity.
  - destruct (groupEndpoints_total _ [] Hiter) as (m & Hm).
    exists (GeneratorContext.make config spec m).
    unfold Engine.buildContext. rewrite Hm. simpl JS.bind.
    split; [reflexivity |]. split.
    + intros e He entry Hentry Hin. simpl in Hentry.
      assert (Hinv : Spec.bucketsTagged m).
      { apply (groupEndpoints_tagged _ [] m Hm). intros ? ? []. }
      apply (Hinv entry e Hentry Hin). rewrite He. reflexivity.
    + intros view H. unfold TypeScript.generateClientCode in H.
      apply bind_Ok in H. destruct H as (groups & Hgroups & H).
      apply bind_Ok in H. destruct H as (hasApiKey & _ & H).
      apply bind_Ok in H. destruct H as (hasBearer & _ & H).
      apply bind_Ok in H. destruct H as (schemas & _ & H).
      injection H as <-. simpl.
      apply forEach_Forall2 in Hgroups.
      revert Hgroups. apply Forall2_impl.
      intros entry tagView Hfmt. apply formatTag_endpoints. exact Hfmt.
Qed.

(** The document with the single operation GET /pets tagged [[]] is parsed,
    its context has no bucket, and its client no sub-client. *)
Lemma empty_tags_no_method_witness :
  exists (spec : ParsedAPISpec.t) (e : ParsedEndpoint.t)
         (context : GeneratorContext.t) (view : ClientView.t),
    Parser.parseDocument Spec.untaggedDocument = Ok spec
    /\ ParsedAPISpec.endpoints spec = [e]
    /\ ParsedEndpoint.tags e = Arr []
    /\ Engine.buildContext Spec.sampleConfig spec = Ok context
    /\ GeneratorContext.endpointsByTag context = []
    /\ TypeScript.generateClientCode context = Ok view
    /\ ClientView.endpointsByTag view = [].
Proof.
  destruct (Parser.parseDocument Spec.untaggedDocument) as [spec | |] eqn:Hparse;
    try discriminate Hparse.
  destruct (ParsedAPISpec.endpoints spec) as [| e [| ? ?]] eqn:Hes;
    try (vm_compute in Hparse; injection Hparse as <-; discriminate Hes).
  assert (Htags : ParsedEndpoint.tags e = Arr []).
  { vm_compute in Hparse. injection Hparse as <-. injection Hes as <-.
    reflexivity. }
  assert (Hiter : Forall (fun e => exists l, iterate (ParsedEndpoint.tags e) = Ok l)
                    (ParsedAPISpec.endpoints spec)).
  { rewrite Hes. constructor; [| constructor].
    exists []. rewrite Htags. reflexivity. }
  destruct (empty_tags_no_method Spec.sampleConfig spec Hiter)
    as (_ & context & Hbuild & Hnone & Hview).
  assert (Hbuckets : GeneratorContext.endpointsByTag context = []).
  { vm_compute in Hparse. injection Hparse as <-.
    vm_compute in Hbuild. injection Hbuild as <-. reflexivity. }
  destruct (TypeScript.generateClientCode context) as [view | |] eqn:Hgen;
    try (exfalso; vm_compute in Hparse; injection Hparse as <-;
         vm_compute in Hbuild; injection Hbuild as <-;
         vm_compute in Hgen; discriminate Hgen).
  exists spec, e, context, view.
  repeat (split; [first [reflexivity | assumption] |]).
  specialize (Hview view eq_refl). rewrite Hbuckets in Hview.
  inversion Hview. reflexivity.
Defined.

(** ** The types artifact *)

Lemma toString_describable (v : value) (name : string) :
  Spec.describable v = true ->
  toString (or v (Str name)) = Ok (Spec.descriptionOr v name).
Proof.
  unfold Spec.descriptionOr, or.
  destruct v; simpl; intro H; try discriminate H; try reflexivity.
  destruct (nonEmpty s); reflexivity.
Qed.

Lemma mapType_typed (p : ParsedProperty.t) :
  Spec.isString (ParsedProperty.type p) = true ->
  exists m, TypeScript.mapType (ParsedProperty.type p) (ParsedProperty.nullable p)
            = Ok m
            /\ Spec.typeText p = mappedText m.
Proof.
  unfold Spec.typeText, TypeScript.mapType.
  destruct (ParsedProperty.type p); simpl; intro H; try discriminate H.
  destruct (truthy (ParsedProperty.nullable p)); eexists; split; reflexivity.
Qed.

Lemma generateProperty_typed (s : ParsedSchema.t) (p : ParsedProperty.t) :
  Spec.isArray (ParsedSchema.required s) = true ->
  Spec.typedProperty p = true ->
  TypeScript.generateProperty s p = Ok (Spec.declaration s p).
Proof.
  intros Hreq Hp. unfold Spec.typedProperty in Hp.
  apply andb_prop in Hp. destruct Hp as (Hty & Hdesc).
  destruct (mapType_typed p Hty) as (m & Hm & Htext).
  unfold TypeScript.generateProperty. rewrite Hm. cbn [JS.bind].
  unfold Spec.declaration, Spec.declarationWith, Spec.isRequired,
    Spec.requiredNames.
  destruct (ParsedSchema.required s); try discriminate Hreq.
  cbn [includes JS.bind].
  rewrite (toString_describable _ _ Hdesc). cbn [JS.bind].
  rewrite Htext. reflexivity.
Qed.

Lemma generateSchema_typed (s : ParsedSchema.t) :
  Spec.typedSchema s = true ->
  TypeScript.generateSchema s = Ok (Spec.interfaceOf s).
Proof.
  unfold Spec.typedSchema. intro H.
  apply andb_prop in H. destruct H as (H & Hprops).
  apply andb_prop in H. destruct H as (Hreq & Hdesc).
  unfold TypeScript.generateSchema.
  rewrite (forEach_map _ (Spec.declaration s)).
  - cbn [JS.bind]. rewrite (toString_describable _ _ Hdesc). reflexivity.
  - intros p Hp. apply generateProperty_typed; [exact Hreq |].
    rewrite forallb_forall in Hprops. apply Hprops. exact Hp.
Qed.






(** ** What [parse] returns *)

Lemma getOpt_field (v : value) (k : string) : getOpt v k = Ok (field v k).
Proof.
  unfold getOpt, get. destruct v; reflexivity.
Qed.

Lemma parseEndpoint_path_method (path method : string) (operation : value)
    (e : ParsedEndpoint.t) :
  Parser.parseEndpoint path method operation = Ok e ->
  ParsedEndpoint.path e = path /\ ParsedEndpoint.method e = method.
Proof.
  intro H. unfold Parser.parseEndpoint in H.
  repeat (apply bind_Ok in H; destruct H as (? & ? & H)).
  injection H as <-. split; reflexivity.
Qed.

Lemma parseEndpoint_parts (path method : string) (operation : value)
    (e : ParsedEndpoint.t) :
  Parser.parseEndpoint path method operation = Ok e ->
  Parser.parseParameters (field operation "parameters")
  = Ok (ParsedEndpoint.parameters e)
  /\ Parser.parseRequestBody (field operation "requestBody")
     = Ok (ParsedEndpoint.requestBody e)
  /\ Parser.parseResponses (field operation "responses")
     = Ok (ParsedEndpoint.responses e)
  /\ Parser.parseSecurity (field operation "security")
     = Ok (ParsedEndpoint.security e).
Proof.
  intro H. unfold Parser.parseEndpoint in H.
  repeat (apply bind_Ok in H; destruct H as (? & ? & H)).
  injection H as <-. cbn.
  repeat match goal with
         | Hget : get operation _ = Ok _ |- _ =>
             apply get_Ok in Hget; destruct Hget as (_ & ->)
         end.
  repeat split; assumption.
Qed.

Lemma parseOperations_verbs (pathKey : string) (pathItem : value)
    (ms : list string) (es : list ParsedEndpoint.t) :
  Parser.parseOperations pathKey pathItem ms = Ok es ->
  map Spec.pathAndMethod es
  = map (fun method => (pathKey, toUpperCase method))
      (filter (fun method => truthy (field pathItem method)) ms).
Proof.
  revert es. induction ms as [| m ms IH]; simpl; intros es H.
  - injection H as <-. reflexivity.
  - apply bind_Ok in H. destruct H as (operation & Hget & H).
    apply get_Ok in Hget. destruct Hget as (_ & ->).
    destruct (truthy (field pathItem m)); simpl in H |- *.
    + apply bind_Ok in H. destruct H as (e & He & H).
      apply bind_Ok in H. destruct H as (rest & Hrest & H).
      injection H as <-. simpl.
      apply parseEndpoint_path_method in He. destruct He as (Hp & Hm).
      unfold Spec.pathAndMethod at 1. rewrite Hp, Hm. f_equal.
      apply IH. exact Hrest.
    + apply IH. exact H.
Qed.

Lemma parseEndpoints_operations (document : value) (es : list ParsedEndpoint.t) :
  Parser.parseEndpoints document = Ok es ->
  map Spec.pathAndMethod es = Spec.presentOperations document.
Proof.
  unfold Parser.parseEndpoints, Spec.presentOperations. intro H.
  apply bind_Ok in H. destruct H as (paths & Hget & H).
  apply get_Ok in Hget. destruct Hget as (_ & ->).
  destruct (truthy (field document "paths")); simpl in H.
  2: { injection H as <-. reflexivity. }
  apply bind_Ok in H. destruct H as (perPath & Hper & H).
  injection H as <-.
  apply forEach_Forall2 in Hper.
  induction Hper as [| entry group entries groups Hgroup _ IH]; [reflexivity |].
  simpl. rewrite map_app, IH. f_equal.
  apply parseOperations_verbs. exact Hgroup.
Qed.

Lemma parseSchema_name (name : string) (schema : value) (s : ParsedSchema.t) :
  Parser.parseSchema name schema = Ok s -> ParsedSchema.name s = name.
Proof.
  unfold Parser.parseSchema. intro H.
  repeat (apply bind_Ok in H; destruct H as (? & ? & H)).
  injection H as <-. reflexivity.
Qed.

Lemma parseSchemas_declared (document : value) (ss : list ParsedSchema.t) :
  Parser.parseSchemas document = Ok ss ->
  map ParsedSchema.name ss = Spec.declaredSchemas document.
Proof.
  unfold Parser.parseSchemas, Spec.declaredSchemas. intro H.
  apply bind_Ok in H. destruct H as (components & Hget & H).
  apply get_Ok in Hget. destruct Hget as (_ & ->).
  rewrite getOpt_field in H. cbn [JS.bind] in H.
  destruct (truthy (field (field document "components") "schemas")); simpl in H.
  2: { injection H as <-. reflexivity. }
  apply forEach_Forall2 in H.
  induction H as [| entry s entries ss' Hs _ IH]; [reflexivity |].
  simpl. rewrite IH. f_equal. apply parseSchema_name in Hs. exact Hs.
Qed.

Lemma parse_fields (document : value) (spec : ParsedAPISpec.t) :
  Parser.parse document = Ok spec ->
  Parser.getBaseUrl document = Ok (ParsedAPISpec.baseUrl spec)
  /\ Parser.parseEndpoints document = Ok (ParsedAPISpec.endpoints spec)
  /\ Parser.parseSchemas document = Ok (ParsedAPISpec.schemas spec)
  /\ Parser.parseSecuritySchemes document = Ok (ParsedAPISpec.securitySchemes spec)
  /\ ParsedAPISpec.title spec = or (field (field document "info") "title") (Str "API")
  /\ ParsedAPISpec.version spec
     = or (field (field document "info") "version") (Str "1.0.0")
  /\ ParsedAPISpec.description spec = field (field document "info") "description".
Proof.
  unfold Parser.parse. intro H.
  apply bind_Ok in H. destruct H as (baseUrl & Hbase & H).
  apply bind_Ok in H. destruct H as (endpoints & Hes & H).
  apply bind_Ok in H. destruct H as (schemas & Hss & H).
  apply bind_Ok in H. destruct H as (schemes & Hsec & H).
  apply bind_Ok in H. destruct H as (info & Hinfo & H).
  apply get_Ok in Hinfo. destruct Hinfo as (_ & ->).
  rewrite !getOpt_field in H. cbn [JS.bind] in H.
  injection H as <-. simpl. repeat split; assumption.
Qed.

Lemma constructor_marker (parsed : value) :
  isNullish parsed = false ->
  Parser.constructor parsed
  = if Spec.hasMarker parsed then Ok parsed
    else Throw Parser.invalidSpecification.
Proof.
  intro Hn. unfold Parser.constructor, Spec.hasMarker, get. rewrite Hn.
  cbn [JS.bind].
  destruct (truthy (field parsed "openapi")), (truthy (field parsed "swagger"));
    reflexivity.
Qed.

Lemma constructor_Ok (parsed spec : value) :
  Parser.constructor parsed = Ok spec ->
  spec = parsed /\ Spec.hasMarker parsed = true.
Proof.
  intro H.
  assert (Hn : isNullish parsed = false).
  { unfold Parser.constructor in H. apply bind_Ok in H.
    destruct H as (openapi & Ho & _). apply get_Ok in Ho. tauto. }
  rewrite (constructor_marker _ Hn) in H.
  destruct (Spec.hasMarker parsed); [| discriminate H].
  injection H as <-. split; reflexivity.
Qed.

Lemma hasMarker_present (parsed : value) :
  Spec.hasMarker parsed = true -> isNullish parsed = false.
Proof.
  destruct parsed; try reflexivity; intro H; discriminate H.
Qed.

(** ** Induction on values *)

Lemma value_induction (P : value -> Prop) :
  P Undefined -> P Null -> (forall b, P (Boolean b)) -> (forall n, P (Number n)) ->
  (forall s, P (Str s)) ->
  (forall l, Forall P l -> P (Arr l)) ->
  (forall fs, Forall (fun entry => P (snd entry)) fs -> P (Obj fs)) ->
  forall v, P v.
Proof.
  intros HU HN HB HZ HS HA HO.
  refine (fix IH (v : value) : P v :=
            match v with
            | Undefined => HU
            | Null => HN
            | Boolean b => HB b
            | Number n => HZ n
            | Str s => HS s
            | Arr l =>
                HA l ((fix all (l : list value) : Forall P l :=
                         match l with
                         | [] => Forall_nil P
                         | x :: l' => Forall_cons x (IH x) (all l')
                         end) l)
            | Obj fs =>
                HO fs ((fix all (fs : list (string * value))
                        : Forall (fun entry => P (snd entry)) fs :=
                          match fs with
                          | [] => Forall_nil _
                          | entry :: fs' =>
                              Forall_cons entry (IH (snd entry)) (all fs')
                          end) fs)
            end).
Qed.

(** A property of [undefined] and of the values of the fields of an object
    holds of what a read of the object returns. *)
Lemma field_Forall (P : value -> Prop) (fs : list (string * value)) (k : string) :
  P Undefined -> Forall (fun entry => P (snd entry)) fs -> P (field (Obj fs) k).
Proof.
  intros HU H. unfold field. simpl ownEntries.
  induction H as [| [k' v] fs Hv _ IH]; [exact HU |].
  rewrite lookup_cons. destruct (String.eqb k k'); [exact Hv | exact IH].
Qed.

(** Induction on the values a read may return: a property of [undefined]
    that holds of a value as soon as it holds of its named fields holds of
    every value. *)
Lemma value_field_induction (P : value -> Prop) :
  P Undefined ->
  (forall v, (forall k, Spec.named k = true -> P (field v k)) -> P v) ->
  forall v, P v.
Proof.
  intros HU Hstep v.
  induction v as [| | b | n | s | l _ | fs IH] using value_induction;
    apply Hstep; intros k Hk;
    try (rewrite field_not_object by
           (first [exact Hk | intros ? H; discriminate H]);
         exact HU).
  apply field_Forall; assumption.
Qed.

(** ** The exceptions of the parser *)

Lemma noError_Ok {A : Type} (a : A) : Spec.noError (Ok a).
Proof. intros message H. discriminate H. Qed.

Lemma noError_TypeError {A : Type} : Spec.noError (@Throw A TypeError).
Proof. intros message H. discriminate H. Qed.

Lemma noError_Beyond {A : Type} : Spec.noError (@Beyond A).
Proof. intros message H. discriminate H. Qed.

Lemma noError_bind {A B : Type} (r : result A) (k : A -> result B) :
  Spec.noError r -> (forall a, Spec.noError (k a)) ->
  Spec.noError (JS.bind r k).
Proof.
  intros Hr Hk message. destruct r as [a | e |]; simpl.
  - apply Hk.
  - intro H. injection H as ->. apply (Hr message). reflexivity.
  - discriminate.
Qed.

Lemma noError_forEach {A B : Type} (f : A -> result B) (l : list A) :
  (forall a, Spec.noError (f a)) -> Spec.noError (forEach f l).
Proof.
  intro Hf. induction l as [| a l IH]; simpl.
  - apply noError_Ok.
  - apply noError_bind; [apply Hf |]. intro b.
    apply noError_bind; [exact IH |]. intro bs. apply noError_Ok.
Qed.

Lemma noError_get (v : value) (k : string) : Spec.noError (get v k).
Proof.
  unfold get. destruct (isNullish v); [apply noError_TypeError | apply noError_Ok].
Qed.

Lemma noError_getOpt (v : value) (k : string) : Spec.noError (getOpt v k).
Proof. rewrite getOpt_field. apply noError_Ok. Qed.

Lemma noError_asString (v : value) : Spec.noError (asString v).
Proof. destruct v; first [apply noError_Ok | apply noError_TypeError]. Qed.

Lemma noError_asArray (v : value) : Spec.noError (asArray v).
Proof. destruct v; first [apply noError_Ok | apply noError_TypeError]. Qed.

Lemma noError_keys (v : value) : Spec.noError (keys v).
Proof.
  unfold keys. destruct (isNullish v); [apply noError_TypeError | apply noError_Ok].
Qed.

Lemma noError_lengthOf (v : value) : Spec.noError (lengthOf v).
Proof. destruct v; first [apply noError_Ok | apply noError_get]. Qed.

Lemma noError_gt0 (v : value) : Spec.noError (gt0 v).
Proof.
  destruct v; simpl; try apply noError_Ok; try apply noError_Beyond.
  destruct (hasOwn "toString" fields); [apply noError_TypeError | apply noError_Ok].
Qed.

Lemma noError_toString (v : value) : Spec.noError (toString v).
Proof.
  induction v as [| | b | n | s | l IH | fs _] using value_induction;
    cbn [toString]; try apply noError_Ok.
  - destruct b; apply noError_Ok.
  - unfold numberToString.
    destruct (Z.abs n <? 2 ^ 53)%Z; [apply noError_Ok | apply noError_Beyond].
  - apply noError_bind; [| intro; apply noError_Ok].
    induction IH as [| x l Hx _ IHl]; [apply noError_Ok |].
    apply noError_bind.
    + destruct (isNullish x); [apply noError_Ok | exact Hx].
    + intro s. apply noError_bind; [exact IHl | intro; apply noError_Ok].
  - destruct (hasOwn "toString" fs); [apply noError_TypeError | apply noError_Ok].
Qed.

(** The steps of a proof that a result of the parser is not an [Error]. *)
Ltac noError_step :=
  match goal with
  | |- Spec.noError (Ok _) => apply noError_Ok
  | |- Spec.noError (Throw TypeError) => apply noError_TypeError
  | |- Spec.noError (get _ _) => apply noError_get
  | |- Spec.noError (getOpt _ _) => apply noError_getOpt
  | |- Spec.noError (first _) => apply noError_get
  | |- Spec.noError (firstOpt _) => apply noError_getOpt
  | |- Spec.noError (asString _) => apply noError_asString
  | |- Spec.noError (asArray _) => apply noError_asArray
  | |- Spec.noError (keys _) => apply noError_keys
  | |- Spec.noError (lengthOf _) => apply noError_lengthOf
  | |- Spec.noError (gt0 _) => apply noError_gt0
  | |- Spec.noError (toString _) => apply noError_toString
  | |- Spec.noError (JS.bind _ _) => apply noError_bind; [| intro]
  | |- Spec.noError (forEach _ _) => apply noError_forEach; intro
  | |- Spec.noError (if ?c then _ else _) => destruct c
  | |- Spec.noError (let (_, _) := ?p in _) => destruct p
  end.

Lemma noError_getSchemaType (schema : value) :
  Spec.noError (Parser.getSchemaType schema).
Proof.
  induction schema as [| v IH] using value_field_induction;
    rewrite getSchemaType_eq; [apply noError_Ok |].
  destruct (truthy v) eqn:Ht; [| apply noError_Ok].
  rewrite !(get_truthy _ _ Ht). cbn [negb JS.bind].
  destruct (truthy (field v "$ref")); [repeat noError_step |].
  destruct (isStr "array" (field v "type") && truthy (field v "items"));
    [| apply noError_Ok].
  apply noError_bind; [apply IH; reflexivity | intro; repeat noError_step].
Qed.

Lemma noError_parseParameters (parameters : value) :
  Spec.noError (Parser.parseParameters parameters).
Proof.
  unfold Parser.parseParameters, Parser.parseParameter.
  repeat first [apply noError_getSchemaType | noError_step].
Qed.

Lemma noError_parseRequestBody (requestBody : value) :
  Spec.noError (Parser.parseRequestBody requestBody).
Proof.
  unfold Parser.parseRequestBody, Parser.firstContent. repeat noError_step.
Qed.

Lemma noError_parseResponses (responses : value) :
  Spec.noError (Parser.parseResponses responses).
Proof.
  unfold Parser.parseResponses, Parser.parseResponse, Parser.firstContent.
  repeat noError_step.
Qed.

Lemma noError_parseSecurity (security : value) :
  Spec.noError (Parser.parseSecurity security).
Proof. unfold Parser.parseSecurity. repeat noError_step. Qed.

Lemma noError_parseEndpoint (path method : string) (operation : value) :
  Spec.noError (Parser.parseEndpoint path method operation).
Proof.
  unfold Parser.parseEndpoint.
  repeat first [apply noError_parseParameters | apply noError_parseRequestBody
               | apply noError_parseResponses | apply noError_parseSecurity
               | noError_step].
Qed.

Lemma noError_parseOperations (pathKey : string) (pathItem : value) (ms : list string) :
  Spec.noError (Parser.parseOperations pathKey pathItem ms).
Proof.
  induction ms as [| m ms IH]; cbn [Parser.parseOperations]; [apply noError_Ok |].
  repeat first [apply noError_parseEndpoint | exact IH | noError_step].
Qed.

Lemma noError_parseEndpoints (document : value) :
  Spec.noError (Parser.parseEndpoints document).
Proof.
  unfold Parser.parseEndpoints, Parser.parsePathItem.
  repeat first [apply noError_parseOperations | noError_step].
Qed.

Lemma noError_parseSchemas (document : value) :
  Spec.noError (Parser.parseSchemas document).
Proof.
  unfold Parser.parseSchemas, Parser.parseSchema, Parser.parseProperty.
  repeat first [apply noError_getSchemaType | noError_step].
Qed.

Lemma noError_getBaseUrl (document : value) :
  Spec.noError (Parser.getBaseUrl document).
Proof. unfold Parser.getBaseUrl. repeat noError_step. Qed.

Lemma noError_parse (document : value) : Spec.noError (Parser.parse document).
Proof.
  unfold Parser.parse, Parser.parseSecuritySchemes.
  repeat first [apply noError_getBaseUrl | apply noError_parseEndpoints
               | apply noError_parseSchemas | noError_step].
Qed.

(** ** [parse] returns on the documents of the expected shape *)

Lemma forEach_total {A B : Type} (f : A -> result B) (l : list A) :
  (forall a, In a l -> exists b, f a = Ok b) -> exists bs, forEach f l = Ok bs.
Proof.
  induction l as [| a l IH]; intro H; simpl.
  - exists []. reflexivity.
  - destruct (H a (or_introl eq_refl)) as (b & Hb).
    destruct IH as (bs & Hbs); [intros x Hx; apply H; right; exact Hx |].
    exists (b :: bs). rewrite Hb, Hbs. reflexivity.
Qed.

Lemma present_get (v : value) (k : string) :
  Spec.present v = true -> get v k = Ok (field v k).
Proof.
  unfold Spec.present, get. intro H. apply negb_true_iff in H.
  rewrite H. reflexivity.
Qed.

Lemma truthy_present (v : value) : truthy v = true -> Spec.present v = true.
Proof.
  intro H. unfold Spec.present. rewrite (truthy_not_nullish v H). reflexivity.
Qed.

Lemma or_object_present (v : value) : Spec.present (or v (Obj [])) = true.
Proof. unfold or. destruct v as [| | [|] | n | s | l | fs]; try reflexivity.
  - simpl. destruct (negb (n =? 0)%Z); reflexivity.
  - simpl. destruct (nonEmpty s); reflexivity.
Qed.

(** What a schema of the expected shape holds under the three names
    [getSchemaType] reads. *)
Lemma shapedSchema_fields (v : value) :
  Spec.shapedSchema v = true ->
  (field v "$ref" = Undefined \/ exists t, field v "$ref" = Str t)
  /\ (field v "type" = Undefined \/ exists t, field v "type" = Str t)
  /\ Spec.shapedSchema (field v "items") = true.
Proof.
  destruct v as [| | b | n | s | l | fs];
    try (intros _;
         rewrite !field_not_object
           by (first [reflexivity | intros ? H; discriminate H]);
         repeat split; left; reflexivity).
  unfold field. simpl ownEntries.
  induction fs as [| [k v] fs IH]; intro H.
  - repeat split; left; reflexivity.
  - cbn [Spec.shapedSchema] in H. apply andb_prop in H.
    destruct H as (Hv & Hfs). specialize (IH Hfs).
    destruct IH as (IHref & IHtype & IHitems).
    rewrite !lookup_cons.
    rewrite (String.eqb_sym "$ref" k), (String.eqb_sym "type" k),
      (String.eqb_sym "items" k).
    destruct (String.eqb k "$ref") eqn:Eref.
    { apply String.eqb_eq in Eref. subst k. cbn [String.eqb Ascii.eqb Bool.eqb].
      split; [| split; assumption].
      right. destruct v; try discriminate Hv. eexists. reflexivity. }
    destruct (String.eqb k "type") eqn:Etype.
    { apply String.eqb_eq in Etype. subst k. cbn [String.eqb Ascii.eqb Bool.eqb].
      split; [assumption | split; [| assumption]].
      right. destruct v; try discriminate Hv. eexists. reflexivity. }
    destruct (String.eqb k "items") eqn:Eitems.
    { split; [assumption | split; [assumption | exact Hv]]. }
    repeat split; assumption.
Qed.

Lemma or_text (v fallback : value) :
  (v = Undefined \/ exists t, v = Str t) ->
  (exists t, fallback = Str t) ->
  exists t, or v fallback = Str t.
Proof.
  intros [-> | (t & ->)] (t' & ->); unfold or; simpl.
  - exists t'. reflexivity.
  - destruct (nonEmpty t); eexists; reflexivity.
Qed.

Lemma getSchemaType_shaped (schema : value) :
  Spec.shapedSchema schema = true ->
  exists label, Parser.getSchemaType schema = Ok (Str label).
Proof.
  induction schema as [| v IH] using value_field_induction; intro Hshape.
  - exists "any". reflexivity.
  - rewrite getSchemaType_eq.
    destruct (truthy v) eqn:Ht; [| exists "any"; reflexivity].
    rewrite !(get_truthy _ _ Ht). cbn [negb JS.bind].
    destruct (shapedSchema_fields v Hshape) as (Href & Htype & Hitems).
    destruct (truthy (field v "$ref")) eqn:Etr.
    + destruct Href as [Href | (t & Href)]; rewrite Href in Etr |- *;
        [discriminate Etr |].
      eexists. reflexivity.
    + destruct (isStr "array" (field v "type") && truthy (field v "items")).
      * destruct (IH "items" eq_refl Hitems) as (label & Hlabel).
        rewrite Hlabel. eexists. reflexivity.
      * destruct (or_text (field v "type") (Str "any") Htype) as (t & Ht');
          [eexists; reflexivity |].
        rewrite Ht'. eexists. reflexivity.
Qed.

Lemma parseParameters_shaped (parameters : value) :
  negb (truthy parameters)
  || match parameters with
     | Arr params => forallb Spec.shapedParameter params
     | _ => false
     end = true ->
  exists ps, Parser.parseParameters parameters = Ok ps.
Proof.
  unfold Parser.parseParameters. intro H.
  destruct (truthy parameters) eqn:Ht; [| eexists; reflexivity].
  simpl in H. destruct parameters as [| | | | | params |]; try discriminate H.
  cbn [negb asArray JS.bind]. apply forEach_total.
  rewrite forallb_forall in H. intros param Hin.
  specialize (H param Hin). unfold Spec.shapedParameter in H.
  apply andb_prop in H. destruct H as (Hp & Hs).
  unfold Parser.parseParameter. rewrite !(present_get _ _ Hp). cbn [JS.bind].
  destruct (getSchemaType_shaped _ Hs) as (label & ->).
  eexists. reflexivity.
Qed.

Lemma parseRequestBody_total (requestBody : value) :
  exists body, Parser.parseRequestBody requestBody = Ok body.
Proof.
  unfold Parser.parseRequestBody, Parser.firstContent.
  destruct (truthy requestBody) eqn:Ht; [| eexists; reflexivity].
  rewrite !(get_truthy _ _ Ht). cbn [negb JS.bind].
  pose proof (or_object_present (field requestBody "content")) as Hc.
  unfold keys. unfold Spec.present in Hc. apply negb_true_iff in Hc.
  rewrite Hc. cbn [JS.bind].
  rewrite present_get by (unfold Spec.present; rewrite Hc; reflexivity).
  cbn [JS.bind]. rewrite !getOpt_field. eexists. reflexivity.
Qed.

Lemma parseResponses_shaped (responses : value) :
  negb (truthy responses)
  || forallb (fun entry => Spec.present (snd entry)) (ownEntries responses) = true ->
  exists rs, Parser.parseResponses responses = Ok rs.
Proof.
  unfold Parser.parseResponses. intro H.
  destruct (truthy responses) eqn:Ht; [| eexists; reflexivity].
  simpl in H. cbn [negb]. apply forEach_total.
  rewrite forallb_forall in H. intros [statusCode response] Hin.
  specialize (H _ Hin). simpl in H.
  unfold Parser.parseResponse, Parser.firstContent.
  rewrite !(present_get _ _ H). cbn [JS.bind].
  pose proof (or_object_present (field response "content")) as Hc.
  unfold keys. unfold Spec.present in Hc. apply negb_true_iff in Hc.
  rewrite Hc. cbn [JS.bind].
  rewrite present_get by (unfold Spec.present; rewrite Hc; reflexivity).
  cbn [JS.bind]. rewrite !getOpt_field. eexists. reflexivity.
Qed.

Lemma parseSecurity_shaped (security : value) :
  isNullish security || Spec.isArray security = true ->
  exists names, Parser.parseSecurity security = Ok names.
Proof.
  unfold Parser.parseSecurity. intro H.
  destruct (isNullish security) eqn:Hn; [eexists; reflexivity |].
  simpl in H. destruct security; try discriminate H. eexists. reflexivity.
Qed.

Lemma parseEndpoint_shaped (path method : string) (operation : value) :
  truthy operation = true ->
  Spec.shapedOperation operation = true ->
  exists e, Parser.parseEndpoint path method operation = Ok e.
Proof.
  intros Ht H. unfold Spec.shapedOperation in H.
  apply andb_prop in H. destruct H as (H & Hsec).
  apply andb_prop in H. destruct H as (Hparams & Hresp).
  unfold Parser.parseEndpoint. rewrite !(get_truthy _ _ Ht). cbn [JS.bind].
  destruct (parseParameters_shaped _ Hparams) as (ps & ->). cbn [JS.bind].
  destruct (parseRequestBody_total (field operation "requestBody")) as (body & ->).
  cbn [JS.bind].
  destruct (parseResponses_shaped _ Hresp) as (rs & ->). cbn [JS.bind].
  destruct (parseSecurity_shaped _ Hsec) as (names & ->).
  eexists. reflexivity.
Qed.

Lemma parseOperations_shaped (pathKey : string) (pathItem : value) (ms : list string) :
  Spec.present pathItem = true ->
  forallb (fun method =>
             negb (truthy (field pathItem method))
             || Spec.shapedOperation (field pathItem method)) ms = true ->
  exists es, Parser.parseOperations pathKey pathItem ms = Ok es.
Proof.
  intros Hp. induction ms as [| m ms IH]; intro H; cbn [Parser.parseOperations].
  - eexists. reflexivity.
  - simpl in H. apply andb_prop in H. destruct H as (Hm & Hms).
    destruct (IH Hms) as (es & Hes).
    rewrite (present_get _ _ Hp). cbn [JS.bind].
    destruct (truthy (field pathItem m)) eqn:Ht; cbn [negb].
    + simpl in Hm.
      destruct (parseEndpoint_shaped pathKey (toUpperCase m) _ Ht Hm) as (e & ->).
      rewrite Hes. eexists. reflexivity.
    + exists es. exact Hes.
Qed.

Lemma parseEndpoints_shaped (document : value) :
  isNullish document = false ->
  negb (truthy (field document "paths"))
  || forallb (fun entry => Spec.shapedPathItem (snd entry))
       (ownEntries (field document "paths")) = true ->
  exists es, Parser.parseEndpoints document = Ok es.
Proof.
  intros Hn H. unfold Parser.parseEndpoints, get. rewrite Hn. cbn [JS.bind].
  destruct (truthy (field document "paths")); [| eexists; reflexivity].
  simpl in H. cbn [negb].
  destruct (forEach_total Parser.parsePathItem (ownEntries (field document "paths")))
    as (groups & ->); [| eexists; reflexivity].
  rewrite forallb_forall in H. intros entry Hin. specialize (H _ Hin).
  unfold Spec.shapedPathItem in H. apply andb_prop in H.
  destruct H as (Hp & Hops).
  apply parseOperations_shaped; assumption.
Qed.

Lemma parseSchema_shaped (name : string) (schema : value) :
  Spec.shapedDeclaration schema = true ->
  exists s, Parser.parseSchema name schema = Ok s.
Proof.
  unfold Spec.shapedDeclaration. intro H.
  apply andb_prop in H. destruct H as (Hp & Hprops).
  unfold Parser.parseSchema. rewrite !(present_get _ _ Hp). cbn [JS.bind].
  assert (Hall : exists props,
             (if truthy (field schema "properties")
              then forEach (fun entry => Parser.parseProperty (fst entry) (snd entry))
                     (ownEntries (field schema "properties"))
              else Ok []) = Ok props).
  { destruct (truthy (field schema "properties")); [| eexists; reflexivity].
    simpl in Hprops. apply forEach_total.
    rewrite forallb_forall in Hprops. intros [propName prop] Hin.
    specialize (Hprops _ Hin). simpl in Hprops.
    unfold Spec.shapedProperty in Hprops. apply andb_prop in Hprops.
    destruct Hprops as (Hprop & Hshape).
    unfold Parser.parseProperty. cbn [fst snd].
    destruct (getSchemaType_shaped _ Hshape) as (label & ->).
    rewrite !(present_get _ _ Hprop). eexists. reflexivity. }
  destruct Hall as (props & ->). eexists. reflexivity.
Qed.

Lemma parseSchemas_shaped (document : value) :
  isNullish document = false ->
  negb (truthy (field (field document "components") "schemas"))
  || forallb (fun entry => Spec.shapedDeclaration (snd entry))
       (ownEntries (field (field document "components") "schemas")) = true ->
  exists ss, Parser.parseSchemas document = Ok ss.
Proof.
  intros Hn H. unfold Parser.parseSchemas, get. rewrite Hn. cbn [JS.bind].
  rewrite getOpt_field. cbn [JS.bind].
  destruct (truthy (field (field document "components") "schemas"));
    [| eexists; reflexivity].
  simpl in H. cbn [negb]. apply forEach_total.
  rewrite forallb_forall in H. intros entry Hin.
  apply parseSchema_shaped, H, Hin.
Qed.

Lemma describable_text (v : value) (fallback : string) :
  Spec.describable v = true -> exists t, or v (Str fallback) = Str t.
Proof.
  destruct v; intro H; try discriminate H; unfold or; simpl;
    try (eexists; reflexivity).
  destruct (nonEmpty s); eexists; reflexivity.
Qed.

Lemma getBaseUrl_shaped (document : value) :
  isNullish document = false ->
  Spec.shapedLocation document = true ->
  exists url, Parser.getBaseUrl document = Ok url.
Proof.
  intros Hn H. unfold Spec.shapedLocation in H.
  apply andb_prop in H. destruct H as (H & Hschemes).
  apply andb_prop in H. destruct H as (H & Hbase).
  apply andb_prop in H. destruct H as (Hservers & Hhost).
  assert (Hrest :
            exists url,
              (host <- get document "host" ;;
               if truthy host then
                 schemes <- get document "schemes" ;;
                 scheme0 <- firstOpt schemes ;;
                 basePath0 <- get document "basePath" ;;
                 scheme <- toString (or scheme0 (Str "https")) ;;
                 hostText <- toString host ;;
                 basePath <- toString (or basePath0 (Str "")) ;;
                 Ok (Str (scheme ++ "://" ++ hostText ++ basePath))
               else Ok (Str "https://api.example.com")) = Ok url).
  { unfold get. rewrite Hn. cbn [JS.bind].
    destruct (truthy (field document "host")) eqn:Ht; [| eexists; reflexivity].
    unfold firstOpt. rewrite getOpt_field. cbn [JS.bind].
    assert (Hscheme : exists t,
               or (field (field document "schemes") "0") (Str "https") = Str t).
    { destruct (field document "schemes") as [| | | | | schemes |];
        try discriminate Hschemes; try (eexists; reflexivity).
      destruct schemes as [| scheme schemes]; [eexists; reflexivity |].
      simpl in Hschemes. apply andb_prop in Hschemes.
      destruct Hschemes as (Hscheme & _).
      destruct scheme; try discriminate Hscheme.
      change (field (Arr (Str s :: schemes)) "0") with (Str s).
      unfold or. simpl. destruct (nonEmpty s); eexists; reflexivity. }
    destruct Hscheme as (scheme & ->).
    destruct (describable_text _ "" Hbase) as (basePath & ->).
    destruct (field document "host"); try discriminate Hhost; try discriminate Ht.
    eexists. reflexivity. }
  unfold Parser.getBaseUrl, get at 1. rewrite Hn. cbn [JS.bind].
  destruct (field document "servers") as [| | b | n | s | servers | fs] eqn:Es;
    simpl in Hservers;
    try (apply negb_true_iff in Hservers; simpl truthy;
         rewrite ?Hservers; cbn [JS.bind]; exact Hrest);
    try (cbn [JS.bind]; exact Hrest);
    try discriminate Hservers.
  simpl truthy. cbn [lengthOf gt0 JS.bind].
  destruct servers as [| server servers]; [exact Hrest |].
  simpl in Hservers. apply andb_prop in Hservers. destruct Hservers as (Hserver & _).
  change (0 <? Z.of_nat (length (server :: servers)))%Z with true.
  cbv iota. unfold first, get at 1. cbn [isNullish JS.bind].
  change (field (Arr (server :: servers)) "0") with server.
  rewrite (present_get _ _ Hserver). eexists. reflexivity.
Qed.

(** A document of the expected shape that has a version marker is parsed. *)
Lemma parse_shaped (document : value) :
  Spec.hasMarker document = true ->
  Spec.shaped document = true ->
  exists spec, Parser.parseDocument document = Ok spec.
Proof.
  intros Hmarker H.
  pose proof (hasMarker_present _ Hmarker) as Hn.
  unfold Spec.shaped in H.
  apply andb_prop in H. destruct H as (H & Hschemas).
  apply andb_prop in H. destruct H as (Hlocation & Hpaths).
  unfold Parser.parseDocument. rewrite (constructor_marker _ Hn), Hmarker.
  cbn [JS.bind]. unfold Parser.parse.
  destruct (getBaseUrl_shaped _ Hn Hlocation) as (url & ->). cbn [JS.bind].
  destruct (parseEndpoints_shaped _ Hn Hpaths) as (es & ->). cbn [JS.bind].
  destruct (parseSchemas_shaped _ Hn Hschemas) as (ss & ->). cbn [JS.bind].
  unfold Parser.parseSecuritySchemes, get. rewrite Hn. cbn [JS.bind].
  rewrite !getOpt_field. cbn [JS.bind].
  destruct (truthy (field (field document "components") "securitySchemes"));
    eexists; reflexivity.
Qed.

(** ** The version gate and the defaults *)

Lemma absent_field (v : value) (names : list string) (k : string) :
  Spec.absent v names -> In k names -> field v k = Undefined.
Proof.
  unfold Spec.absent. rewrite Forall_forall. intros H Hin. apply H, Hin.
Qed.

Lemma field_without (fs : list (string * value)) (k k' : string) :
  field (Obj (Spec.without k fs)) k'
  = if String.eqb k' k then Undefined else field (Obj fs) k'.
Proof.
  unfold field, Spec.without. simpl ownEntries.
  induction fs as [| [k0 v] fs IH]; simpl filter.
  - destruct (String.eqb k' k); reflexivity.
  - cbn [fst]. rewrite lookup_cons.
    destruct (String.eqb k0 k) eqn:E0; cbn [negb].
    + apply String.eqb_eq in E0. subst k0.
      destruct (String.eqb k' k); [exact IH | exact IH].
    + rewrite lookup_cons.
      destruct (String.eqb k' k0) eqn:E1; [| exact IH].
      apply String.eqb_eq in E1. subst k0. rewrite E0. reflexivity.
Qed.

(** Leaving a field out of a document keeps its shape. *)
Lemma shaped_without (fs : list (string * value)) (k : string) :
  Spec.shaped (Obj fs) = true -> Spec.shaped (Obj (Spec.without k fs)) = true.
Proof.
  unfold Spec.shaped, Spec.shapedLocation.
  rewrite !field_without.
  destruct (String.eqb "servers" k), (String.eqb "host" k),
    (String.eqb "basePath" k), (String.eqb "schemes" k),
    (String.eqb "paths" k), (String.eqb "components" k);
    intro H;
    repeat match type of H with
           | _ && _ = true => apply andb_prop in H; destruct H as (H & ?)
           end;
    repeat (apply andb_true_intro; split); first [assumption | reflexivity].
Qed.

(** The steps of a proof by absence of fields. *)
Ltac absent_rewrite H :=
  repeat match goal with
         | |- context [field ?v ?k] =>
             rewrite (absent_field v _ k H) by (simpl; tauto)
         end.

(** ** What an absent field falls back to *)

Lemma parse_fallbacks (document : value) (spec : ParsedAPISpec.t) :
  Parser.parse document = Ok spec ->
  ParsedAPISpec.title spec = or (field (field document "info") "title") (Str "API")
  /\ ParsedAPISpec.version spec
     = or (field (field document "info") "version") (Str "1.0.0")
  /\ ParsedAPISpec.description spec = field (field document "info") "description"
  /\ ParsedAPISpec.securitySchemes spec
     = or (field (field document "components") "securitySchemes") (Obj [])
  /\ (field document "paths" = Undefined -> ParsedAPISpec.endpoints spec = [])
  /\ (field (field document "components") "schemas" = Undefined ->
      ParsedAPISpec.schemas spec = [])
  /\ (field document "servers" = Undefined ->
      field document "host" = Undefined ->
      ParsedAPISpec.baseUrl spec = Str "https://api.example.com").
Proof.
  intro H. apply parse_fields in H.
  destruct H as (Hbase & Hes & Hss & Hsec & Htitle & Hversion & Hdescription).
  split; [exact Htitle |]. split; [exact Hversion |].
  split; [exact Hdescription |].
  split; [| split; [| split]].
  - unfold Parser.parseSecuritySchemes in Hsec.
    apply bind_Ok in Hsec. destruct Hsec as (components & Hget & Hsec).
    apply get_Ok in Hget. destruct Hget as (_ & ->).
    rewrite getOpt_field in Hsec. cbn [JS.bind] in Hsec. unfold or.
    destruct (truthy (field (field document "components") "securitySchemes"));
      injection Hsec as <-; reflexivity.
  - intro Hpaths. unfold Parser.parseEndpoints in Hes.
    apply bind_Ok in Hes. destruct Hes as (paths & Hget & Hes).
    apply get_Ok in Hget. destruct Hget as (_ & ->).
    rewrite Hpaths in Hes. injection Hes as <-. reflexivity.
  - intro Hschemas. unfold Parser.parseSchemas in Hss.
    apply bind_Ok in Hss. destruct Hss as (components & Hget & Hss).
    apply get_Ok in Hget. destruct Hget as (_ & ->).
    rewrite getOpt_field, Hschemas in Hss. injection Hss as <-. reflexivity.
  - intros Hservers Hhost. unfold Parser.getBaseUrl in Hbase.
    apply bind_Ok in Hbase. destruct Hbase as (servers & Hget & Hbase).
    apply get_Ok in Hget. destruct Hget as (Hn & ->).
    rewrite Hservers in Hbase. cbn [truthy JS.bind] in Hbase.
    unfold get in Hbase. rewrite Hn, Hhost in Hbase. cbn [truthy JS.bind] in Hbase.
    injection Hbase as <-. reflexivity.
Qed.

Lemma parseEndpoint_fallbacks (path method : string) (operation : value)
    (e : ParsedEndpoint.t) :
  Parser.parseEndpoint path method operation = Ok e ->
  ParsedEndpoint.operationId e
  = or (field operation "operationId")
      (Str (Parser.generateOperationId method path))
  /\ ParsedEndpoint.tags e = or (field operation "tags") (Arr [Str "default"])
  /\ (field operation "parameters" = Undefined -> ParsedEndpoint.parameters e = [])
  /\ (field operation "requestBody" = Undefined ->
      ParsedEndpoint.requestBody e = None)
  /\ (field operation "responses" = Undefined -> ParsedEndpoint.responses e = [])
  /\ (field operation "security" = Undefined -> ParsedEndpoint.security e = []).
Proof.
  intro H. pose proof (parseEndpoint_parts _ _ _ _ H) as (Hps & Hbody & Hrs & Hsec).
  unfold Parser.parseEndpoint in H.
  repeat (apply bind_Ok in H; destruct H as (? & ? & H)).
  injection H as <-. cbn.
  repeat match goal with
         | Hget : get operation _ = Ok _ |- _ =>
             apply get_Ok in Hget; destruct Hget as (_ & ->)
         end.
  cbn in Hps, Hbody, Hrs, Hsec.
  split; [reflexivity |]. split; [reflexivity |].
  split; [| split; [| split]].
  - intro E. rewrite E in Hps. injection Hps as <-. reflexivity.
  - intro E. rewrite E in Hbody. injection Hbody as <-. reflexivity.
  - intro E. rewrite E in Hrs. injection Hrs as <-. reflexivity.
  - intro E. rewrite E in Hsec. injection Hsec as <-. reflexivity.
Qed.

Lemma parseParameter_fallbacks (param : value) (p : ParsedParameter.t) :
  Parser.parseParameter param = Ok p ->
  ParsedParameter.in_ p = or (field param "in") (Str "query")
  /\ ParsedParameter.required p = or (field param "required") (Boolean false)
  /\ (field param "schema" = Undefined -> ParsedParameter.type p = Str "any").
Proof.
  intro H. unfold Parser.parseParameter in H.
  repeat (apply bind_Ok in H; destruct H as (? & ? & H)).
  injection H as <-. cbn.
  repeat match goal with
         | Hget : get param _ = Ok _ |- _ =>
             apply get_Ok in Hget; destruct Hget as (_ & ->)
         end.
  split; [reflexivity |]. split; [reflexivity |].
  intro E.
  match goal with
  | Ht : Parser.getSchemaType _ = Ok _ |- _ =>
      rewrite E in Ht; injection Ht as <-
  end.
  reflexivity.
Qed.

Lemma parseResponse_fallbacks (statusCode : string) (response : value)
    (r : ParsedResponse.t) :
  Parser.parseResponse (statusCode, response) = Ok r ->
  ParsedResponse.description r = or (field response "description") (Str "")
  /\ (field response "content" = Undefined ->
      ParsedResponse.schema r = Undefined
      /\ ParsedResponse.example r = Undefined).
Proof.
  unfold Parser.parseResponse. intro H.
  apply bind_Ok in H. destruct H as (content0 & Hcontent & H).
  apply get_Ok in Hcontent. destruct Hcontent as (_ & ->).
  apply bind_Ok in H. destruct H as (contentTypes & Hkeys & H).
  apply bind_Ok in H. destruct H as (description & Hdescription & H).
  apply get_Ok in Hdescription. destruct Hdescription as (_ & ->).
  apply bind_Ok in H. destruct H as (media & Hmedia & H).
  apply bind_Ok in H. destruct H as (schema & Hschema & H).
  apply bind_Ok in H. destruct H as (example & Hexample & H).
  injection H as <-. cbn. split; [reflexivity |].
  intro E. rewrite E in Hkeys, Hmedia. cbn in Hkeys. injection Hkeys as <-.
  cbn in Hmedia. injection Hmedia as <-.
  cbn in Hschema, Hexample.
  injection Hschema as <-. injection Hexample as <-. split; reflexivity.
Qed.

Lemma parseSchema_fallbacks (name : string) (schema : value) (s : ParsedSchema.t) :
  Parser.parseSchema name schema = Ok s ->
  ParsedSchema.type s = or (field schema "type") (Str "object")
  /\ ParsedSchema.required s = or (field schema "required") (Arr [])
  /\ (field schema "properties" = Undefined -> ParsedSchema.properties s = []).
Proof.
  unfold Parser.parseSchema. intro H.
  apply bind_Ok in H. destruct H as (rawProperties & Hraw & H).
  apply get_Ok in Hraw. destruct Hraw as (_ & ->).
  apply bind_Ok in H. destruct H as (properties & Hproperties & H).
  repeat (apply bind_Ok in H; destruct H as (? & ? & H)).
  injection H as <-. cbn.
  repeat match goal with
         | Hget : get schema _ = Ok _ |- _ =>
             apply get_Ok in Hget; destruct Hget as (_ & ->)
         end.
  split; [reflexivity |]. split; [reflexivity |].
  intro E. rewrite E in Hproperties. injection Hproperties as <-. reflexivity.
Qed.

(** C3, as the code has it.  Parsing a document fails with the
    invalid-specification error if and only if the document is not [null]
    and holds no truthy value under [openapi] and none under [swagger]: it
    fails so when the document has neither field, and also when it has
    them with an empty string, a zero, [false] or [null]; it does not when
    one of them is a non-empty string.  The document [null] makes the
    constructor throw a TypeError.  With a marker, a document of the
    expected shape is parsed whatever field it leaves out, and what is left
    out falls back to a default, field by field and whatever else the
    document holds: the title API, the version 1.0.0, no description, the
    placeholder base URL, no endpoint, no schema and no security scheme; an
    operation, a parameter, a response and a schema fall back in the same
    way, and one that leaves all its fields out yields the defaults of its
    kind. *)
Theorem parse_gate_and_defaults (document : value) :
  (Parser.parseDocument document = Throw Parser.invalidSpecification
   <-> isNullish document = false /\ Spec.hasMarker document = false)
  /\ (isNullish document = true ->
      Parser.parseDocument document = Throw TypeError)
  /\ (forall fs : list (string * value),
        document = Obj fs ->
        lookup "openapi" fs = None -> lookup "swagger" fs = None ->
        Parser.parseDocument document = Throw Parser.invalidSpecification)
  /\ (forall marker : string,
        nonEmpty marker = true ->
        field document "openapi" = Str marker
        \/ field document "swagger" = Str marker ->
        Parser.parseDocument document <> Throw Parser.invalidSpecification)
  /\ (Spec.hasMarker document = true ->
      Spec.shaped document = true ->
      exists spec, Parser.parseDocument document = Ok spec)
  /\ (forall (fs : list (string * value)) (k : string),
        document = Obj fs ->
        Spec.shaped document = true ->
        Spec.hasMarker (Obj (Spec.without k fs)) = true ->
        exists spec, Parser.parseDocument (Obj (Spec.without k fs)) = Ok spec)
  /\ (forall spec : ParsedAPISpec.t,
        Parser.parseDocument document = Ok spec ->
        ParsedAPISpec.title spec
        = or (field (field document "info") "title") (Str "API")
        /\ ParsedAPISpec.version spec
           = or (field (field document "info") "version") (Str "1.0.0")
        /\ ParsedAPISpec.description spec
           = field (field document "info") "description"
        /\ ParsedAPISpec.securitySchemes spec
           = or (field (field document "components") "securitySchemes") (Obj [])
        /\ (field document "info" = Undefined ->
            ParsedAPISpec.title spec = Str "API"
            /\ ParsedAPISpec.version spec = Str "1.0.0"
            /\ ParsedAPISpec.description spec = Undefined)
        /\ (field document "paths" = Undefined ->
            ParsedAPISpec.endpoints spec = [])
        /\ (field document "components" = Undefined ->
            ParsedAPISpec.schemas spec = []
            /\ ParsedAPISpec.securitySchemes spec = Obj [])
        /\ (field (field document "components") "schemas" = Undefined ->
            ParsedAPISpec.schemas spec = [])
        /\ (field document "servers" = Undefined ->
            field document "host" = Undefined ->
            ParsedAPISpec.baseUrl spec = Str "https://api.example.com"))
  /\ (Spec.hasMarker document = true ->
      Spec.absent document ["info"; "servers"; "host"; "paths"; "components"] ->
      Parser.parseDocument document = Ok Spec.defaults)
  /\ (forall (path method : string) (operation : value) (e : ParsedEndpoint.t),
        Parser.parseEndpoint path method operation = Ok e ->
        ParsedEndpoint.operationId e
        = or (field operation "operationId")
            (Str (Parser.generateOperationId method path))
        /\ ParsedEndpoint.tags e
           = or (field operation "tags") (Arr [Str "default"])
        /\ (field operation "parameters" = Undefined ->
            ParsedEndpoint.parameters e = [])
        /\ (field operation "requestBody" = Undefined ->
            ParsedEndpoint.requestBody e = None)
        /\ (field operation "responses" = Undefined ->
            ParsedEndpoint.responses e = [])
        /\ (field operation "security" = Undefined ->
            ParsedEndpoint.security e = []))
  /\ (forall (param : value) (p : ParsedParameter.t),
        Parser.parseParameter param = Ok p ->
        ParsedParameter.in_ p = or (field param "in") (Str "query")
        /\ ParsedParameter.required p
           = or (field param "required") (Boolean false)
        /\ (field param "schema" = Undefined ->
            ParsedParameter.type p = Str "any"))
  /\ (forall (statusCode : string) (response : value) (r : ParsedResponse.t),
        Parser.parseResponse (statusCode, response) = Ok r ->
        ParsedResponse.description r
        = or (field response "description") (Str "")
        /\ (field response "content" = Undefined ->
            ParsedResponse.schema r = Undefined
            /\ ParsedResponse.example r = Undefined))
  /\ (forall (name : string) (schema : value) (s : ParsedSchema.t),
        Parser.parseSchema name schema = Ok s ->
        ParsedSchema.type s = or (field schema "type") (Str "object")
        /\ ParsedSchema.required s = or (field schema "required") (Arr [])
        /\ (field schema "properties" = Undefined ->
            ParsedSchema.properties s = []))
  /\ (forall (path method : string) (operation : value),
        truthy operation = true ->
        Spec.absent operation
          ["parameters"; "requestBody"; "responses"; "operationId"; "summary";
           "description"; "tags"; "security"] ->
        Parser.parseEndpoint path method operation
        = Ok (Spec.defaultEndpoint path method))
  /\ (forall param : value,
        Spec.present param = true ->
        Spec.absent param ["name"; "in"; "required"; "schema"; "description"] ->
        Parser.parseParameter param = Ok Spec.defaultParameter)
  /\ (forall (statusCode : string) (response : value),
        Spec.present response = true ->
        Spec.absent response ["content"; "description"] ->
        Parser.parseResponse (statusCode, response)
        = Ok (Spec.defaultResponse statusCode))
  /\ (forall (name : string) (schema : value),
        Spec.present schema = true ->
        Spec.absent schema
          ["properties"; "type"; "required"; "description"; "example"; "enum";
           "format"; "$ref"] ->
        Parser.parseSchema name schema = Ok (Spec.defaultSchema name)).
Proof.
  assert (Hnull : isNullish document = true ->
                  Parser.parseDocument document = Throw TypeError).
  { intro Hn. unfold Parser.parseDocument, Parser.constructor, get.
    rewrite Hn. reflexivity. }
  assert (Hgate : isNullish document = false ->
                  (Parser.parseDocument document = Throw Parser.invalidSpecification
                   <-> Spec.hasMarker document = false)).
  { intro Hn. unfold Parser.parseDocument. rewrite (constructor_marker _ Hn).
    destruct (Spec.hasMarker document); cbn [JS.bind]; split.
    - intro H. exfalso. exact (noError_parse document _ H).
    - intro H. discriminate H.
    - reflexivity.
    - reflexivity. }
  split; [| split; [exact Hnull |]].
  { destruct (isNullish document) eqn:Hn.
    - rewrite (Hnull eq_refl). split.
      + intro H. discriminate H.
      + intros (H & _). discriminate H.
    - rewrite (Hgate eq_refl). tauto. }
  split; [| split; [| split; [| split; [| split; [| split]]]]].
  - intros fs -> Hopenapi Hswagger. apply (Hgate eq_refl).
    unfold Spec.hasMarker, field. simpl ownEntries.
    rewrite Hopenapi, Hswagger. reflexivity.
  - intros marker Hne Hfield H.
    assert (Hn : isNullish document = false).
    { destruct document; try reflexivity;
        destruct Hfield as [Hfield | Hfield]; discriminate Hfield. }
    apply (Hgate Hn) in H.
    unfold Spec.hasMarker in H. apply orb_false_elim in H.
    destruct H as (Ho & Hs).
    destruct Hfield as [Hfield | Hfield]; rewrite Hfield in *; simpl in *; congruence.
  - apply parse_shaped.
  - intros fs k -> Hshaped Hmarker.
    apply parse_shaped; [exact Hmarker | apply shaped_without; exact Hshaped].
  - intros spec H. unfold Parser.parseDocument in H.
    apply bind_Ok in H. destruct H as (parsed & Hctor & H).
    apply constructor_Ok in Hctor. destruct Hctor as (-> & _).
    apply parse_fallbacks in H.
    destruct H as (Htitle & Hversion & Hdescription & Hsec & Hes & Hss & Hbase).
    repeat (split; [assumption |]).
    split; [| split; [exact Hes |]; split; [| split; [exact Hss | exact Hbase]]].
    + intro E. rewrite Htitle, Hversion, Hdescription, E. repeat split.
    + intro E. split; [apply Hss; rewrite E; reflexivity |].
      rewrite Hsec, E. reflexivity.
  - intros Hmarker Habsent.
    assert (Hn : isNullish document = false)
      by (apply hasMarker_present; exact Hmarker).
    unfold Parser.parseDocument. rewrite (constructor_marker _ Hn), Hmarker.
    cbn [JS.bind].
    unfold Parser.parse, Parser.getBaseUrl, Parser.parseEndpoints,
      Parser.parseSchemas, Parser.parseSecuritySchemes, get.
    rewrite Hn. cbn [JS.bind]. rewrite !getOpt_field.
    absent_rewrite Habsent. reflexivity.
  - split; [exact parseEndpoint_fallbacks |].
    split; [exact parseParameter_fallbacks |].
    split; [exact parseResponse_fallbacks |].
    split; [exact parseSchema_fallbacks |].
    split; [| split; [| split]].
    + intros path method operation Ht Habsent.
      unfold Parser.parseEndpoint. rewrite !(get_truthy _ _ Ht).
      absent_rewrite Habsent. reflexivity.
    + intros param Hp Habsent.
      unfold Parser.parseParameter. rewrite !(present_get _ _ Hp).
      absent_rewrite Habsent. reflexivity.
    + intros statusCode response Hp Habsent.
      unfold Parser.parseResponse. rewrite !(present_get _ _ Hp).
      absent_rewrite Habsent. reflexivity.
    + intros name schema Hp Habsent.
      unfold Parser.parseSchema. rewrite !(present_get _ _ Hp).
      absent_rewrite Habsent. reflexivity.
Qed.

(** A document that has only the legacy marker is parsed to the defaults;
    one that has an info and paths but no marker is refused; one that
    states a title and a path is parsed with its title and its operation,
    and with the defaults for what it leaves out. *)
Lemma parse_gate_and_defaults_witness :
  Parser.parseDocument Spec.markerOnly = Ok Spec.defaults
  /\ Parser.parseDocument Spec.noMarker = Throw Parser.invalidSpecification
  /\ Parser.parseEndpoint "/pets" "GET" (Obj [])
     = Ok (Spec.defaultEndpoint "/pets" "GET")
  /\ exists spec : ParsedAPISpec.t,
       Parser.parseDocument Spec.titleAndPath = Ok spec
       /\ ParsedAPISpec.title spec = Str "Pets"
       /\ ParsedAPISpec.version spec = Str "1.0.0"
       /\ ParsedAPISpec.description spec = Undefined
       /\ ParsedAPISpec.baseUrl spec = Str "https://api.example.com"
       /\ ParsedAPISpec.schemas spec = []
       /\ ParsedAPISpec.securitySchemes spec = Obj []
       /\ map ParsedEndpoint.summary (ParsedAPISpec.endpoints spec)
          = [Str "All pets"]
       /\ map ParsedEndpoint.tags (ParsedAPISpec.endpoints spec)
          = [Arr [Str "default"]].
Proof.
  destruct (parse_gate_and_defaults Spec.markerOnly)
    as (_ & _ & _ & _ & _ & _ & _ & Hdefaults & _ & _ & _ & _ & Hendpoint & _).
  destruct (parse_gate_and_defaults Spec.noMarker) as (Hgate & _).
  destruct (parse_gate_and_defaults Spec.titleAndPath)
    as (_ & _ & _ & _ & Hparsed & _ & Hfields & _).
  split; [| split; [| split]].
  - apply Hdefaults; [reflexivity |]. repeat constructor.
  - apply Hgate. split; reflexivity.
  - apply Hendpoint; [reflexivity |]. repeat constructor.
  - destruct (Hparsed eq_refl eq_refl) as (spec & Hspec).
    exists spec. split; [exact Hspec |].
    destruct (Hfields spec Hspec)
      as (Htitle & Hversion & Hdescription & _ & _ & _ & Hcomponents & _ & Hbase).
    split; [exact Htitle |]. split; [exact Hversion |].
    split; [exact Hdescription |].
    split; [apply Hbase; reflexivity |].
    destruct (Hcomponents eq_refl) as (Hschemas & Hsecurity).
    split; [exact Hschemas |]. split; [exact Hsecurity |].
    assert (E : Parser.parseDocument Spec.titleAndPath
                = Ok (ParsedAPISpec.make (Str "Pets") (Str "1.0.0") Undefined
                        (Str "https://api.example.com")
                        [ParsedEndpoint.make "/pets" "GET" (Str "getPets")
                           (Str "All pets") Undefined (Arr [Str "default"])
                           [] None [] []]
                        [] (Obj []))) by reflexivity.
    rewrite Hspec in E. injection E as ->. split; reflexivity.
Defined.

(** C3 as stated fails: a document can hold a marker field and be refused
    with the invalid-specification error, and a document without the two
    fields can fail otherwise.  The document [{openapi: ""}] has the
    field [openapi] and is refused; the document [null] lacks both fields
    and makes the constructor throw a TypeError. *)
Lemma parse_empty_marker_counterexample :
  Spec.emptyMarker = Obj [("openapi", Str "")]
  /\ lookup "openapi" [("openapi", Str "")] = Some (Str "")
  /\ Parser.parseDocument Spec.emptyMarker = Throw Parser.invalidSpecification
  /\ Parser.parseDocument Spec.nullDocument = Throw TypeError
  /\ Parser.parseDocument Spec.nullDocument <> Throw Parser.invalidSpecification.
Proof.
  repeat split; try reflexivity. intro H. discriminate H.
Qed.

(** ** The number of endpoints and of schemas *)

Lemma length_operations (document : value) :
  length (Spec.presentOperations document) = Spec.operationCount document.
Proof.
  unfold Spec.presentOperations, Spec.operationCount.
  destruct (truthy (field document "paths")); [| reflexivity].
  induction (ownEntries (field document "paths")) as [| entry entries IH];
    [reflexivity |].
  simpl. rewrite length_app, length_map, IH. reflexivity.
Qed.

Lemma length_schemas (document : value) :
  length (Spec.declaredSchemas document) = Spec.schemaCount document.
Proof.
  unfold Spec.declaredSchemas, Spec.schemaCount.
  destruct (truthy (field (field document "components") "schemas"));
    [apply length_map | reflexivity].
Qed.

(** C8.  A document with a version marker and of the expected shape is
    parsed.  Whenever a document is parsed, the endpoints of the result are,
    in order, the (path, verb) pairs under which the document holds an
    operation, the paths in the order of the document and the verbs in the
    order get, post, put, delete, patch, options, head; so the endpoints are
    as many as these pairs.  The schemas of the result are, in order, the
    declared component schemas, and as many. *)
Theorem parse_counts (document : value) :
  (forall spec : ParsedAPISpec.t,
      Parser.parseDocument document = Ok spec ->
      map Spec.pathAndMethod (ParsedAPISpec.endpoints spec)
      = Spec.presentOperations document
      /\ length (ParsedAPISpec.endpoints spec) = Spec.operationCount document
      /\ map ParsedSchema.name (ParsedAPISpec.schemas spec)
         = Spec.declaredSchemas document
      /\ length (ParsedAPISpec.schemas spec) = Spec.schemaCount document)
  /\ (Spec.hasMarker document = true ->
      Spec.shaped document = true ->
      exists spec : ParsedAPISpec.t,
        Parser.parseDocument document = Ok spec
        /\ length (ParsedAPISpec.endpoints spec) = Spec.operationCount document
        /\ length (ParsedAPISpec.schemas spec) = Spec.schemaCount document).
Proof.
  assert (Hany : forall spec : ParsedAPISpec.t,
             Parser.parseDocument document = Ok spec ->
             map Spec.pathAndMethod (ParsedAPISpec.endpoints spec)
             = Spec.presentOperations document
             /\ length (ParsedAPISpec.endpoints spec)
                = Spec.operationCount document
             /\ map ParsedSchema.name (ParsedAPISpec.schemas spec)
                = Spec.declaredSchemas document
             /\ length (ParsedAPISpec.schemas spec) = Spec.schemaCount document).
  { intros spec H. unfold Parser.parseDocument in H.
    apply bind_Ok in H. destruct H as (parsed & Hctor & H).
    apply constructor_Ok in Hctor. destruct Hctor as (-> & _).
    apply parse_fields in H. destruct H as (_ & Hes & Hss & _).
    apply parseEndpoints_operations in Hes.
    apply parseSchemas_declared in Hss.
    split; [exact Hes |]. split.
    - rewrite <- length_operations, <- Hes. symmetry. apply length_map.
    - split; [exact Hss |].
      rewrite <- length_schemas, <- Hss. symmetry. apply length_map. }
  split; [exact Hany |].
  intros Hmarker Hshaped.
  destruct (parse_shaped document Hmarker Hshaped) as (spec & Hspec).
  exists spec. destruct (Hany spec Hspec) as (_ & Hes & _ & Hss).
  split; [exact Hspec |]. split; assumption.
Qed.

(** A document that states seven operations under two paths, in an order of
    its own, and one more under a verb the normalizer does not know, and
    two schemas: it is parsed to seven endpoints, the verbs of each path in
    the order get, post, put, delete, patch, options, head, and to two
    schemas. *)
Lemma parse_counts_witness :
  exists spec : ParsedAPISpec.t,
    Parser.parseDocument Spec.verbsDocument = Ok spec
    /\ length (ParsedAPISpec.endpoints spec) = 7
    /\ length (ParsedAPISpec.schemas spec) = 2
    /\ map Spec.pathAndMethod (ParsedAPISpec.endpoints spec)
       = [("/pets", "GET"); ("/pets", "POST"); ("/pets/{id}", "PUT");
          ("/pets/{id}", "DELETE"); ("/pets/{id}", "PATCH");
          ("/pets/{id}", "OPTIONS"); ("/pets/{id}", "HEAD")]
    /\ map ParsedSchema.name (ParsedAPISpec.schemas spec) = ["Pet"; "Error"].
Proof.
  destruct (parse_counts Spec.verbsDocument) as (Hany & Hshaped).
  destruct (Hshaped eq_refl eq_refl) as (spec & Hspec & Hes & Hss).
  exists spec. split; [exact Hspec |].
  split; [exact Hes |]. split; [exact Hss |].
  destruct (Hany spec Hspec) as (Hpairs & _ & Hnames & _).
  split; [exact Hpairs | exact Hnames].
Defined.

(** ** Unsupported languages *)

(** C6, as the code has it.  For a language outside typescript, python and
    go, the generate command fails: after the probe that the input file
    exists, the only event of the run, it throws the invalid-language error
    (or the input-file-not-found error when the file is missing), before the
    document is read, a directory made, a generator chosen or an artifact
    written.  The engine itself rejects no language: [getGenerator] throws
    nothing and returns the TypeScript generator for every configuration,
    with a notice on the console when the language is not typescript. *)
Theorem generateClient_rejects_language
    (options : Cli.options) (documents : list (string * value))
    (directories : list string) :
  existsb (String.eqb (Cli.language options)) Cli.validLanguages = false ->
  Cli.run (Cli.generateClient options) documents directories
  = (Node.makeState documents directories [Node.ExistsSync (Cli.input options)],
     Throw (Error
              (if Node.present (Node.makeState documents directories [])
                    (Cli.input options)
               then Spec.invalidLanguage (Cli.language options)
               else "Input file not found: " ++ Cli.input options)))
  /\ (forall (engine : Engine.engine) (st : Node.state),
        snd (Engine.getGenerator engine st)
        = Ok (TypeScript.new (Engine.config engine))
        /\ Node.trace (fst (Engine.getGenerator engine st))
           = (Node.trace st
              ++ if String.eqb (GeneratorConfig.language (Engine.config engine))
                      "typescript"
                 then []
                 else [Node.ConsoleLog
                         (Spec.notice
                            (GeneratorConfig.language (Engine.config engine)))])%list).
Proof.
  intro Hlanguage. split.
  - unfold Cli.run, Cli.generateClient, Node.bind, Node.existsSync, Node.resolve.
    cbn [Node.documents Node.paths Node.trace app].
    destruct (Node.present (Node.makeState documents directories [])
                (Cli.input options)); cbn [negb].
    + rewrite Hlanguage. reflexivity.
    + reflexivity.
  - intros engine st. unfold Engine.getGenerator.
    destruct (String.eqb (GeneratorConfig.language (Engine.config engine))
                "typescript").
    + split; [reflexivity |]. simpl. rewrite app_nil_r. reflexivity.
    + split; reflexivity.
Qed.

(** The command line [generate -l rust] on an existing document stops at
    the language. *)
Lemma generateClient_rejects_language_witness :
  Cli.run (Cli.generateClient Spec.rustOptions)
    [("/work/api.json", Spec.petDocument)] ["/work"]
  = (Node.makeState [("/work/api.json", Spec.petDocument)] ["/work"]
       [Node.ExistsSync "/work/api.json"],
     Throw (Error "Invalid language: rust. Supported: typescript, python, go")).
Proof.
  destruct (generateClient_rejects_language Spec.rustOptions
              [("/work/api.json", Spec.petDocument)] ["/work"] eq_refl)
    as (H & _).
  exact H.
Defined.

(** C6 as stated fails.  The engine run on a configuration whose language
    is rust does not fail: it chooses the TypeScript generator and writes
    the artifacts.  The command line [watch -l rust] reaches the engine with
    such a configuration, and its generation succeeds in the same way. *)
Lemma engine_rust_counterexample :
  existsb (String.eqb (GeneratorConfig.language Spec.rustConfig)) Cli.validLanguages
  = false
  /\ (exists final : Node.state,
         Spec.engineRun Spec.rustConfig (Spec.specOf [Spec.listPets])
         = Ok (final, Ok tt)
         /\ Spec.writtenPaths (Node.trace final)
            = ["/work/out/rust/index.ts"; "/work/out/rust/errors.ts";
               "/work/out/rust/params.ts"; "/work/out/rust/package.json";
               "/work/out/rust/tsconfig.json"]
         /\ In (Node.ConsoleLog (Spec.notice "rust")) (Node.trace final))
  /\ snd (Cli.run (Cli.watchAndGenerate Spec.rustOptions)
            [("/work/api.json", Spec.petDocument)] ["/work"]) = Ok tt
  /\ Spec.writtenPaths
       (Node.trace
          (fst (Cli.run (Cli.watchAndGenerate Spec.rustOptions)
                  [("/work/api.json", Spec.petDocument)] ["/work"])))
     = ["/work/out/rust/types.ts"; "/work/out/rust/index.ts";
        "/work/out/rust/errors.ts"; "/work/out/rust/params.ts";
        "/work/out/rust/package.json"; "/work/out/rust/tsconfig.json"].
Proof.
  split; [reflexivity |]. split; [| split; vm_compute; reflexivity].
  eexists. split; [vm_compute; reflexivity |].
  split; [vm_compute; reflexivity |].
  vm_compute. tauto.
Qed.

(* ================================================================== *)
(** * Further properties of the normalizer *)
(* ================================================================== *)

(** ** The base URL *)

Lemma field_first (x : value) (l : list value) : field (Arr (x :: l)) "0" = x.
Proof. reflexivity. Qed.

(** X1.  [getBaseUrl] looks at the servers first: when [servers] is a
    non-empty array, the base URL is the [url] of its first element,
    whatever the document says besides, and it is [undefined], not a
    default, when that server states no URL.  When [servers] is missing or
    empty, a document with a host yields scheme://host followed by the base
    path, the scheme being the first of [schemes] or https and the base
    path being empty by default; without a host the base URL is
    https://api.example.com. *)
Theorem getBaseUrl_precedence (document : value) :
  isNullish document = false ->
  (forall (server : value) (others : list value),
      field document "servers" = Arr (server :: others) ->
      isNullish server = false ->
      Parser.getBaseUrl document = Ok (field server "url"))
  /\ (Props.noServers document = true ->
      Spec.shapedLocation document = true ->
      Parser.getBaseUrl document = Ok (Str (Props.legacyUrl document))).
Proof.
  intro Hn.
  assert (Hget : forall k, get document k = Ok (field document k)).
  { intro k. unfold get. rewrite Hn. reflexivity. }
  split.
  - intros server others Hs Hserver.
    unfold Parser.getBaseUrl. rewrite Hget, Hs.
    cbn [JS.bind truthy lengthOf gt0].
    replace (0 <? Z.of_nat (length (server :: others)))%Z with true
      by (symmetry; apply Z.ltb_lt; simpl length; lia).
    cbn [JS.bind]. unfold first, get at 1. cbn [isNullish JS.bind].
    rewrite field_first. unfold get. rewrite Hserver. reflexivity.
  - intros Hno Hshape.
    unfold Spec.shapedLocation in Hshape.
    apply andb_prop in Hshape. destruct Hshape as (Hshape & Hschemes).
    apply andb_prop in Hshape. destruct Hshape as (Hshape & Hbase).
    apply andb_prop in Hshape. destruct Hshape as (_ & Hhost).
    unfold Parser.getBaseUrl. rewrite !Hget. cbn [JS.bind].
    assert (Hfirst :
              (if truthy (field document "servers")
               then len <- lengthOf (field document "servers") ;; gt0 len
               else Ok false) = Ok false).
    { unfold Props.noServers in Hno.
      destruct (field document "servers") as [| | b | n | s | [| x l] | fs];
        cbn [truthy] in Hno |- *; try reflexivity; try discriminate Hno;
        apply negb_true_iff in Hno; rewrite Hno; reflexivity. }
    rewrite Hfirst. cbn [JS.bind].
    unfold Props.legacyUrl.
    destruct (field document "host") as [| | b | n | host | l | fs] eqn:Ehost;
      try discriminate Hhost; try reflexivity.
    cbn [truthy]. destruct (nonEmpty host) eqn:Hne; [| reflexivity].
    unfold firstOpt. rewrite getOpt_field. cbn [JS.bind].
    unfold Props.schemeOf, Props.basePathOf.
    assert (Hscheme : exists t,
               or (field (field document "schemes") "0") (Str "https") = Str t).
    { apply or_text; [| eexists; reflexivity].
      destruct (field document "schemes") as [| | b | n | s | l | fs];
        try discriminate Hschemes; try (left; reflexivity).
      destruct l as [| x l]; [left; reflexivity |].
      rewrite field_first. simpl in Hschemes.
      apply andb_prop in Hschemes. destruct Hschemes as (Hx & _).
      destruct x; try discriminate Hx. right. eexists; reflexivity. }
    destruct Hscheme as (scheme & Hscheme). rewrite Hscheme.
    destruct (describable_text _ "" Hbase) as (basePath & HbasePath).
    rewrite HbasePath. reflexivity.
Qed.

(** The server that states no URL hides the host; the legacy document has
    the base URL http://petstore.io/v2. *)
Lemma getBaseUrl_precedence_witness :
  Parser.getBaseUrl Props.serverWithoutUrl = Ok Undefined
  /\ Parser.getBaseUrl Props.legacyDocument = Ok (Str "http://petstore.io/v2").
Proof.
  split.
  - exact (proj1 (getBaseUrl_precedence Props.serverWithoutUrl eq_refl)
             (Obj []) [] eq_refl eq_refl).
  - exact (proj2 (getBaseUrl_precedence Props.legacyDocument eq_refl)
             eq_refl eq_refl).
Defined.

(** ** Arrays of arrays *)

Lemma elementSchema_step (n : nat) (schema base : value) :
  Props.elementSchema (S n) schema = Some base ->
  truthy schema = true
  /\ truthy (field schema "$ref") = false
  /\ field schema "type" = Str "array"
  /\ truthy (field schema "items") = true
  /\ Props.elementSchema n (field schema "items") = Some base.
Proof.
  cbn [Props.elementSchema].
  destruct (truthy schema) eqn:Ht; [| intro H; discriminate H].
  destruct (truthy (field schema "$ref")) eqn:Href; [intro H; discriminate H |].
  destruct (isStr "array" (field schema "type")) eqn:Htype;
    [| intro H; discriminate H].
  destruct (truthy (field schema "items")) eqn:Hitems; [| intro H; discriminate H].
  cbn [negb andb]. intro H. apply isStr_true in Htype. tauto.
Qed.

Lemma getSchemaType_array (schema : value) (label : string) :
  truthy schema = true ->
  truthy (field schema "$ref") = false ->
  field schema "type" = Str "array" ->
  truthy (field schema "items") = true ->
  Parser.getSchemaType (field schema "items") = Ok (Str label) ->
  Parser.getSchemaType schema = Ok (Str (label ++ "[]")).
Proof.
  intros Ht Href Htype Hitems Hinner.
  rewrite getSchemaType_eq, Ht, !(get_truthy _ _ Ht). cbn [negb JS.bind].
  rewrite Href, Htype, Hitems. cbn [isStr]. rewrite String.eqb_refl.
  cbn [andb]. rewrite Hinner. reflexivity.
Qed.

(** X2.  [getSchemaType] follows the items of nested arrays to any depth:
    a schema that wraps a base schema in [n] array levels has the label of
    the base schema followed by [n] pairs of brackets.  An array schema
    that states no items has the label array. *)
Theorem getSchemaType_nested (n : nat) (schema base : value) (label : string) :
  Props.elementSchema n schema = Some base ->
  Parser.getSchemaType base = Ok (Str label) ->
  Parser.getSchemaType schema = Ok (Str (label ++ Props.brackets n))
  /\ (truthy base = true ->
      truthy (field base "$ref") = false ->
      field base "type" = Str "array" ->
      truthy (field base "items") = false ->
      label = "array").
Proof.
  intros Hn Hbase. split.
  - revert schema Hn. induction n as [| n IH]; intros schema Hn.
    + injection Hn as ->. cbn [Props.brackets]. rewrite append_nil_r. exact Hbase.
    + apply elementSchema_step in Hn.
      destruct Hn as (Ht & Href & Htype & Hitems & Hn).
      cbn [Props.brackets]. rewrite <- append_assoc.
      apply getSchemaType_array; try assumption. apply IH. exact Hn.
  - intros Ht Href Htype Hitems.
    rewrite getSchemaType_eq, Ht, !(get_truthy _ _ Ht) in Hbase.
    cbn [negb JS.bind] in Hbase. rewrite Href, Htype, Hitems in Hbase.
    cbn [isStr] in Hbase. rewrite andb_false_r in Hbase.
    injection Hbase as <-. reflexivity.
Qed.

(** An array of arrays of references to Pet has the label Pet[][]. *)
Lemma getSchemaType_nested_witness :
  Parser.getSchemaType Props.matrixOfPets = Ok (Str "Pet[][]").
Proof.
  exact (proj1 (getSchemaType_nested 2 Props.matrixOfPets (Spec.refTo "Pet") "Pet"
                  eq_refl eq_refl)).
Defined.

(** ** Array labels in the types artifact *)

Lemma mapChars_append (f : ascii -> ascii) (a b : string) :
  mapChars f (a ++ b) = mapChars f a ++ mapChars f b.
Proof. induction a as [| c a IH]; simpl; [reflexivity | now rewrite IH]. Qed.

Lemma endsWith_append (c : ascii) (a : string) (d : ascii) (b : string) :
  Props.endsWith c (a ++ String d b) = Props.endsWith c (String d b).
Proof.
  induction a as [| x a IH]; [reflexivity |].
  change (String x a ++ String d b) with (String x (a ++ String d b)).
  destruct a as [| y a]; [reflexivity |].
  exact IH.
Qed.

Lemma lookup_endsWith {A : Type} (c : ascii) (k : string) (table : list (string * A)) :
  Props.endsWith c k = true ->
  forallb (fun entry => negb (Props.endsWith c (fst entry))) table = true ->
  lookup k table = None.
Proof.
  intros Hk. induction table as [| [k' v] table IH]; intro H; [reflexivity |].
  simpl in H. apply andb_prop in H. destruct H as (Hk' & H).
  rewrite lookup_cons. destruct (String.eqb_spec k k') as [-> | _].
  - rewrite Hk in Hk'. discriminate Hk'.
  - apply IH. exact H.
Qed.

Lemma mapType_bracketed (label : string) (nullable : value) :
  TypeScript.mapType (Str (label ++ "[]")) nullable
  = Ok (Props.nullableType (label ++ "[]") nullable).
Proof.
  unfold TypeScript.mapType, Props.nullableType. cbn [asString JS.bind].
  assert (Hlast : Props.endsWith "]" (toLowerCase (label ++ "[]")) = true).
  { unfold toLowerCase. rewrite mapChars_append.
    change (mapChars lower "[]") with "[]". apply endsWith_append. }
  unfold lookupOr.
  rewrite (lookup_endsWith "]" _ _ Hlast) by reflexivity.
  replace (existsb (String.eqb (toLowerCase (label ++ "[]"))) inheritedMembers)
    with false.
  - destruct (truthy nullable); reflexivity.
  - symmetry. unfold inheritedMembers. cbn [existsb].
    destruct (String.eqb_spec (toLowerCase (label ++ "[]")) "constructor") as [E | _];
      [rewrite E in Hlast; discriminate Hlast |].
    destruct (String.eqb_spec (toLowerCase (label ++ "[]")) "__proto__") as [E | _];
      [rewrite E in Hlast; discriminate Hlast |].
    reflexivity.
Qed.

Lemma brackets_succ (n : nat) : Props.brackets (S n) = Props.brackets n ++ "[]".
Proof. reflexivity. Qed.

(** X3.  The label of an array is not translated.  A property whose schema
    wraps a base schema of label L in one or more array levels is parsed
    with the type L followed by the brackets, and [mapType] looks this
    whole text up in its table, where no key ends in a bracket: types.ts
    declares the property with the label as it is (followed by [| null]
    when the property is nullable), so an array of integer is integer[]
    although integer alone is number. *)
Theorem array_label_verbatim (n : nat) (name : string) (schema base : value)
    (label : string) :
  Props.elementSchema (S n) schema = Some base ->
  Parser.getSchemaType base = Ok (Str label) ->
  exists p : ParsedProperty.t,
    Parser.parseProperty name schema = Ok p
    /\ ParsedProperty.type p = Str (label ++ Props.brackets (S n))
    /\ TypeScript.mapType (ParsedProperty.type p) (ParsedProperty.nullable p)
       = Ok (Props.nullableType (label ++ Props.brackets (S n))
               (field schema "nullable")).
Proof.
  intros Hn Hbase.
  assert (Htype : Parser.getSchemaType schema
                  = Ok (Str (label ++ Props.brackets (S n)))).
  { revert schema Hn. generalize (S n) as m.
    induction m as [| m IH]; intros schema Hm.
    - injection Hm as ->. cbn [Props.brackets]. rewrite append_nil_r. exact Hbase.
    - apply elementSchema_step in Hm.
      destruct Hm as (Ht & Href & Hty & Hitems & Hm).
      cbn [Props.brackets]. rewrite <- append_assoc.
      apply getSchemaType_array; try assumption. apply IH. exact Hm. }
  apply elementSchema_step in Hn. destruct Hn as (Ht & _).
  unfold Parser.parseProperty. rewrite Htype, !(get_truthy _ _ Ht).
  cbn [JS.bind]. eexists. split; [reflexivity |].
  cbn [ParsedProperty.type ParsedProperty.nullable]. split; [reflexivity |].
  rewrite brackets_succ, <- append_assoc. apply mapType_bracketed.
Qed.

(** A nullable array of integer is declared as integer[] | null; the
    label integer by itself is translated to number. *)
Lemma array_label_verbatim_witness :
  (exists p : ParsedProperty.t,
      Parser.parseProperty "ids" Props.integers = Ok p
      /\ ParsedProperty.type p = Str "integer[]"
      /\ TypeScript.mapType (ParsedProperty.type p) (ParsedProperty.nullable p)
         = Ok (Label "integer[] | null"))
  /\ TypeScript.mapType (Str "integer") Undefined = Ok (Label "number").
Proof.
  split; [| reflexivity].
  exact (array_label_verbatim 0 "ids" Props.integers (Obj [("type", Str "integer")])
           "integer" eq_refl eq_refl).
Defined.

(** ** The schema of the success response *)

Lemma parseResponse_fields (entry : string * value) (r : ParsedResponse.t) :
  Parser.parseResponse entry = Ok r ->
  ParsedResponse.statusCode r = fst entry
  /\ ParsedResponse.schema r = Props.firstMediaSchema (snd entry).
Proof.
  destruct entry as [statusCode response]. unfold Parser.parseResponse. intro H.
  apply bind_Ok in H. destruct H as (content0 & Hcontent & H).
  apply get_Ok in Hcontent. destruct Hcontent as (_ & ->).
  apply bind_Ok in H. destruct H as (contentTypes & Hkeys & H).
  apply bind_Ok in H. destruct H as (description & _ & H).
  apply bind_Ok in H. destruct H as (media & Hmedia & H).
  apply bind_Ok in H. destruct H as (schema & Hschema & H).
  apply bind_Ok in H. destruct H as (example & _ & H).
  injection H as <-. cbn. split; [reflexivity |].
  rewrite getOpt_field in Hschema. injection Hschema as <-.
  unfold Parser.firstContent in Hmedia.
  apply get_Ok in Hmedia. destruct Hmedia as (_ & ->).
  unfold keys in Hkeys.
  destruct (isNullish (or (field response "content") (Obj []))); [discriminate Hkeys |].
  injection Hkeys as <-. reflexivity.
Qed.

Lemma find_success (entries : list (string * value)) (rs : list ParsedResponse.t) :
  Forall2 (fun entry r => Parser.parseResponse entry = Ok r) entries rs ->
  match find (fun r => startsWith "2" (ParsedResponse.statusCode r)) rs with
  | Some r => ParsedResponse.schema r
  | None => Undefined
  end
  = match find (fun entry => startsWith "2" (fst entry)) entries with
    | Some entry => Props.firstMediaSchema (snd entry)
    | None => Undefined
    end.
Proof.
  induction 1 as [| entry r entries rs Hr _ IH]; [reflexivity |].
  apply parseResponse_fields in Hr. destruct Hr as (Hcode & Hschema).
  cbn [find]. rewrite Hcode.
  destruct (startsWith "2" (fst entry)); [exact Hschema | exact IH].
Qed.

(** X4.  The return type of a parsed operation is read from the document
    at one place: the schema under the first media type of the first
    response, in property order, whose status code begins with 2.  Other
    2xx responses and other media types are not looked at; an operation
    with no such response, or whose responses are missing, has the return
    type any. *)
Theorem successSchema_of_operation (path method : string) (operation : value)
    (e : ParsedEndpoint.t) :
  Parser.parseEndpoint path method operation = Ok e ->
  Spec.successSchema e = Props.successSchemaOf operation
  /\ (truthy (Props.successSchemaOf operation) = false ->
      TypeScript.getReturnType e = Ok "any")
  /\ (forall text : string,
        field (Props.successSchemaOf operation) "$ref" = Str text ->
        nonEmpty text = true ->
        TypeScript.getReturnType e = Ok (lastPart (split "/" text))).
Proof.
  intro H. apply parseEndpoint_parts in H. destruct H as (_ & _ & H & _).
  assert (Hs : Spec.successSchema e = Props.successSchemaOf operation).
  { unfold Spec.successSchema, Props.successSchemaOf, Parser.parseResponses in *.
    destruct (truthy (field operation "responses")); cbn [negb] in H.
    - apply forEach_Forall2 in H. apply find_success. exact H.
    - injection H as <-. reflexivity. }
  split; [exact Hs |]. rewrite getReturnType_eq, Hs. cbv zeta. split.
  - intros ->. reflexivity.
  - intros text Href Hne.
    assert (Ht : truthy (Props.successSchemaOf operation) = true).
    { destruct (Props.successSchemaOf operation) eqn:E; try reflexivity;
        (rewrite field_not_object in Href;
         [discriminate Href | reflexivity | intros fs Hfs; discriminate Hfs]). }
    rewrite Ht, (get_truthy _ _ Ht), Href. cbn [negb JS.bind truthy asString].
    rewrite Hne. reflexivity.
Qed.

(** An operation that answers 201 with a Pet as JSON or a string as text,
    and 202 with a Job, returns a Pet. *)
Lemma successSchema_of_operation_witness :
  exists e : ParsedEndpoint.t,
    Parser.parseEndpoint "/pets" "POST" Props.createPet = Ok e
    /\ Spec.successSchema e = Spec.refTo "Pet"
    /\ TypeScript.getReturnType e = Ok "Pet".
Proof.
  eexists. split; [reflexivity |].
  destruct (successSchema_of_operation "/pets" "POST" Props.createPet _ eq_refl)
    as (Hs & _ & Href).
  split; [exact Hs |].
  exact (Href "#/components/schemas/Pet" eq_refl eq_refl).
Defined.

(* ================================================================== *)
(** * Further properties of the generation context *)
(* ================================================================== *)

Lemma chars_length (s : string) : length (chars s) = String.length s.
Proof.
  unfold chars. rewrite length_map.
  induction s as [| c s IH]; simpl; [reflexivity | now rewrite IH].
Qed.

Lemma iterate_tags (e : ParsedEndpoint.t) :
  (Props.iterableTags e = true /\
   exists l, iterate (ParsedEndpoint.tags e) = Ok l /\ length l = Props.tagCount e)
  \/ (Props.iterableTags e = false
      /\ iterate (ParsedEndpoint.tags e) = Throw TypeError).
Proof.
  unfold Props.iterableTags, Props.tagCount.
  destruct (ParsedEndpoint.tags e) as [| | b | n | s | l | fs]; simpl;
    try (right; split; reflexivity); left; split; try reflexivity.
  - exists (chars s). split; [reflexivity | apply chars_length].
  - exists l. split; reflexivity.
Qed.

Lemma addToBucket_sizes (tag : value) (e : ParsedEndpoint.t) (m : TagMap) :
  Props.bucketSizes (Engine.addToBucket tag e m) = S (Props.bucketSizes m).
Proof.
  unfold Props.bucketSizes.
  induction m as [| [k b] m IH]; [reflexivity |].
  simpl. destruct (Engine.sameValueZero k tag); simpl.
  - rewrite !length_app. simpl. lia.
  - rewrite !length_app in *. rewrite IH. lia.
Qed.

Lemma addToBucket_inhabited (tag : value) (e : ParsedEndpoint.t) (m : TagMap) :
  Forall (fun entry => snd entry <> []) m ->
  Forall (fun entry => snd entry <> []) (Engine.addToBucket tag e m).
Proof.
  induction 1 as [| [k b] m Hb Hm IH]; simpl.
  - constructor; [discriminate | constructor].
  - destruct (Engine.sameValueZero k tag); constructor; simpl; try assumption.
    intro E. apply app_eq_nil in E. destruct E as (_ & E). discriminate E.
Qed.

Lemma fold_addToBucket (e : ParsedEndpoint.t) (tags : list value) (m : TagMap) :
  let m' := fold_left (fun m tag => Engine.addToBucket tag e m) tags m in
  Props.bucketSizes m' = Props.bucketSizes m + length tags
  /\ (Forall (fun entry => snd entry <> []) m ->
      Forall (fun entry => snd entry <> []) m').
Proof.
  revert m. induction tags as [| t tags IH]; intro m; simpl.
  - split; [lia | tauto].
  - destruct (IH (Engine.addToBucket t e m)) as (Hsize & Hne).
    rewrite addToBucket_sizes in Hsize. split; [simpl in *; lia |].
    intro H. apply Hne. apply addToBucket_inhabited. exact H.
Qed.

Lemma groupEndpoints_sizes (es : list ParsedEndpoint.t) (m m' : TagMap) :
  Engine.groupEndpoints m es = Ok m' ->
  Props.bucketSizes m' = Props.bucketSizes m + list_sum (map Props.tagCount es)
  /\ (Forall (fun entry => snd entry <> []) m ->
      Forall (fun entry => snd entry <> []) m').
Proof.
  revert m. induction es as [| e es IH]; simpl; intros m H.
  - injection H as <-. split; [lia | tauto].
  - apply bind_Ok in H. destruct H as (m1 & Hadd & H).
    unfold Engine.addEndpoint in Hadd.
    destruct (iterate_tags e) as [(_ & l & Hl & Hlen) | (_ & Hl)];
      rewrite Hl in Hadd; [| discriminate Hadd].
    cbn [JS.bind] in Hadd. injection Hadd as <-.
    destruct (fold_addToBucket e l m) as (Hsize & Hne).
    destruct (IH _ H) as (Hsize' & Hne'). split; [lia | tauto].
Qed.

Lemma groupEndpoints_iterable (es : list ParsedEndpoint.t) (m : TagMap) :
  if forallb Props.iterableTags es
  then exists m', Engine.groupEndpoints m es = Ok m'
  else Engine.groupEndpoints m es = Throw TypeError.
Proof.
  revert m. induction es as [| e es IH]; intro m; simpl.
  - exists m. reflexivity.
  - unfold Engine.addEndpoint.
    destruct (iterate_tags e) as [(Hi & l & Hl & _) | (Hi & Hl)];
      rewrite Hi, Hl; cbn [andb JS.bind]; [apply IH | reflexivity].
Qed.

(** X5.  [buildContext] neither loses nor invents an occurrence, whatever
    the tags are: it succeeds exactly when the tags of every endpoint can
    be iterated (an array, or a string, whose characters then are the
    tags), and fails with a TypeError otherwise; when it succeeds no bucket
    is empty, and the buckets together hold as many endpoints as there are
    pairs of an endpoint and one of its tags. *)
Theorem buildContext_conserves (config : GeneratorConfig.t) (spec : ParsedAPISpec.t) :
  (forall context : GeneratorContext.t,
      Engine.buildContext config spec = Ok context ->
      Forall (fun entry => snd entry <> [])
        (GeneratorContext.endpointsByTag context)
      /\ Props.bucketSizes (GeneratorContext.endpointsByTag context)
         = list_sum (map Props.tagCount (ParsedAPISpec.endpoints spec)))
  /\ (forallb Props.iterableTags (ParsedAPISpec.endpoints spec) = true ->
      exists context : GeneratorContext.t,
        Engine.buildContext config spec = Ok context)
  /\ (forallb Props.iterableTags (ParsedAPISpec.endpoints spec) = false ->
      Engine.buildContext config spec = Throw TypeError).
Proof.
  unfold Engine.buildContext.
  pose proof (groupEndpoints_iterable (ParsedAPISpec.endpoints spec) []) as Hcases.
  split; [| split].
  - intros context H. apply bind_Ok in H. destruct H as (m & Hm & H).
    injection H as <-. cbn [GeneratorContext.endpointsByTag].
    destruct (groupEndpoints_sizes _ _ _ Hm) as (Hsize & Hne).
    split; [apply Hne; constructor | exact Hsize].
  - intro Hi. rewrite Hi in Hcases. destruct Hcases as (m & ->).
    eexists. reflexivity.
  - intro Hi. rewrite Hi in Hcases. rewrite Hcases. reflexivity.
Qed.

(** The endpoint tagged by the string ab is in the two buckets a and b; a
    number for tags makes the construction fail. *)
Lemma buildContext_conserves_witness :
  (exists context : GeneratorContext.t,
      Engine.buildContext Spec.sampleConfig
        (Spec.specOf [Spec.petsAndStore; Props.stringTagged]) = Ok context
      /\ map fst (GeneratorContext.endpointsByTag context)
         = [Str "pets"; Str "store"; Str "a"; Str "b"]
      /\ Props.bucketSizes (GeneratorContext.endpointsByTag context) = 4)
  /\ Engine.buildContext Spec.sampleConfig
       (Spec.specOf [Spec.petsAndStore; Props.numberTagged]) = Throw TypeError.
Proof.
  split.
  - eexists. split; [reflexivity |]. split; [reflexivity |].
    exact (proj2 (proj1 (buildContext_conserves Spec.sampleConfig
                           (Spec.specOf [Spec.petsAndStore; Props.stringTagged]))
                    _ eq_refl)).
  - exact (proj2 (proj2 (buildContext_conserves Spec.sampleConfig
                           (Spec.specOf [Spec.petsAndStore; Props.numberTagged])))
             eq_refl).
Defined.

(* ================================================================== *)
(** * Further properties of the generator: names *)
(* ================================================================== *)

(** ** Characters *)

Ltac each_character c :=
  destruct c as [[] [] [] [] [] [] [] []]; vm_compute;
  try reflexivity; intros; try discriminate; try reflexivity.

Lemma alnum_not_separator (c : ascii) :
  isAlnum c = true -> TypeScript.isSeparator c = false.
Proof. each_character c. Qed.

Lemma alnum_not_terminator (c : ascii) :
  isAlnum c = true -> isLineTerminator c = false.
Proof. each_character c. Qed.

Lemma upper_alnum (c : ascii) : isAlnum c = true -> isAlnum (upper c) = true.
Proof. each_character c. Qed.

Lemma lower_alnum (c : ascii) : isAlnum c = true -> isAlnum (lower c) = true.
Proof. each_character c. Qed.

Lemma upper_other (c : ascii) : isAlnum c = false -> upper c = c.
Proof. each_character c. Qed.

Lemma upper_upper (c : ascii) : upper (upper c) = upper c.
Proof. each_character c. Qed.

Lemma punctuation_not_alnum (c : ascii) :
  Props.isPunctuation c = true -> isAlnum c = false.
Proof.
  unfold Props.isPunctuation. intro H. apply andb_prop in H.
  destruct H as (H & _). apply negb_true_iff in H. exact H.
Qed.

Lemma allChars_append (p : ascii -> bool) (a b : string) :
  Spec.allChars p (a ++ b) = Spec.allChars p a && Spec.allChars p b.
Proof.
  induction a as [| c a IH]; simpl; [reflexivity |].
  rewrite IH. apply andb_assoc.
Qed.

Lemma allChars_impl (p q : ascii -> bool) (s : string) :
  (forall c, p c = true -> q c = true) ->
  Spec.allChars p s = true -> Spec.allChars q s = true.
Proof.
  intro Hpq. induction s as [| c s IH]; simpl; [reflexivity |].
  intro H. apply andb_prop in H. destruct H as (Hc & Hs).
  rewrite (Hpq c Hc), (IH Hs). reflexivity.
Qed.

(** ** The first replacement: a separator and the character after it *)

Lemma replaceSeparators_keep (c : ascii) (s : string) :
  TypeScript.isSeparator c = false ->
  TypeScript.replaceSeparators (String c s)
  = String c (TypeScript.replaceSeparators s).
Proof.
  intro Hc. cbn [TypeScript.replaceSeparators]. destruct s as [| d s].
  - reflexivity.
  - rewrite Hc. reflexivity.
Qed.

Lemma replaceSeparators_word (w s : string) :
  Spec.allChars isAlnum w = true ->
  TypeScript.replaceSeparators (w ++ s) = w ++ TypeScript.replaceSeparators s.
Proof.
  induction w as [| c w IH]; intro H; [reflexivity |].
  simpl in H. apply andb_prop in H. destruct H as (Hc & Hw).
  change (String c w ++ s) with (String c (w ++ s)).
  rewrite replaceSeparators_keep by (apply alnum_not_separator; exact Hc).
  rewrite IH by exact Hw. reflexivity.
Qed.

(** What the first replacement leaves of a gap and of the first character
    [d] of the word after it: characters that are no letters or digits, and
    [d] or its upper case, the upper case when nothing is left of the gap. *)
Lemma replaceSeparators_gap (n : nat) :
  forall (g : string) (d : ascii) (s : string),
    String.length g <= n ->
    Spec.allChars (fun c => negb (isAlnum c)) g = true ->
    isAlnum d = true ->
    exists (g' : string) (d' : ascii),
      TypeScript.replaceSeparators (g ++ String d s)
      = g' ++ String d' (TypeScript.replaceSeparators s)
      /\ Spec.allChars (fun c => negb (isAlnum c)) g' = true
      /\ upper d' = upper d
      /\ (g <> "" -> g' = "" -> d' = upper d).
Proof.
  induction n as [| n IH]; intros g d s Hlen Hg Hd.
  - destruct g as [| c g]; [| simpl in Hlen; lia].
    exists "", d. cbn [append].
    rewrite replaceSeparators_keep by (apply alnum_not_separator; exact Hd).
    repeat split; try reflexivity. intro H. contradiction H. reflexivity.
  - destruct g as [| c g1].
    + exists "", d. cbn [append].
      rewrite replaceSeparators_keep by (apply alnum_not_separator; exact Hd).
      repeat split; try reflexivity. intro H. contradiction H. reflexivity.
    + simpl in Hlen, Hg. apply andb_prop in Hg. destruct Hg as (Hc & Hg1).
      apply negb_true_iff in Hc.
      assert (Hkeep :
                exists (g' : string) (d' : ascii),
                  String c (TypeScript.replaceSeparators (g1 ++ String d s))
                  = g' ++ String d' (TypeScript.replaceSeparators s)
                  /\ Spec.allChars (fun c => negb (isAlnum c)) g' = true
                  /\ upper d' = upper d
                  /\ (String c g1 <> "" -> g' = "" -> d' = upper d)).
      { destruct (IH g1 d s) as (g' & d' & E & Hg' & Hd' & _);
          [lia | exact Hg1 | exact Hd |].
        exists (String c g'), d'. rewrite E. cbn [append].
        repeat split; try assumption.
        - simpl. rewrite Hc, Hg'. reflexivity.
        - intros _ H. discriminate H. }
      change (String c g1 ++ String d s) with (String c (g1 ++ String d s)).
      destruct (TypeScript.isSeparator c) eqn:Hsep;
        [| rewrite replaceSeparators_keep by exact Hsep; exact Hkeep].
      destruct g1 as [| e g2].
      * exists "", (upper d). cbn [append TypeScript.replaceSeparators].
        rewrite Hsep, (alnum_not_terminator d Hd). cbn [negb andb].
        repeat split; try reflexivity. apply upper_upper.
      * change (String e g2 ++ String d s) with (String e (g2 ++ String d s)) in *.
        destruct (isLineTerminator e) eqn:Hterm.
        -- cbn [TypeScript.replaceSeparators]. rewrite Hsep, Hterm.
           cbn [negb andb]. exact Hkeep.
        -- simpl in Hg1. apply andb_prop in Hg1. destruct Hg1 as (He & Hg2).
           apply negb_true_iff in He.
           destruct (IH g2 d s) as (g' & d' & E & Hg' & Hd' & _);
             [simpl in Hlen; lia | exact Hg2 | exact Hd |].
           exists (String e g'), d'.
           cbn [TypeScript.replaceSeparators]. rewrite Hsep, Hterm.
           cbn [negb andb]. rewrite (upper_other e He), E. cbn [append].
           repeat split; try assumption.
           ++ simpl. rewrite He, Hg'. reflexivity.
           ++ intros _ H. discriminate H.
Qed.

(** ** The third replacement: a run of other characters and the character
       after it *)

Lemma replaceRuns_keep (c : ascii) (s : string) :
  isAlnum c = true ->
  TypeScript.replaceRuns 0 (String c s) = String c (TypeScript.replaceRuns 0 s).
Proof. intro Hc. cbn [TypeScript.replaceRuns]. rewrite Hc. reflexivity. Qed.

Lemma replaceRuns_word (w s : string) :
  Spec.allChars isAlnum w = true ->
  TypeScript.replaceRuns 0 (w ++ s) = w ++ TypeScript.replaceRuns 0 s.
Proof.
  induction w as [| c w IH]; intro H; [reflexivity |].
  simpl in H. apply andb_prop in H. destruct H as (Hc & Hw).
  change (String c w ++ s) with (String c (w ++ s)).
  rewrite replaceRuns_keep by exact Hc. rewrite IH by exact Hw. reflexivity.
Qed.

Lemma replaceRuns_alnum (w : string) :
  Spec.allChars isAlnum w = true -> TypeScript.replaceRuns 0 w = w.
Proof.
  intro H. rewrite <- (append_nil_r w) at 1.
  rewrite replaceRuns_word by exact H. apply append_nil_r.
Qed.

Lemma longestRun_gap (g : string) (d : ascii) (s : string) :
  Spec.allChars (fun c => negb (isAlnum c)) g = true ->
  isAlnum d = true ->
  TypeScript.longestRun (g ++ String d s) = Some (d, S (String.length g)).
Proof.
  intros Hg Hd. induction g as [| c g IH].
  - cbn [append TypeScript.longestRun]. rewrite Hd. reflexivity.
  - simpl in Hg. apply andb_prop in Hg. destruct Hg as (Hc & Hg).
    apply negb_true_iff in Hc.
    change (String c g ++ String d s) with (String c (g ++ String d s)).
    cbn [TypeScript.longestRun]. rewrite Hc, (IH Hg). reflexivity.
Qed.

Lemma replaceRuns_skip (g s : string) :
  TypeScript.replaceRuns (String.length g) (g ++ s) = TypeScript.replaceRuns 0 s.
Proof.
  induction g as [| c g IH]; [reflexivity | exact IH].
Qed.

Lemma replaceRuns_gap (g : string) (d : ascii) (s : string) :
  g <> "" ->
  Spec.allChars (fun c => negb (isAlnum c)) g = true ->
  isAlnum d = true ->
  TypeScript.replaceRuns 0 (g ++ String d s)
  = String (upper d) (TypeScript.replaceRuns 0 s).
Proof.
  intros Hne Hg Hd. destruct g as [| c g]; [contradiction Hne; reflexivity |].
  simpl in Hg. apply andb_prop in Hg. destruct Hg as (Hc & Hg).
  apply negb_true_iff in Hc.
  change (String c g ++ String d s) with (String c (g ++ String d s)).
  cbn [TypeScript.replaceRuns]. rewrite Hc, (longestRun_gap g d s Hg Hd).
  f_equal.
  change (S (String.length g)) with (String.length (String c g)).
  replace (g ++ String d s) with ((g ++ String d "") ++ s)
    by (rewrite append_assoc; reflexivity).
  replace (String.length (String c g)) with (String.length (g ++ String d "")).
  - apply replaceRuns_skip.
  - clear. induction g as [| x g IH]; simpl; [reflexivity | now rewrite IH].
Qed.

(** ** Phrases *)

Lemma word_inv (w : string) :
  Props.isWord w = true ->
  exists (c : ascii) (t : string),
    w = String c t /\ isAlnum c = true /\ Spec.allChars isAlnum t = true.
Proof.
  unfold Props.isWord. destruct w as [| c t]; [intro H; discriminate H |].
  simpl. intro H. apply andb_prop in H. exists c, t. tauto.
Qed.

Lemma gap_inv (g : string) :
  Props.isGap g = true ->
  g <> "" /\ Spec.allChars (fun c => negb (isAlnum c)) g = true.
Proof.
  unfold Props.isGap. intro H. apply andb_prop in H. destruct H as (Hne & Hg).
  split; [apply nonEmpty_true; exact Hne |].
  revert Hg. apply allChars_impl. intros c Hc.
  rewrite (punctuation_not_alnum c Hc). reflexivity.
Qed.

Lemma concat_cons (s : string) (l : list string) :
  String.concat "" (s :: l) = s ++ String.concat "" l.
Proof.
  destruct l as [| x l]; simpl; [symmetry; apply append_nil_r | reflexivity].
Qed.

Lemma replace_rest (rest : list (string * string)) :
  Props.gapsAndWords rest = true ->
  forall w : string,
    Spec.allChars isAlnum w = true ->
    TypeScript.replaceRuns 0 (TypeScript.replaceSeparators (Props.phrase w rest))
    = w ++ Props.capitalized rest.
Proof.
  unfold Props.phrase, Props.capitalized.
  induction rest as [| [g wd] rest IH]; intros Hrest w Hw.
  - cbn [map String.concat]. rewrite append_nil_r.
    rewrite <- (append_nil_r w) at 1.
    rewrite replaceSeparators_word by exact Hw.
    cbn [TypeScript.replaceSeparators]. rewrite append_nil_r.
    apply replaceRuns_alnum. exact Hw.
  - simpl in Hrest. apply andb_prop in Hrest. destruct Hrest as (Hp & Hrest).
    apply andb_prop in Hp. destruct Hp as (Hg & Hwd).
    apply gap_inv in Hg. destruct Hg as (Hne & Hg).
    apply word_inv in Hwd. destruct Hwd as (d & t & -> & Hd & Ht).
    cbn [map fst snd]. rewrite !concat_cons.
    rewrite replaceSeparators_word by exact Hw.
    rewrite replaceRuns_word by exact Hw.
    rewrite append_assoc.
    change (String d t ++ ?x) with (String d (t ++ x)).
    destruct (replaceSeparators_gap (String.length g) g d
                (t ++ String.concat "" (map (fun p => fst p ++ snd p) rest))
                (le_n _) Hg Hd)
      as (g' & d' & E & Hg' & Hd' & Hempty).
    rewrite E. specialize (IH Hrest t Ht).
    unfold Parser.capitalize at 1.
    cbn [charAt0 slice1 toUpperCase mapChars append].
    rewrite <- IH. f_equal.
    destruct g' as [| c g'].
    + rewrite (Hempty Hne eq_refl). cbn [append].
      apply replaceRuns_keep. apply upper_alnum. exact Hd.
    + rewrite <- Hd'. apply replaceRuns_gap; [discriminate | exact Hg' |].
      assert (Hcase : isAlnum (upper d') = true)
        by (rewrite Hd'; apply upper_alnum; exact Hd).
      destruct (isAlnum d') eqn:Hd''; [reflexivity |].
      rewrite (upper_other d' Hd'') in Hcase. rewrite Hcase in Hd''.
      discriminate Hd''.
Qed.

(** X6.  [toPascalCase] and [toCamelCase] on a name made of words (letters
    and digits) with gaps of any other ASCII characters between them,
    hyphens, underscores, spaces, dots or several of these: the gaps
    disappear, every word after the first begins with its first character
    in upper case, and the first word begins in upper case for
    [toPascalCase] and in lower case for [toCamelCase]; no other character
    changes. *)
Theorem naming_of_phrases (w : string) (rest : list (string * string)) :
  Props.isWord w = true ->
  Props.gapsAndWords rest = true ->
  TypeScript.toPascalCase (Str (Props.phrase w rest))
  = Ok (Parser.capitalize w ++ Props.capitalized rest)
  /\ TypeScript.toCamelCase (Str (Props.phrase w rest))
     = Ok (Props.uncapitalize w ++ Props.capitalized rest).
Proof.
  intros Hw Hrest.
  apply word_inv in Hw. destruct Hw as (c & t & -> & Hc & Ht).
  pose proof (replace_rest rest Hrest t Ht) as Htail.
  unfold TypeScript.toPascalCase, TypeScript.toCamelCase,
    TypeScript.pascalCase, TypeScript.camelCase.
  cbn [asString JS.bind].
  assert (Hfirst : TypeScript.replaceSeparators
                     (Props.phrase (String c t) rest)
                   = String c (TypeScript.replaceSeparators (Props.phrase t rest))).
  { unfold Props.phrase.
    change (String c t ++ ?x) with (String c (t ++ x)).
    apply replaceSeparators_keep. apply alnum_not_separator. exact Hc. }
  rewrite Hfirst. unfold TypeScript.replaceFirst.
  rewrite (alnum_not_terminator c Hc).
  rewrite !replaceRuns_keep, Htail
    by (first [apply upper_alnum | apply lower_alnum]; exact Hc).
  split; reflexivity.
Qed.

(** The tag [pet-store_api v2] names the class PetStoreApiV2 and the
    property petStoreApiV2. *)
Lemma naming_of_phrases_witness :
  TypeScript.toPascalCase (Str "pet-store_api v2") = Ok "PetStoreApiV2"
  /\ TypeScript.toCamelCase (Str "pet-store_api v2") = Ok "petStoreApiV2".
Proof.
  exact (naming_of_phrases "pet" [("-", "store"); ("_", "api"); (" ", "v2")]
           eq_refl eq_refl).
Defined.

(* ================================================================== *)
(** * Further properties of the generator: descriptions *)
(* ================================================================== *)

Lemma split_parts (sep : ascii) (s : string) :
  Forall (fun part => Spec.allChars (fun c => negb (Ascii.eqb c sep)) part = true)
    (split sep s).
Proof.
  induction s as [| c s IH]; simpl.
  - constructor; [reflexivity | constructor].
  - destruct (Ascii.eqb c sep) eqn:Hc.
    + constructor; [reflexivity | exact IH].
    + destruct (split sep s) as [| h t].
      * constructor; [simpl; rewrite Hc; reflexivity | constructor].
      * inversion IH as [| ? ? Hh Ht]; subst.
        constructor; [simpl; rewrite Hc, Hh; reflexivity | exact Ht].
Qed.

Lemma split_whole (sep : ascii) (s : string) :
  Spec.allChars (fun c => negb (Ascii.eqb c sep)) s = true -> split sep s = [s].
Proof.
  induction s as [| c s IH]; simpl; [reflexivity |].
  intro H. apply andb_prop in H. destruct H as (Hc & Hs).
  apply negb_true_iff in Hc. rewrite Hc, (IH Hs). reflexivity.
Qed.

Lemma trimStart_chars (p : ascii -> bool) (s : string) :
  Spec.allChars p s = true -> Spec.allChars p (trimStart s) = true.
Proof.
  induction s as [| c s IH]; simpl; [reflexivity |].
  intro H. destruct (isSpace c).
  - apply andb_prop in H. apply IH. tauto.
  - exact H.
Qed.

Lemma trimEnd_chars (p : ascii -> bool) (s : string) :
  Spec.allChars p s = true -> Spec.allChars p (trimEnd s) = true.
Proof.
  induction s as [| c s IH]; simpl; [reflexivity |].
  intro H. apply andb_prop in H. destruct H as (Hc & Hs).
  specialize (IH Hs). destruct (trimEnd s) as [| d t].
  - destruct (isSpace c); simpl; [reflexivity | rewrite Hc; reflexivity].
  - simpl in *. rewrite Hc. exact IH.
Qed.

Lemma trimStart_first (s : string) : Props.firstIs isSpace (trimStart s) = false.
Proof.
  induction s as [| c s IH]; simpl; [reflexivity |].
  destruct (isSpace c) eqn:Hc; [exact IH | simpl; exact Hc].
Qed.

Lemma trimEnd_first (s : string) :
  Props.firstIs isSpace s = false -> Props.firstIs isSpace (trimEnd s) = false.
Proof.
  destruct s as [| c s]; simpl; [reflexivity |].
  intro Hc. destruct (trimEnd s); [rewrite Hc; exact Hc | exact Hc].
Qed.

Lemma trimEnd_last (s : string) : Props.lastIs isSpace (trimEnd s) = false.
Proof.
  induction s as [| c s IH]; simpl; [reflexivity |].
  destruct (trimEnd s) as [| d t].
  - destruct (isSpace c) eqn:Hc; simpl; [reflexivity | exact Hc].
  - exact IH.
Qed.

Lemma trimStart_same (s : string) :
  Props.firstIs isSpace s = false -> trimStart s = s.
Proof. destruct s as [| c s]; simpl; [reflexivity | intros ->; reflexivity]. Qed.

Lemma trimEnd_same (s : string) :
  Props.lastIs isSpace s = false -> trimEnd s = s.
Proof.
  induction s as [| c s IH]; [reflexivity |].
  destruct s as [| d s].
  - simpl. intros ->. reflexivity.
  - intro H. change (Props.lastIs isSpace (String d s) = false) in H.
    cbn [trimEnd] in IH |- *. rewrite (IH H). reflexivity.
Qed.

Lemma trim_ends (s : string) :
  Props.firstIs isSpace (trim s) = false /\ Props.lastIs isSpace (trim s) = false.
Proof.
  unfold trim. split; [apply trimEnd_first, trimStart_first | apply trimEnd_last].
Qed.

Lemma lastIs_append (p : ascii -> bool) (a b : string) :
  b <> "" -> Props.lastIs p (a ++ b) = Props.lastIs p b.
Proof.
  intro Hb. induction a as [| c a IH]; [reflexivity |].
  change (String c a ++ b) with (String c (a ++ b)).
  destruct (a ++ b) eqn:E.
  - destruct a; [simpl in E; contradiction | discriminate E].
  - exact IH.
Qed.

Lemma firstIs_append (p : ascii -> bool) (a b : string) :
  a <> "" -> Props.firstIs p (a ++ b) = Props.firstIs p a.
Proof. destruct a; [intro H; contradiction H; reflexivity | reflexivity]. Qed.

(** The pieces [formatDescription] joins: no line feed inside, no white
    space at either end, none empty. *)
Lemma join_pieces (pieces : list string) :
  Forall (fun piece => Props.noLineFeed piece = true
                       /\ Props.firstIs isSpace piece = false
                       /\ Props.lastIs isSpace piece = false
                       /\ piece <> "") pieces ->
  pieces <> [] ->
  Props.noLineFeed (JS.join " " pieces) = true
  /\ Props.firstIs isSpace (JS.join " " pieces) = false
  /\ Props.lastIs isSpace (JS.join " " pieces) = false
  /\ JS.join " " pieces <> "".
Proof.
  induction 1 as [| piece pieces (Hfeed & Hfirst & Hlast & Hne) Hrest IH];
    intro Hsome; [contradiction Hsome; reflexivity |].
  destruct pieces as [| next pieces].
  - simpl. tauto.
  - destruct IH as (IHfeed & IHfirst & IHlast & IHne); [discriminate |].
    change (JS.join " " (piece :: next :: pieces))
      with (piece ++ " " ++ JS.join " " (next :: pieces)).
    repeat split.
    + unfold Props.noLineFeed in *. rewrite !allChars_append.
      rewrite Hfeed, IHfeed. reflexivity.
    + rewrite firstIs_append by exact Hne. exact Hfirst.
    + rewrite lastIs_append.
      * rewrite lastIs_append by exact IHne. exact IHlast.
      * destruct (JS.join " " (next :: pieces)); discriminate.
    + destruct piece; [contradiction Hne; reflexivity | discriminate].
Qed.

Lemma formatDescription_line (text : string) :
  exists line : string,
    TypeScript.formatDescription (Str text) = Ok line
    /\ Props.noLineFeed line = true
    /\ Props.firstIs isSpace line = false
    /\ Props.lastIs isSpace line = false.
Proof.
  unfold TypeScript.formatDescription. cbn [truthy asString].
  destruct (nonEmpty text); cbn [negb JS.bind]; [| exists ""; tauto].
  eexists. split; [reflexivity |].
  set (pieces := filter nonEmpty (map trim (split "010" text))).
  assert (Hpieces :
            Forall (fun piece => Props.noLineFeed piece = true
                                 /\ Props.firstIs isSpace piece = false
                                 /\ Props.lastIs isSpace piece = false
                                 /\ piece <> "") pieces).
  { apply Forall_forall. intros piece Hin. unfold pieces in Hin.
    apply filter_In in Hin. destruct Hin as (Hin & Hne).
    apply in_map_iff in Hin. destruct Hin as (part & <- & Hpart).
    pose proof (split_parts "010" text) as Hparts.
    rewrite Forall_forall in Hparts. specialize (Hparts part Hpart).
    destruct (trim_ends part) as (Hfirst & Hlast).
    repeat split; try assumption.
    - unfold Props.noLineFeed, trim. apply trimEnd_chars, trimStart_chars.
      exact Hparts.
    - apply nonEmpty_true. exact Hne. }
  clearbody pieces. destruct pieces as [| piece others]; [simpl; tauto |].
  destruct (join_pieces _ Hpieces) as (H1 & H2 & H3 & _); [discriminate | tauto].
Qed.

Lemma formatDescription_fixed (line : string) :
  Props.noLineFeed line = true ->
  Props.firstIs isSpace line = false ->
  Props.lastIs isSpace line = false ->
  TypeScript.formatDescription (Str line) = Ok line.
Proof.
  intros Hfeed Hfirst Hlast.
  unfold TypeScript.formatDescription. cbn [truthy asString].
  destruct (nonEmpty line) eqn:Hne; cbn [negb JS.bind].
  - rewrite (split_whole "010" line Hfeed). cbn [map]. unfold trim.
    rewrite (trimStart_same line Hfirst), (trimEnd_same line Hlast).
    cbn [filter]. rewrite Hne. reflexivity.
  - unfold nonEmpty in Hne. apply negb_false_iff, String.eqb_eq in Hne.
    rewrite Hne. reflexivity.
Qed.

(** X7.  [formatDescription] turns a description into one line: its result
    holds no line feed and neither begins nor ends with white space, and
    formatting it again changes nothing.  This line is the description of
    the method in the data of the client template.  Stated for ASCII
    descriptions, whose white space is the white space of the model. *)
Theorem formatDescription_single_line (text : string) :
  Props.isAscii text = true ->
  exists line : string,
    TypeScript.formatDescription (Str text) = Ok line
    /\ Props.noLineFeed line = true
    /\ Props.firstIs isSpace line = false
    /\ Props.lastIs isSpace line = false
    /\ TypeScript.formatDescription (Str line) = Ok line
    /\ (forall (context : GeneratorContext.t) (e : ParsedEndpoint.t)
               (view : EndpointView.t),
           ParsedEndpoint.description e = Str text ->
           TypeScript.formatEndpoint context e = Ok view ->
           EndpointView.description view = line).
Proof.
  intros _.
  destruct (formatDescription_line text) as (line & Hline & Hfeed & Hfirst & Hlast).
  exists line. repeat split; try assumption.
  - apply formatDescription_fixed; assumption.
  - intros context e view He H. unfold TypeScript.formatEndpoint in H.
    rewrite He, Hline in H.
    repeat (apply bind_Ok in H; destruct H as (? & ? & H)).
    injection H as <-. cbn.
    match goal with
    | E : Ok line = Ok _ |- _ => injection E as <-
    end.
    reflexivity.
Qed.

(** A description of three lines, the second blank, becomes the line
    [List the pets. Paged by cursor.]. *)
Lemma formatDescription_single_line_witness :
  TypeScript.formatDescription (Str Props.listing)
  = Ok "List the pets. Paged by cursor."
  /\ TypeScript.formatDescription (Str "List the pets. Paged by cursor.")
     = Ok "List the pets. Paged by cursor.".
Proof.
  destruct (formatDescription_single_line Props.listing eq_refl)
    as (line & Hline & _ & _ & _ & Hfixed & _).
  assert (E : line = "List the pets. Paged by cursor.").
  { assert (H : TypeScript.formatDescription (Str Props.listing)
                = Ok "List the pets. Paged by cursor.") by reflexivity.
    rewrite Hline in H. injection H as H. exact H. }
  rewrite E in Hline, Hfixed. split; [exact Hline | exact Hfixed].
Defined.

(* ================================================================== *)
(** * Further properties of the generator: the artifacts *)
(* ================================================================== *)

(** ** Paths *)

Lemma split_nonempty (sep : ascii) (s : string) : split sep s <> [].
Proof.
  destruct s as [| c s]; simpl; [discriminate |].
  destruct (Ascii.eqb c sep); [discriminate |].
  destruct (split sep s); discriminate.
Qed.

Lemma join_split (s : string) : JS.join "/" (split "/" s) = s.
Proof.
  induction s as [| c s IH]; [reflexivity |].
  cbn [split]. destruct (Ascii.eqb_spec c "/") as [-> | Hc].
  - pose proof (split_nonempty "/" s) as Hne.
    destruct (split "/" s) as [| h t]; [contradiction Hne; reflexivity |].
    change (JS.join "/" ("" :: h :: t)) with ("" ++ "/" ++ JS.join "/" (h :: t)).
    rewrite IH. reflexivity.
  - pose proof (split_nonempty "/" s) as Hne.
    destruct (split "/" s) as [| h t]; [contradiction Hne; reflexivity |].
    destruct t as [| h' t].
    + simpl in IH |- *. rewrite IH. reflexivity.
    + change (JS.join "/" (String c h :: h' :: t))
        with (String c (h ++ "/" ++ JS.join "/" (h' :: t))).
      change (JS.join "/" (h :: h' :: t))
        with (h ++ "/" ++ JS.join "/" (h' :: t)) in IH.
      rewrite IH. reflexivity.
Qed.

Lemma split_append (a f : string) :
  Spec.noSlash f = true ->
  split "/" (a ++ String "/" f) = (split "/" a ++ [f])%list.
Proof.
  intro Hf. induction a as [| c a IH].
  - cbn [append split]. rewrite Ascii.eqb_refl.
    assert (E : split "/" f = [f]).
    { apply split_whole. exact Hf. }
    rewrite E. reflexivity.
  - change (String c a ++ String "/" f) with (String c (a ++ String "/" f)).
    cbn [split]. rewrite IH. destruct (Ascii.eqb c "/"); [reflexivity |].
    pose proof (split_nonempty "/" a) as Hne.
    destruct (split "/" a) as [| h t]; [contradiction Hne; reflexivity |].
    reflexivity.
Qed.

Lemma removelast_last {A : Type} (l : list A) (x : A) :
  removelast (l ++ [x]) = l.
Proof. apply removelast_last. Qed.

Lemma dirname_pathJoin (dir filename : string) :
  nonEmpty dir = true -> nonEmpty filename = true ->
  Spec.noSlash filename = true ->
  Node.dirname (Node.pathJoin dir filename) = dir.
Proof.
  intros Hd Hf Hslash. unfold Node.pathJoin. rewrite Hd, Hf.
  unfold Node.dirname. change (dir ++ "/" ++ filename) with (dir ++ String "/" filename).
  rewrite (split_append dir filename Hslash), removelast_last.
  pose proof (split_nonempty "/" dir) as Hne.
  destruct (split "/" dir) as [| h t] eqn:E; [contradiction Hne; reflexivity |].
  rewrite <- E, join_split, Hd. reflexivity.
Qed.

Lemma pathJoin_nonEmpty (a b : string) : nonEmpty (Node.pathJoin a b) = true.
Proof.
  unfold Node.pathJoin.
  destruct (nonEmpty a) eqn:Ha, (nonEmpty b) eqn:Hb; try assumption; try reflexivity.
  destruct a; [discriminate Ha | reflexivity].
Qed.

(** ** Events in order *)

Lemma isPrefix_nil (l : list string) : Props.isPrefix l [] = true -> l = [].
Proof. destruct l; [reflexivity | intro H; discriminate H]. Qed.

Lemma isPrefix_refl (l : list string) : Props.isPrefix l l = true.
Proof.
  induction l as [| x l IH]; simpl; [reflexivity |].
  rewrite String.eqb_refl. exact IH.
Qed.

Lemma isPrefix_app (l a b : list string) :
  Props.isPrefix a b = true -> Props.isPrefix (l ++ a) (l ++ b) = true.
Proof.
  intro H. induction l as [| x l IH]; simpl; [exact H |].
  rewrite String.eqb_refl. exact IH.
Qed.

Lemma isPrefix_longer (a b c : list string) :
  Props.isPrefix a b = true -> Props.isPrefix a (b ++ c) = true.
Proof.
  revert b. induction a as [| x a IH]; intros b H; [reflexivity |].
  destruct b as [| y b]; [discriminate H |].
  simpl in H |- *. apply andb_prop in H. destruct H as (-> & H).
  apply IH. exact H.
Qed.

Lemma writtenPaths_app (a b : list Node.event) :
  Spec.writtenPaths (a ++ b) = (Spec.writtenPaths a ++ Spec.writtenPaths b)%list.
Proof. unfold Spec.writtenPaths. apply flat_map_app. Qed.

Lemma inOrder_ret {A : Type} (dirs : list string) (a : A) :
  Props.inOrder dirs [] (Node.ret a).
Proof.
  intro st. exists []. cbn. rewrite app_nil_r. repeat split.
Qed.

Lemma inOrder_lift {A : Type} (dirs : list string) (r : result A) :
  Props.inOrder dirs [] (Node.lift r).
Proof.
  intro st. exists []. cbn. rewrite app_nil_r. repeat split.
Qed.

Lemma inOrder_consoleLog (dirs : list string) (text : string) :
  Props.inOrder dirs [] (Node.consoleLog text).
Proof.
  intro st. exists [Node.ConsoleLog text]. cbn. repeat split.
Qed.

Lemma inOrder_existsSync (dirs : list string) (path : string) :
  existsb (String.eqb path) dirs = true ->
  Props.inOrder dirs [] (Node.existsSync path).
Proof.
  intros Hp st. exists [Node.ExistsSync path]. cbn. rewrite Hp. repeat split.
Qed.

Lemma inOrder_mkdirSync (dirs : list string) (path : string) :
  existsb (String.eqb path) dirs = true ->
  Props.inOrder dirs [] (Node.mkdirSync path).
Proof.
  intros Hp st. exists [Node.MkdirSync path]. cbn. rewrite Hp. repeat split.
Qed.

Lemma inOrder_writeFileSync (dirs : list string) (path : string)
    (content : Node.artifact) :
  Props.inOrder dirs [path] (Node.writeFileSync path content).
Proof.
  intro st. exists [Node.WriteFileSync path content].
  unfold Node.writeFileSync.
  destruct (Node.present st (Node.dirname path)); cbn;
    rewrite String.eqb_refl; repeat split.
Qed.

Lemma inOrder_bind {A B : Type} (dirs first rest : list string)
    (m : Node.io A) (k : A -> Node.io B) :
  Props.inOrder dirs first m ->
  (forall a, Props.inOrder dirs rest (k a)) ->
  Props.inOrder dirs (first ++ rest) (Node.bind m k).
Proof.
  intros Hm Hk st. unfold Node.bind.
  destruct (Hm st) as (evs & Htrace & Hdocs & Hin & Hprefix & Hall).
  destruct (m st) as [st1 [a | e |]] eqn:E; cbn [fst snd] in *.
  - destruct (Hk a st1) as (evs' & Htrace' & Hdocs' & Hin' & Hprefix' & Hall').
    exists (evs ++ evs')%list.
    rewrite Htrace', Htrace, Hdocs', Hdocs, <- app_assoc, forallb_app, Hin, Hin'.
    rewrite writtenPaths_app, (Hall a eq_refl).
    repeat split.
    + apply isPrefix_app. exact Hprefix'.
    + intros b Hb. rewrite (Hall' b Hb). reflexivity.
  - exists evs. repeat split; try assumption.
    + apply isPrefix_longer. exact Hprefix.
    + intros b Hb. discriminate Hb.
  - exists evs. repeat split; try assumption.
    + apply isPrefix_longer. exact Hprefix.
    + intros b Hb. discriminate Hb.
Qed.

Lemma inOrder_when (dirs expected : list string) (b : bool) (m : Node.io unit) :
  Props.inOrder dirs expected m ->
  Props.inOrder dirs (if b then expected else []) (Node.when b m).
Proof.
  intro H. destruct b; [exact H | apply inOrder_ret].
Qed.

Lemma inOrder_unless (dirs : list string) (b : bool) (m : Node.io unit) :
  Props.inOrder dirs [] m -> Props.inOrder dirs [] (Node.when b m).
Proof.
  intro H. destruct b; [exact H | apply inOrder_ret].
Qed.

Lemma inOrder_as {A : Type} (dirs expected expected' : list string) (m : Node.io A) :
  Props.inOrder dirs expected m -> expected = expected' ->
  Props.inOrder dirs expected' m.
Proof. intros H <-. exact H. Qed.

Lemma inOrder_writeFile (dirs : list string) (this : TypeScript.generator)
    (filename : string) (content : Node.artifact) :
  existsb (String.eqb (Node.dirname (Node.pathJoin (TypeScript.outputDir this) filename)))
    dirs = true ->
  Props.inOrder dirs [Node.pathJoin (TypeScript.outputDir this) filename]
    (TypeScript.writeFile this filename content).
Proof.
  intro Hdir. unfold TypeScript.writeFile.
  eapply inOrder_as.
  - eapply inOrder_bind; [apply inOrder_existsSync; exact Hdir | intro dirExists].
    eapply inOrder_bind;
      [apply inOrder_unless; apply inOrder_mkdirSync; exact Hdir | intro].
    eapply inOrder_bind; [apply inOrder_writeFileSync | intro].
    apply inOrder_consoleLog.
  - reflexivity.
Qed.

(** ** The order of the artifacts *)

Lemma artifact_dir (dir filename : string) (dirs : list string) :
  nonEmpty dir = true -> nonEmpty filename = true ->
  Spec.noSlash filename = true ->
  existsb (String.eqb dir) dirs = true ->
  existsb (String.eqb (Node.dirname (Node.pathJoin dir filename))) dirs = true.
Proof.
  intros Hd Hf Hs Hin. rewrite dirname_pathJoin by assumption. exact Hin.
Qed.

Lemma generate_inOrder (this : TypeScript.generator) (context : GeneratorContext.t)
    (dirs : list string) :
  nonEmpty (TypeScript.outputDir this) = true ->
  existsb (String.eqb (TypeScript.outputDir this)) dirs = true ->
  Props.inOrder dirs
    (map (Node.pathJoin (TypeScript.outputDir this)) (Props.artifactNames context))
    (TypeScript.generate this context).
Proof.
  intros Hne Hdir.
  assert (Hwrite : forall filename content,
             nonEmpty filename = true -> Spec.noSlash filename = true ->
             Props.inOrder dirs [Node.pathJoin (TypeScript.outputDir this) filename]
               (TypeScript.writeFile this filename content)).
  { intros filename content Hf Hs. apply inOrder_writeFile.
    apply artifact_dir; assumption. }
  unfold TypeScript.generate. eapply inOrder_as.
  - eapply inOrder_bind; [apply inOrder_existsSync; exact Hdir | intro].
    eapply inOrder_bind;
      [apply inOrder_unless; apply inOrder_mkdirSync; exact Hdir | intro].
    eapply inOrder_bind; [| intro].
    { unfold TypeScript.generateSchemas.
      instantiate (1 := match ParsedAPISpec.schemas (GeneratorContext.spec context) with
                        | [] => []
                        | _ => [Node.pathJoin (TypeScript.outputDir this) "types.ts"]
                        end).
      destruct (ParsedAPISpec.schemas (GeneratorContext.spec context));
        [apply inOrder_ret |].
      eapply inOrder_as;
        [eapply inOrder_bind; [apply inOrder_lift | intro]; apply Hwrite; reflexivity
        | reflexivity]. }
    eapply inOrder_bind; [apply inOrder_lift | intro].
    eapply inOrder_bind; [apply Hwrite; reflexivity | intro].
    eapply inOrder_bind;
      [apply inOrder_when; unfold TypeScript.generateErrorsFile;
       apply Hwrite; reflexivity | intro].
    eapply inOrder_bind; [| intro].
    { unfold TypeScript.generateTypesFile.
      eapply inOrder_bind; [apply inOrder_lift | intro]. apply Hwrite; reflexivity. }
    eapply inOrder_bind; [| intro].
    { apply inOrder_when. unfold TypeScript.generateExamples.
      eapply inOrder_bind; [apply inOrder_lift | intro]. apply Hwrite; reflexivity. }
    unfold TypeScript.generatePackageJson.
    eapply inOrder_bind; [apply Hwrite; reflexivity | intro].
    apply Hwrite; reflexivity.
  - unfold Props.artifactNames.
    destruct (ParsedAPISpec.schemas (GeneratorContext.spec context)),
      (GeneratorConfig.includeErrorHandling (GeneratorContext.config context)),
      (GeneratorConfig.includeExamples (GeneratorContext.config context));
      reflexivity.
Qed.

Lemma getGenerator_inOrder (this : Engine.engine) (dirs : list string) :
  Props.inOrder dirs [] (Engine.getGenerator this).
Proof.
  unfold Engine.getGenerator.
  destruct (String.eqb _ "typescript").
  - apply inOrder_ret.
  - eapply inOrder_as;
      [eapply inOrder_bind; [apply inOrder_consoleLog | intro; apply inOrder_ret]
      | reflexivity].
Qed.

Lemma getGenerator_value (this : Engine.engine) (st : Node.state) :
  exists st', Engine.getGenerator this st
              = (st', Ok (TypeScript.new (Engine.config this))).
Proof.
  unfold Engine.getGenerator.
  destruct (String.eqb _ "typescript"); eexists; reflexivity.
Qed.

Lemma inOrder_bind_value {A B : Type} (dirs first rest : list string)
    (m : Node.io A) (k : A -> Node.io B) (a0 : A) :
  Props.inOrder dirs first m ->
  (forall st, exists st', m st = (st', Ok a0)) ->
  Props.inOrder dirs rest (k a0) ->
  Props.inOrder dirs (first ++ rest) (Node.bind m k).
Proof.
  intros Hm Hvalue Hk st. unfold Node.bind.
  destruct (Hm st) as (evs & Htrace & Hdocs & Hin & Hprefix & Hall).
  destruct (Hvalue st) as (st1 & E). rewrite E in *. cbn [fst snd] in *.
  destruct (Hk st1) as (evs' & Htrace' & Hdocs' & Hin' & Hprefix' & Hall').
  exists (evs ++ evs')%list.
  rewrite Htrace', Htrace, Hdocs', Hdocs, <- app_assoc, forallb_app, Hin, Hin'.
  rewrite writtenPaths_app, (Hall a0 eq_refl).
  repeat split.
  - apply isPrefix_app. exact Hprefix'.
  - intros b Hb. rewrite (Hall' b Hb). reflexivity.
Qed.

Lemma engine_inOrder (this : Engine.engine) :
  Props.inOrder
    [GeneratorConfig.outputDir (Engine.config this);
     Props.artifactDir (Engine.config this)]
    (Props.artifactPaths (Engine.config this) (Engine.context this))
    (Engine.generate this).
Proof.
  set (config := Engine.config this).
  set (dirs := [GeneratorConfig.outputDir config; Props.artifactDir config]).
  unfold Engine.generate. fold config. eapply inOrder_as.
  - eapply inOrder_bind; [apply inOrder_consoleLog | intro].
    eapply inOrder_bind; [apply inOrder_consoleLog | intro].
    eapply inOrder_bind; [apply inOrder_consoleLog | intro].
    eapply inOrder_bind; [apply inOrder_consoleLog | intro].
    eapply inOrder_bind;
      [apply inOrder_existsSync; unfold dirs; cbn [existsb];
       rewrite String.eqb_refl; reflexivity | intro].
    eapply inOrder_bind;
      [apply inOrder_unless; apply inOrder_mkdirSync; unfold dirs; cbn [existsb];
       rewrite String.eqb_refl; reflexivity | intro].
    eapply (inOrder_bind_value _ _ _ _ _ (TypeScript.new (Engine.config this)));
      [apply getGenerator_inOrder | apply getGenerator_value |].
    eapply inOrder_bind; [| intro; apply inOrder_consoleLog].
    apply generate_inOrder.
    + apply pathJoin_nonEmpty.
    + unfold dirs, Props.artifactDir, TypeScript.new, config.
      cbn [existsb TypeScript.outputDir].
      rewrite String.eqb_refl. apply orb_true_r.
  - cbn [app]. rewrite app_nil_r. reflexivity.
Qed.



(* ================================================================== *)
(** * Further properties of the generator: typed specifications *)
(* ================================================================== *)

Lemma toString_printable (v : value) :
  Props.printable v = true -> exists text, toString v = Ok text.
Proof.
  destruct v as [| | [] | | | |]; simpl; intro H; try discriminate H;
    eexists; reflexivity.
Qed.

Lemma printable_or (a b : value) :
  Props.printable a = true -> Props.printable b = true ->
  Props.printable (or a b) = true.
Proof. unfold or. destruct (truthy a); tauto. Qed.

Lemma string_printable (v : value) :
  Spec.isString v = true -> Props.printable v = true.
Proof. destruct v; simpl; intro H; try discriminate H; reflexivity. Qed.

Lemma describable_printable (v : value) :
  Spec.describable v = true -> Props.printable v = true.
Proof. destruct v; simpl; intro H; try discriminate H; reflexivity. Qed.

Lemma string_inv (v : value) : Spec.isString v = true -> exists s, v = Str s.
Proof. destruct v; simpl; intro H; try discriminate H. eexists; reflexivity. Qed.

Lemma reference_text (schema : value) :
  Props.referenceOrNone schema = true ->
  truthy (field schema "$ref") = true ->
  exists text, field schema "$ref" = Str text.
Proof.
  unfold Props.referenceOrNone. intros H Ht. rewrite Ht in H.
  apply string_inv. exact H.
Qed.

Lemma getReturnType_typed (e : ParsedEndpoint.t) :
  Props.typedResponseSchema (Spec.successSchema e) = true ->
  exists type, TypeScript.getReturnType e = Ok type.
Proof.
  rewrite getReturnType_eq. cbv zeta. unfold Props.typedResponseSchema.
  destruct (truthy (Spec.successSchema e)) eqn:Ht; cbn [negb orb];
    [| intros _; eexists; reflexivity].
  intro H. apply andb_prop in H. destruct H as (Href & Hitems).
  rewrite !(get_truthy _ _ Ht). cbn [JS.bind].
  destruct (truthy (field (Spec.successSchema e) "$ref")) eqn:Hr.
  - destruct (reference_text _ Href Hr) as (text & ->). eexists. reflexivity.
  - destruct (isStr "array" (field (Spec.successSchema e) "type"));
      [| eexists; reflexivity].
    cbn [negb orb] in Hitems.
    destruct (truthy (field (Spec.successSchema e) "items")) eqn:Hi;
      [| eexists; reflexivity].
    cbn [negb orb] in Hitems. rewrite (get_truthy _ _ Hi). cbn [JS.bind].
    destruct (truthy (field (field (Spec.successSchema e) "items") "$ref")) eqn:Hir;
      [| eexists; reflexivity].
    destruct (reference_text _ Hitems Hir) as (text & ->). eexists. reflexivity.
Qed.

Lemma formatDescription_describable (v : value) :
  Spec.describable v = true -> exists text, TypeScript.formatDescription v = Ok text.
Proof.
  unfold TypeScript.formatDescription.
  destruct v; simpl; intro H; try discriminate H; try (eexists; reflexivity).
  destruct (nonEmpty s); eexists; reflexivity.
Qed.

Lemma generateExample_typed (context : GeneratorContext.t) (e : ParsedEndpoint.t) :
  Props.printable (ParsedAPISpec.baseUrl (GeneratorContext.spec context)) = true ->
  Spec.isString (ParsedEndpoint.operationId e) = true ->
  Props.printable (ParsedEndpoint.summary e) = true ->
  exists text, TypeScript.generateExample e context = Ok text.
Proof.
  intros Hbase Hid Hsummary. unfold TypeScript.generateExample.
  destruct (string_inv _ Hid) as (operationId & Eid). rewrite Eid.
  cbn [TypeScript.toCamelCase asString JS.bind].
  destruct (toString_printable _ Hbase) as (baseUrl & ->). cbn [JS.bind].
  destruct (toString_printable (or (ParsedEndpoint.summary e) (Str operationId)))
    as (summary & ->); [apply printable_or; [exact Hsummary | reflexivity] |].
  eexists. reflexivity.
Qed.

Lemma typedEndpoint_inv (e : ParsedEndpoint.t) :
  Props.typedEndpoint e = true ->
  Spec.taggedByStrings e = true
  /\ Spec.isString (ParsedEndpoint.operationId e) = true
  /\ Props.printable (ParsedEndpoint.summary e) = true
  /\ Spec.describable (ParsedEndpoint.description e) = true
  /\ forallb Props.typedParameter (ParsedEndpoint.parameters e) = true
  /\ Props.typedResponseSchema (Spec.successSchema e) = true.
Proof.
  unfold Props.typedEndpoint. intro H.
  repeat (apply andb_prop in H; destruct H as (H & ?)). tauto.
Qed.

Lemma typedSpec_inv (spec : ParsedAPISpec.t) :
  Props.typedSpec spec = true ->
  Props.printable (ParsedAPISpec.title spec) = true
  /\ Props.printable (ParsedAPISpec.version spec) = true
  /\ Props.printable (ParsedAPISpec.baseUrl spec) = true
  /\ forallb Props.typedEndpoint (ParsedAPISpec.endpoints spec) = true
  /\ forallb Spec.typedSchema (ParsedAPISpec.schemas spec) = true.
Proof.
  unfold Props.typedSpec. intro H.
  repeat (apply andb_prop in H; destruct H as (H & ?)). tauto.
Qed.

Lemma formatEndpoint_typed (context : GeneratorContext.t) (e : ParsedEndpoint.t) :
  Props.printable (ParsedAPISpec.baseUrl (GeneratorContext.spec context)) = true ->
  Props.typedEndpoint e = true ->
  exists view, TypeScript.formatEndpoint context e = Ok view.
Proof.
  intros Hbase He. apply typedEndpoint_inv in He.
  destruct He as (_ & Hid & Hsummary & Hdesc & _ & Hschema).
  unfold TypeScript.formatEndpoint.
  destruct (getReturnType_typed e Hschema) as (type & ->). cbn [JS.bind].
  destruct (generateExample_typed context e Hbase Hid Hsummary) as (example & ->).
  destruct (string_inv _ Hid) as (operationId & ->).
  cbn [TypeScript.toCamelCase asString JS.bind].
  destruct (formatDescription_describable _ Hdesc) as (description & ->).
  eexists. reflexivity.
Qed.

Lemma forEach_typed {A B : Type} (f : A -> result B) (p : A -> bool) (l : list A) :
  (forall a, p a = true -> exists b, f a = Ok b) ->
  forallb p l = true -> exists bs, forEach f l = Ok bs.
Proof.
  intros Hf Hl. apply forEach_total. intros a Ha. apply Hf.
  rewrite forallb_forall in Hl. apply Hl. exact Ha.
Qed.

Lemma formatTag_typed (context : GeneratorContext.t)
    (entry : value * list ParsedEndpoint.t) :
  Props.printable (ParsedAPISpec.baseUrl (GeneratorContext.spec context)) = true ->
  Props.typedBucket entry = true ->
  exists view, TypeScript.formatTag context entry = Ok view.
Proof.
  intros Hbase H. destruct entry as [tag endpoints].
  unfold Props.typedBucket in H. cbn [fst snd] in H.
  apply andb_prop in H. destruct H as (Htag & Hes).
  destruct (string_inv _ Htag) as (t & ->).
  unfold TypeScript.formatTag.
  cbn [TypeScript.capitalizeFirst TypeScript.toPascalCase TypeScript.toCamelCase
         asString JS.bind].
  destruct (forEach_typed (TypeScript.formatEndpoint context) Props.typedEndpoint
              endpoints (fun e => formatEndpoint_typed context e Hbase) Hes) as (views & ->).
  eexists. reflexivity.
Qed.

Lemma formatSchema_typed (s : ParsedSchema.t) :
  Spec.typedSchema s = true -> exists view, TypeScript.formatSchema s = Ok view.
Proof.
  unfold Spec.typedSchema. intro H.
  apply andb_prop in H. destruct H as (H & Hprops).
  apply andb_prop in H. destruct H as (Hreq & _).
  unfold TypeScript.formatSchema.
  destruct (forEach_typed (TypeScript.formatProperty s) Spec.typedProperty
              (ParsedSchema.properties s)) as (views & ->); [| exact Hprops |].
  - intros p Hp. unfold Spec.typedProperty in Hp.
    apply andb_prop in Hp. destruct Hp as (Hty & _).
    destruct (mapType_typed p Hty) as (m & Hm & _).
    unfold TypeScript.formatProperty. rewrite Hm. cbn [JS.bind].
    destruct (ParsedSchema.required s); try discriminate Hreq.
    eexists. reflexivity.
  - eexists. reflexivity.
Qed.

Lemma typedContext_inv (context : GeneratorContext.t) :
  Props.typedContext context = true ->
  Props.typedSpec (GeneratorContext.spec context) = true
  /\ forallb Props.typedBucket (GeneratorContext.endpointsByTag context) = true.
Proof. unfold Props.typedContext. intro H. apply andb_prop in H. exact H. Qed.

Lemma generateClientCode_typed (context : GeneratorContext.t) :
  Props.typedContext context = true ->
  exists view, TypeScript.generateClientCode context = Ok view.
Proof.
  intro H. apply typedContext_inv in H. destruct H as (Hspec & Hbuckets).
  assert (Hschemes : isNullish (ParsedAPISpec.securitySchemes
                                  (GeneratorContext.spec context)) = false).
  { unfold Props.typedSpec in Hspec. apply andb_prop in Hspec.
    destruct Hspec as (_ & Hpresent). apply negb_true_iff. exact Hpresent. }
  apply typedSpec_inv in Hspec. destruct Hspec as (_ & _ & Hbase & _ & Hschemas).
  unfold TypeScript.generateClientCode, TypeScript.hasScheme, keys.
  destruct (forEach_typed (TypeScript.formatTag context) Props.typedBucket _
              (fun entry => formatTag_typed context entry Hbase) Hbuckets) as (tags & ->).
  rewrite Hschemes. cbn [JS.bind].
  destruct (forEach_typed TypeScript.formatSchema Spec.typedSchema _
              formatSchema_typed Hschemas) as (schemas & ->).
  eexists. reflexivity.
Qed.

Lemma generateParameter_typed (p : ParsedParameter.t) :
  Props.typedParameter p = true ->
  exists text, TypeScript.generateParameter p = Ok text.
Proof.
  unfold Props.typedParameter. intro H.
  apply andb_prop in H. destruct H as (H & Hdesc).
  apply andb_prop in H. destruct H as (Hty & Hname).
  destruct (string_inv _ Hty) as (type & Etype).
  destruct (string_inv _ Hname) as (name & Ename).
  unfold TypeScript.generateParameter, TypeScript.mapType. rewrite Etype, Ename.
  cbn [asString JS.bind truthy].
  rewrite (toString_describable _ _ Hdesc). eexists. reflexivity.
Qed.

Lemma generateParams_typed (entry : value * list ParsedEndpoint.t) :
  Props.typedBucket entry = true ->
  exists text, TypeScript.generateParams entry = Ok text.
Proof.
  destruct entry as [tag endpoints]. unfold Props.typedBucket. cbn [fst snd].
  intro H. apply andb_prop in H. destruct H as (Htag & Hes).
  destruct (string_inv _ Htag) as (t & ->).
  unfold TypeScript.generateParams. cbn [TypeScript.toPascalCase asString JS.bind].
  destruct (forEach_typed
              (fun ep => forEach TypeScript.generateParameter
                           (ParsedEndpoint.parameters ep))
              Props.typedEndpoint endpoints) as (texts & ->); [| exact Hes |].
  - intros e He. apply typedEndpoint_inv in He.
    destruct He as (_ & _ & _ & _ & Hparams & _).
    exact (forEach_typed _ _ _ generateParameter_typed Hparams).
  - eexists. reflexivity.
Qed.

Lemma paramsContent_typed (context : GeneratorContext.t) :
  Props.typedContext context = true ->
  exists text, TypeScript.paramsContent context = Ok text.
Proof.
  intro H. apply typedContext_inv in H. destruct H as (Hspec & Hbuckets).
  apply typedSpec_inv in Hspec. destruct Hspec as (Htitle & Hversion & _).
  unfold TypeScript.paramsContent.
  destruct (toString_printable _ Htitle) as (title & ->).
  destruct (toString_printable _ Hversion) as (version & ->). cbn [JS.bind].
  destruct (forEach_typed TypeScript.generateParams Props.typedBucket _
              generateParams_typed Hbuckets) as (bundles & ->).
  eexists. reflexivity.
Qed.

Lemma examplesOf_typed (context : GeneratorContext.t)
    (entry : value * list ParsedEndpoint.t) :
  Props.printable (ParsedAPISpec.baseUrl (GeneratorContext.spec context)) = true ->
  Props.typedBucket entry = true ->
  exists text, TypeScript.examplesOf context entry = Ok text.
Proof.
  intros Hbase. destruct entry as [tag endpoints].
  unfold Props.typedBucket. cbn [fst snd].
  intro H. apply andb_prop in H. destruct H as (Htag & Hes).
  destruct (string_inv _ Htag) as (t & ->).
  unfold TypeScript.examplesOf. cbn [TypeScript.capitalizeFirst asString JS.bind].
  destruct (forEach_typed (TypeScript.exampleOf context) Props.typedEndpoint
              endpoints) as (texts & ->); [| exact Hes |].
  - intros e He. apply typedEndpoint_inv in He.
    destruct He as (_ & Hid & Hsummary & _).
    unfold TypeScript.exampleOf.
    destruct (toString_printable
                (or (ParsedEndpoint.summary e) (ParsedEndpoint.operationId e)))
      as (summary & ->);
      [apply printable_or; [exact Hsummary | apply string_printable; exact Hid] |].
    cbn [JS.bind].
    destruct (generateExample_typed context e Hbase Hid Hsummary) as (example & ->).
    eexists. reflexivity.
  - eexists. reflexivity.
Qed.

Lemma examplesContent_typed (context : GeneratorContext.t) :
  Props.typedContext context = true ->
  exists text, TypeScript.examplesContent context = Ok text.
Proof.
  intro H. apply typedContext_inv in H. destruct H as (Hspec & Hbuckets).
  apply typedSpec_inv in Hspec. destruct Hspec as (Htitle & Hversion & Hbase & _).
  unfold TypeScript.examplesContent.
  destruct (toString_printable _ Htitle) as (title & ->).
  destruct (toString_printable _ Hversion) as (version & ->).
  destruct (toString_printable _ Hbase) as (baseUrl & ->). cbn [JS.bind].
  destruct (forEach_typed (TypeScript.examplesOf context) Props.typedBucket _
              (fun entry => examplesOf_typed context entry Hbase) Hbuckets) as (groups & ->).
  eexists. reflexivity.
Qed.

Lemma schemasContent_typed (schemas : list ParsedSchema.t) :
  forallb Spec.typedSchema schemas = true ->
  TypeScript.schemasContent schemas
  = Ok (JS.join (TypeScript.nl ++ TypeScript.nl) (map Spec.interfaceOf schemas)).
Proof.
  intro H. unfold TypeScript.schemasContent.
  rewrite (forEach_map _ Spec.interfaceOf); [reflexivity |].
  intros s Hs. apply generateSchema_typed.
  rewrite forallb_forall in H. apply H. exact Hs.
Qed.

(** ** The context of a typed specification *)

Lemma addToBucket_typed (tag : value) (e : ParsedEndpoint.t) (m : TagMap) :
  Spec.isString tag = true -> Props.typedEndpoint e = true ->
  forallb Props.typedBucket m = true ->
  forallb Props.typedBucket (Engine.addToBucket tag e m) = true.
Proof.
  intros Htag He. induction m as [| [k b] m IH]; intro Hm.
  - simpl. unfold Props.typedBucket. cbn [fst snd forallb]. rewrite Htag, He.
    reflexivity.
  - simpl in Hm. apply andb_prop in Hm. destruct Hm as (Hkb & Hm).
    simpl. destruct (Engine.sameValueZero k tag); cbn [forallb].
    + rewrite Hm, andb_true_r. unfold Props.typedBucket in *. cbn [fst snd] in *.
      apply andb_prop in Hkb. destruct Hkb as (-> & Hb).
      rewrite forallb_app, Hb. cbn [forallb]. rewrite He. reflexivity.
    + rewrite Hkb, (IH Hm). reflexivity.
Qed.

Lemma groupEndpoints_typed (es : list ParsedEndpoint.t) (m m' : TagMap) :
  forallb Props.typedEndpoint es = true ->
  forallb Props.typedBucket m = true ->
  Engine.groupEndpoints m es = Ok m' ->
  forallb Props.typedBucket m' = true.
Proof.
  revert m. induction es as [| e es IH]; simpl; intros m Hes Hm H.
  - injection H as <-. exact Hm.
  - apply andb_prop in Hes. destruct Hes as (He & Hes).
    apply bind_Ok in H. destruct H as (m1 & Hadd & H).
    apply (IH m1 Hes); [| exact H]. clear IH H.
    unfold Engine.addEndpoint in Hadd.
    pose proof (proj1 (typedEndpoint_inv e He)) as Htags.
    unfold Spec.taggedByStrings in Htags.
    destruct (ParsedEndpoint.tags e) as [| | | | | tags |]; try discriminate Htags.
    cbn [iterate JS.bind] in Hadd. injection Hadd as <-.
    revert m Hm. induction tags as [| t tags IHt]; intros m Hm; [exact Hm |].
    simpl in Htags. apply andb_prop in Htags. destruct Htags as (Ht & Htags).
    cbn [fold_left]. apply IHt; [exact Htags |].
    apply addToBucket_typed; assumption.
Qed.

Lemma new_typed (config : GeneratorConfig.t) (spec : ParsedAPISpec.t) :
  Props.typedSpec spec = true ->
  exists context : GeneratorContext.t,
    Engine.new config spec = Ok (Engine.CodeGeneratorEngine config spec context)
    /\ GeneratorContext.config context = config
    /\ GeneratorContext.spec context = spec
    /\ Props.typedContext context = true.
Proof.
  intro Hspec. pose proof (typedSpec_inv spec Hspec) as (_ & _ & _ & Hes & _).
  destruct (groupEndpoints_total (ParsedAPISpec.endpoints spec) []) as (m & Hm).
  { apply Forall_forall. intros e He. rewrite forallb_forall in Hes.
    pose proof (proj1 (typedEndpoint_inv e (Hes e He))) as Htags.
    unfold Spec.taggedByStrings in Htags.
    destruct (ParsedEndpoint.tags e); try discriminate Htags.
    eexists. reflexivity. }
  exists (GeneratorContext.make config spec m).
  unfold Engine.new, Engine.buildContext. rewrite Hm. cbn [JS.bind].
  repeat split. unfold Props.typedContext.
  cbn [GeneratorContext.spec GeneratorContext.endpointsByTag].
  rewrite Hspec. apply (groupEndpoints_typed _ [] m Hes eq_refl Hm).
Qed.

(* ================================================================== *)
(** * Further properties of the generator: a run that succeeds *)
(* ================================================================== *)

Lemma present_paths (documents : list (string * value)) (paths : list string)
    (trace trace' : list Node.event) (p : string) :
  Node.present (Node.makeState documents paths trace) p
  = Node.present (Node.makeState documents paths trace') p.
Proof. reflexivity. Qed.

Lemma present_more (st : Node.state) (more : list string)
    (trace : list Node.event) (p : string) :
  Node.present st p = true ->
  Node.present
    (Node.makeState (Node.documents st) (Node.paths st ++ more)%list trace) p = true.
Proof.
  unfold Node.present. cbn [Node.paths Node.documents].
  rewrite existsb_app. intro H.
  destruct (existsb (String.eqb p) (Node.paths st)); [reflexivity |].
  cbn [orb] in H |- *. rewrite H. apply orb_true_r.
Qed.

Lemma present_new (st : Node.state) (more : list string)
    (trace : list Node.event) (p : string) :
  In p more ->
  Node.present
    (Node.makeState (Node.documents st) (Node.paths st ++ more)%list trace) p = true.
Proof.
  intro H. unfold Node.present. cbn [Node.paths Node.documents].
  rewrite existsb_app.
  replace (existsb (String.eqb p) more) with true.
  - rewrite orb_true_r. reflexivity.
  - symmetry. apply existsb_exists. exists p. split; [exact H | apply String.eqb_refl].
Qed.

Lemma prefixes_whole (l : list string) : l <> [] -> In l (Node.prefixes l).
Proof.
  induction l as [| x l IH]; intro H; [contradiction H; reflexivity |].
  cbn [Node.prefixes]. destruct l as [| y l].
  - left. reflexivity.
  - right. apply in_map. apply IH. discriminate.
Qed.

Lemma ancestors_self (p : string) : nonEmpty p = true -> In p (Node.ancestors p).
Proof.
  intro Hp. unfold Node.ancestors. apply filter_In. split; [| exact Hp].
  rewrite <- (join_split p) at 1. apply in_map.
  apply prefixes_whole. apply split_nonempty.
Qed.

(** ** Composition *)

Lemma written_app (a b : list Node.event) :
  Props.written (a ++ b) = (Props.written a ++ Props.written b)%list.
Proof. unfold Props.written. apply flat_map_app. Qed.

Lemma produces_bind {A B : Type} (pre mid post : list string)
    (m : Node.io A) (k : A -> Node.io B) (a : A) (b : B)
    (first rest : list (string * Node.artifact)) :
  Props.produces pre mid m a first ->
  Props.produces mid post (k a) b rest ->
  Props.produces pre post (Node.bind m k) b (first ++ rest).
Proof.
  intros Hm Hk st Hpre. unfold Node.bind.
  destruct (Hm st Hpre) as (st1 & evs & E & Htrace & Hfiles & Hkeep & Hmid & Hthere).
  rewrite E.
  destruct (Hk st1 Hmid)
    as (st2 & evs' & E' & Htrace' & Hfiles' & Hkeep' & Hpost & Hthere').
  exists st2, (evs ++ evs')%list. rewrite E'. repeat split.
  - rewrite Htrace', Htrace, app_assoc. reflexivity.
  - rewrite written_app, Hfiles, Hfiles'. reflexivity.
  - intros p Hp. apply Hkeep', Hkeep. exact Hp.
  - exact Hpost.
  - apply Forall_app. split; [| exact Hthere'].
    revert Hthere. apply Forall_impl. intros file. apply Hkeep'.
Qed.

Lemma produces_ret {A : Type} (pre : list string) (a : A) :
  Props.produces pre pre (Node.ret a) a [].
Proof.
  intros st Hpre. exists st, []. repeat split; try assumption.
  - rewrite app_nil_r. reflexivity.
  - tauto.
  - constructor.
Qed.

Lemma produces_lift {A : Type} (pre : list string) (a : A) :
  Props.produces pre pre (Node.lift (Ok a)) a [].
Proof. apply produces_ret. Qed.

Lemma produces_consoleLog (pre : list string) (text : string) :
  Props.produces pre pre (Node.consoleLog text) tt [].
Proof.
  intros st Hpre. eexists. exists [Node.ConsoleLog text].
  repeat split; try assumption.
  - intros p Hp. exact Hp.
  - constructor.
Qed.

Lemma produces_ensure {B : Type} (pre post : list string) (dir : string)
    (rest : Node.io B) (b : B) (files : list (string * Node.artifact)) :
  nonEmpty dir = true ->
  Props.produces (dir :: pre) post rest b files ->
  Props.produces pre post
    (Node.bind (Node.existsSync dir)
       (fun dirExists =>
          Node.bind (Node.when (negb dirExists) (Node.mkdirSync dir))
            (fun _ => rest)))
    b files.
Proof.
  intros Hdir Hrest st Hpre.
  unfold Node.bind at 1. unfold Node.existsSync at 1.
  destruct (Node.present st dir) eqn:Hthere; cbn [negb Node.when].
  - set (st1 := Node.makeState (Node.documents st) (Node.paths st)
                  (Node.trace st ++ [Node.ExistsSync dir])%list).
    destruct (Hrest st1)
      as (st2 & evs & E & Htrace & Hfiles & Hkeep & Hpost & Hall).
    { intros p [<- | Hp]; [exact Hthere | apply Hpre; exact Hp]. }
    exists st2, (Node.ExistsSync dir :: evs).
    unfold Node.bind, Node.ret. rewrite E. repeat split; try assumption.
    rewrite Htrace. unfold st1. cbn [Node.trace]. rewrite <- app_assoc.
    reflexivity.
  - set (st1 := Node.makeState (Node.documents st)
                  (Node.paths st ++ Node.ancestors dir)%list
                  ((Node.trace st ++ [Node.ExistsSync dir])
                   ++ [Node.MkdirSync dir])%list).
    destruct (Hrest st1)
      as (st2 & evs & E & Htrace & Hfiles & Hkeep & Hpost & Hall).
    { intros p [<- | Hp].
      - apply present_new. apply ancestors_self. exact Hdir.
      - apply present_more. apply Hpre. exact Hp. }
    exists st2, (Node.ExistsSync dir :: Node.MkdirSync dir :: evs).
    unfold Node.bind, Node.mkdirSync. cbn [Node.documents Node.paths Node.trace].
    fold st1. rewrite E. repeat split; try assumption.
    + rewrite Htrace. unfold st1. cbn [Node.trace]. rewrite <- !app_assoc.
      reflexivity.
    + intros p Hp. apply Hkeep. unfold st1. apply present_more. exact Hp.
Qed.

Lemma produces_writeFile (pre : list string) (this : TypeScript.generator)
    (filename : string) (content : Node.artifact) :
  In (TypeScript.outputDir this) pre ->
  nonEmpty (TypeScript.outputDir this) = true ->
  nonEmpty filename = true -> Spec.noSlash filename = true ->
  Props.produces pre pre (TypeScript.writeFile this filename content) tt
    [(Node.pathJoin (TypeScript.outputDir this) filename, content)].
Proof.
  intros Hin Hdir Hf Hs st Hpre.
  pose proof (Hpre _ Hin) as Hthere.
  unfold TypeScript.writeFile.
  rewrite (dirname_pathJoin _ _ Hdir Hf Hs).
  set (path := Node.pathJoin (TypeScript.outputDir this) filename).
  unfold Node.bind at 1. unfold Node.existsSync at 1. rewrite Hthere.
  cbn [negb Node.when]. unfold Node.bind at 1. unfold Node.ret at 1.
  unfold Node.bind at 1. unfold Node.writeFileSync at 1.
  cbn [Node.documents Node.paths Node.trace].
  assert (E : Node.dirname path = TypeScript.outputDir this)
    by (apply dirname_pathJoin; assumption).
  rewrite E.
  rewrite (present_paths _ _ _ (Node.trace st)).
  replace (Node.makeState (Node.documents st) (Node.paths st) (Node.trace st))
    with st by (destruct st; reflexivity).
  rewrite Hthere. unfold Node.consoleLog, Node.emit.
  cbn [Node.documents Node.paths Node.trace].
  eexists. eexists. split; [reflexivity |]. cbn [Node.trace].
  assert (Hkeep : forall p, Node.present st p = true ->
                            Node.present
                              (Node.makeState (Node.documents st)
                                 (Node.paths st ++ [path])
                                 (((Node.trace st ++ [Node.ExistsSync
                                                        (TypeScript.outputDir this)])
                                   ++ [Node.WriteFileSync path content])
                                  ++ [Node.ConsoleLog ("  ✓ Created: " ++ filename)]))
                              p = true).
  { intros p Hp. apply present_more. exact Hp. }
  split; [| split; [| split; [| split]]].
  - rewrite <- !app_assoc. reflexivity.
  - reflexivity.
  - exact Hkeep.
  - intros p Hp. apply Hkeep. apply Hpre. exact Hp.
  - constructor; [| constructor]. cbn [fst]. apply present_new. left. reflexivity.
Qed.

Lemma produces_getGenerator (pre : list string) (this : Engine.engine) :
  Props.produces pre pre (Engine.getGenerator this)
    (TypeScript.new (Engine.config this)) [].
Proof.
  unfold Engine.getGenerator. destruct (String.eqb _ "typescript").
  - apply produces_ret.
  - change (@nil (string * Node.artifact)) with (@nil (string * Node.artifact) ++ [])%list.
    eapply produces_bind; [apply produces_consoleLog | apply produces_ret].
Qed.

Lemma produces_as {A : Type} (pre post : list string) (m : Node.io A) (a : A)
    (files files' : list (string * Node.artifact)) :
  Props.produces pre post m a files -> files = files' ->
  Props.produces pre post m a files'.
Proof. intros H <-. exact H. Qed.

Lemma plainPath_nonEmpty (p : string) : Props.plainPath p = true -> nonEmpty p = true.
Proof. destruct p; [intro H; discriminate H | reflexivity]. Qed.

Lemma generate_produces (config : GeneratorConfig.t) (context : GeneratorContext.t)
    (view : ClientView.t) (params examples : string) (pre : list string) :
  forallb Spec.typedSchema (ParsedAPISpec.schemas (GeneratorContext.spec context))
  = true ->
  TypeScript.generateClientCode context = Ok view ->
  TypeScript.paramsContent context = Ok params ->
  (GeneratorConfig.includeExamples (GeneratorContext.config context) = true ->
   TypeScript.examplesContent context = Ok examples) ->
  Props.produces pre (Props.artifactDir config :: pre)
    (TypeScript.generate (TypeScript.new config) context) tt
    (Props.artifacts config context view params examples).
Proof.
  intros Hschemas Hview Hparams Hexamples.
  set (this := TypeScript.new config).
  assert (Hdir : nonEmpty (TypeScript.outputDir this) = true)
    by apply pathJoin_nonEmpty.
  assert (Hwrite : forall filename content,
             nonEmpty filename = true -> Spec.noSlash filename = true ->
             Props.produces (Props.artifactDir config :: pre)
               (Props.artifactDir config :: pre)
               (TypeScript.writeFile this filename content) tt
               [(Node.pathJoin (Props.artifactDir config) filename, content)]).
  { intros filename content Hf Hs.
    apply (produces_writeFile _ this filename content); try assumption.
    left. reflexivity. }
  unfold TypeScript.generate. apply produces_ensure; [exact Hdir |].
  fold this. change (TypeScript.outputDir this) with (Props.artifactDir config).
  unfold TypeScript.generateSchemas, TypeScript.generateTypesFile,
    TypeScript.generateExamples, TypeScript.generateErrorsFile,
    TypeScript.generatePackageJson.
  rewrite Hview, Hparams. unfold Props.artifacts.
  pose proof (schemasContent_typed _ Hschemas) as Htypes.
  destruct (ParsedAPISpec.schemas (GeneratorContext.spec context)) as [| s schemas];
    destruct (GeneratorConfig.includeErrorHandling (GeneratorContext.config context));
    destruct (GeneratorConfig.includeExamples (GeneratorContext.config context));
    try rewrite Htypes; try rewrite (Hexamples eq_refl);
    cbn [Node.when app map fst snd];
    (eapply produces_as;
     [ repeat first
         [ apply produces_ret
         | apply produces_lift
         | apply Hwrite; reflexivity
         | eapply produces_bind ]
     | reflexivity ]).
Qed.

(** X9.  Generation succeeds on every specification that is as
    src/types.ts declares it (the tags strings, the operation identifiers
    and the type labels strings, the descriptions strings or missing, the
    references strings, the security schemes an object): the engine is
    built, the data of the client
    template and the texts of params.ts and examples.ts are computed, and a
    run from any state of the disk returns after it has written each
    artifact with its content, types.ts holding the interfaces of the
    schemas and errors.ts the error classes; the artifacts exist
    afterwards.  Stated in the model of the file system, where a write
    fails only for want of its directory, and for the paths on which the
    model of [path.join] is exact. *)
Theorem generate_succeeds (config : GeneratorConfig.t) (spec : ParsedAPISpec.t) :
  Props.plainPath (GeneratorConfig.outputDir config) = true ->
  Props.plainSegment (GeneratorConfig.language config) = true ->
  Props.typedSpec spec = true ->
  exists (this : Engine.engine) (view : ClientView.t) (params examples : string),
    Engine.new config spec = Ok this
    /\ TypeScript.generateClientCode (Engine.context this) = Ok view
    /\ TypeScript.paramsContent (Engine.context this) = Ok params
    /\ TypeScript.examplesContent (Engine.context this) = Ok examples
    /\ forall st : Node.state,
       exists (st' : Node.state) (evs : list Node.event),
         Engine.generate this st = (st', Ok tt)
         /\ Node.trace st' = (Node.trace st ++ evs)%list
         /\ Props.written evs
            = Props.artifacts config (Engine.context this) view params examples
         /\ Forall (fun file => Node.present st' (fst file) = true)
              (Props.artifacts config (Engine.context this) view params examples).
Proof.
  intros Hout _ Hspec.
  destruct (new_typed config spec Hspec) as (context & Hnew & Hconfig & Hs & Hcontext).
  destruct (generateClientCode_typed context Hcontext) as (view & Hview).
  destruct (paramsContent_typed context Hcontext) as (params & Hparams).
  destruct (examplesContent_typed context Hcontext) as (examples & Hexamples).
  exists (Engine.CodeGeneratorEngine config spec context), view, params, examples.
  cbn [Engine.context]. repeat (split; [assumption |]).
  intro st.
  assert (H : Props.produces [] [Props.artifactDir config; GeneratorConfig.outputDir config]
                (Engine.generate (Engine.CodeGeneratorEngine config spec context))
                tt (Props.artifacts config context view params examples)).
  { unfold Engine.generate. cbn [Engine.config Engine.context].
    eapply produces_as.
    - eapply produces_bind; [apply produces_consoleLog |].
      eapply produces_bind; [apply produces_consoleLog |].
      eapply produces_bind; [apply produces_consoleLog |].
      eapply produces_bind; [apply produces_consoleLog |].
      apply produces_ensure; [apply plainPath_nonEmpty; exact Hout |].
      eapply produces_bind; [apply produces_getGenerator |].
      cbn [Engine.config].
      eapply produces_bind; [| apply produces_consoleLog].
      apply (generate_produces config context view params examples);
        try assumption.
      + rewrite Hs. apply (typedSpec_inv spec Hspec).
      + intros _. exact Hexamples.
    - cbn [app]. rewrite app_nil_r. reflexivity. }
  destruct (H st) as (st' & evs & E & Htrace & Hfiles & _ & _ & Hthere);
    [intros p [] |].
  exists st', evs. repeat split; assumption.
Qed.

(** The specification of the Pet document, with the sample configuration:
    the run from an empty output directory writes five artifacts. *)
Lemma generate_succeeds_witness :
  exists (this : Engine.engine) (view : ClientView.t) (params examples : string),
    Engine.new Spec.sampleConfig Props.petSpec = Ok this
    /\ TypeScript.generateClientCode (Engine.context this) = Ok view
    /\ TypeScript.paramsContent (Engine.context this) = Ok params
    /\ TypeScript.examplesContent (Engine.context this) = Ok examples
    /\ forall st : Node.state,
       exists (st' : Node.state) (evs : list Node.event),
         Engine.generate this st = (st', Ok tt)
         /\ Node.trace st' = (Node.trace st ++ evs)%list
         /\ Props.written evs
            = Props.artifacts Spec.sampleConfig (Engine.context this) view params
                examples
         /\ Forall (fun file => Node.present st' (fst file) = true)
              (Props.artifacts Spec.sampleConfig (Engine.context this) view params
                 examples).
Proof.
  exact (generate_succeeds Spec.sampleConfig Props.petSpec eq_refl eq_refl eq_refl).
Defined.
(** ** The retryability predicate *)






(* ================================================================== *)
(** * Further properties of the commands *)
(* ================================================================== *)

(** ** Steps of a run *)

Lemma bind_existsSync {B : Type} (path : string) (k : bool -> Node.io B)
    (st : Node.state) :
  Node.bind (Node.existsSync path) k st
  = k (Node.present st path)
      (Node.makeState (Node.documents st) (Node.paths st)
         (Node.trace st ++ [Node.ExistsSync path])%list).
Proof. reflexivity. Qed.

Lemma bind_consoleLog {B : Type} (text : string) (k : unit -> Node.io B)
    (st : Node.state) :
  Node.bind (Node.consoleLog text) k st
  = k tt (Node.makeState (Node.documents st) (Node.paths st)
            (Node.trace st ++ [Node.ConsoleLog text])%list).
Proof. reflexivity. Qed.

Lemma bind_readDocument {B : Type} (path : string) (k : value -> Node.io B)
    (st : Node.state) :
  Node.bind (Node.readDocument path) k st
  = let st' := Node.makeState (Node.documents st) (Node.paths st)
                 (Node.trace st ++ [Node.ReadFileSync path])%list in
    match lookup path (Node.documents st) with
    | Some parsed => k parsed st'
    | None => (st', Throw (Error "ENOENT or SyntaxError"))
    end.
Proof.
  unfold Node.bind, Node.readDocument.
  destruct (lookup path (Node.documents st)); reflexivity.
Qed.

Lemma bind_lift {A B : Type} (r : result A) (k : A -> Node.io B) (st : Node.state) :
  Node.bind (Node.lift r) k st
  = match r with
    | Ok a => k a st
    | Throw e => (st, Throw e)
    | Beyond => (st, Beyond)
    end.
Proof. unfold Node.bind, Node.lift. destruct r; reflexivity. Qed.

Ltac no_touch H :=
  cbn [fst snd Node.trace Node.throw Node.lift app Props.touches existsb
         Props.creates orb] in H;
  discriminate H.

(** X10.  The commands generate and watch create nothing before every
    check has passed.  If a run of [generateClient] creates a directory or
    writes a file, then the language is one of typescript, python and go,
    the input file held a document, the normalizer returned a specification
    for it, and the engine was built; so a missing input, a language
    outside the list, a document without a version marker or one the
    normalizer otherwise fails on leave the disk as it was.  The same holds
    for [watchAndGenerate], the check of the language apart, which it does
    not make. *)
Theorem commands_check_first (options : Cli.options)
    (documents : list (string * value)) (directories : list string) :
  (Props.touches
     (Node.trace (fst (Cli.run (Cli.generateClient options) documents directories)))
   = true ->
   existsb (String.eqb (Cli.language options)) Cli.validLanguages = true
   /\ exists (parsed : value) (spec : ParsedAPISpec.t) (engine : Engine.engine),
        lookup (Cli.input options) documents = Some parsed
        /\ Parser.parseDocument parsed = Ok spec
        /\ Engine.new (Props.configOf options false) spec = Ok engine)
  /\ (Props.touches
        (Node.trace
           (fst (Cli.run (Cli.watchAndGenerate options) documents directories)))
      = true ->
      exists (parsed : value) (spec : ParsedAPISpec.t) (engine : Engine.engine),
        lookup (Cli.input options) documents = Some parsed
        /\ Parser.parseDocument parsed = Ok spec
        /\ Engine.new (Props.configOf options true) spec = Ok engine).
Proof.
  split.
  - unfold Cli.run, Cli.generateClient, Node.resolve. cbv zeta.
    rewrite bind_existsSync.
    destruct (Node.present _ (Cli.input options)); cbn [negb];
      [| intro H; no_touch H].
    destruct (existsb (String.eqb (Cli.language options)) Cli.validLanguages);
      cbn [negb]; [| intro H; no_touch H].
    rewrite !bind_consoleLog, bind_readDocument. cbv zeta.
    cbn [Node.documents].
    destruct (lookup (Cli.input options) documents) as [parsed |] eqn:Hfile;
      [| intro H; no_touch H].
    rewrite bind_lift.
    destruct (Parser.parseDocument parsed) as [spec | e |] eqn:Hspec;
      [| intro H; no_touch H | intro H; no_touch H].
    rewrite bind_lift.
    destruct (toString (ParsedAPISpec.title spec));
      [| intro H; no_touch H | intro H; no_touch H].
    rewrite bind_lift.
    destruct (toString (ParsedAPISpec.version spec));
      [| intro H; no_touch H | intro H; no_touch H].
    rewrite bind_consoleLog, bind_lift.
    destruct (toString (ParsedAPISpec.baseUrl spec));
      [| intro H; no_touch H | intro H; no_touch H].
    rewrite !bind_consoleLog, bind_lift.
    fold (Props.configOf options false).
    destruct (Engine.new _ spec) as [engine | e |] eqn:Hnew;
      [| intro H; no_touch H | intro H; no_touch H].
    intros _. split; [reflexivity |].
    exists parsed, spec, engine. repeat split; assumption.
  - unfold Cli.run, Cli.watchAndGenerate, Node.resolve. cbv zeta.
    rewrite bind_existsSync.
    destruct (Node.present _ (Cli.input options)); cbn [negb];
      [| intro H; no_touch H].
    rewrite !bind_consoleLog, bind_readDocument. cbv zeta.
    cbn [Node.documents].
    destruct (lookup (Cli.input options) documents) as [parsed |] eqn:Hfile;
      [| intro H; no_touch H].
    rewrite bind_lift.
    destruct (Parser.parseDocument parsed) as [spec | e |] eqn:Hspec;
      [| intro H; no_touch H | intro H; no_touch H].
    rewrite bind_lift.
    destruct (toString (ParsedAPISpec.title spec));
      [| intro H; no_touch H | intro H; no_touch H].
    rewrite bind_lift.
    destruct (toString (ParsedAPISpec.version spec));
      [| intro H; no_touch H | intro H; no_touch H].
    rewrite !bind_consoleLog, bind_lift.
    fold (Props.configOf options true).
    destruct (Engine.new _ spec) as [engine | e |] eqn:Hnew;
      [| intro H; no_touch H | intro H; no_touch H].
    intros _. exists parsed, spec, engine. repeat split; assumption.
Qed.

(** The run of generate on the Pet document writes files, and the checks
    it has passed are those of the statement; the run on a document without
    a version marker creates nothing. *)
Lemma commands_check_first_witness :
  (existsb (String.eqb "typescript") Cli.validLanguages = true
   /\ exists (parsed : value) (spec : ParsedAPISpec.t) (engine : Engine.engine),
        lookup "/work/api.json" [("/work/api.json", Spec.petDocument)] = Some parsed
        /\ Parser.parseDocument parsed = Ok spec
        /\ Engine.new (Props.configOf Spec.typescriptOptions false) spec = Ok engine)
  /\ Props.touches
       (Node.trace
          (fst (Cli.run (Cli.generateClient Spec.typescriptOptions)
                  [("/work/api.json", Spec.noMarker)] ["/work"])))
     = false.
Proof.
  split; [| reflexivity].
  exact (proj1 (commands_check_first Spec.typescriptOptions
                  [("/work/api.json", Spec.petDocument)] ["/work"]) eq_refl).
Defined.

(** ** The watcher is registered last *)

Lemma watched_app (a b : list Node.event) :
  Props.watched (a ++ b) = (Props.watched a ++ Props.watched b)%list.
Proof. unfold Props.watched. apply flat_map_app. Qed.

Lemma within_watched (dirs : list string) (evs : list Node.event) :
  forallb (Props.within dirs) evs = true -> Props.watched evs = [].
Proof.
  induction evs as [| e evs IH]; [reflexivity |].
  simpl. intro H. apply andb_prop in H. destruct H as (He & H).
  rewrite (IH H). destruct e; try reflexivity. discriminate He.
Qed.

Lemma new_config (config : GeneratorConfig.t) (spec : ParsedAPISpec.t)
    (engine : Engine.engine) :
  Engine.new config spec = Ok engine -> Engine.config engine = config.
Proof.
  unfold Engine.new. intro H. apply bind_Ok in H. destruct H as (context & _ & H).
  injection H as <-. reflexivity.
Qed.

Ltac no_watch :=
  split;
  [ let H := fresh in intro H; discriminate H
  | intros _;
    cbn [fst snd Node.trace Node.throw Node.lift app Props.watched flat_map];
    reflexivity ].

(** X18.  The command watch registers the watcher last and only after a
    generation that succeeded: when [watchAndGenerate] returns, the request
    to watch the input file and the line that announces it are the last two
    events of the run, and nothing was watched before; when it does not
    return (the input is missing, the normalizer or the generator throws),
    no file is watched at all. *)
Theorem watch_after_generation (options : Cli.options)
    (documents : list (string * value)) (directories : list string) :
  let run := Cli.run (Cli.watchAndGenerate options) documents directories in
  (snd run = Ok tt ->
   exists evs : list Node.event,
     Node.trace (fst run) = (evs ++ Props.watching (Cli.input options))%list
     /\ Props.watched evs = [])
  /\ (snd run <> Ok tt -> Props.watched (Node.trace (fst run)) = []).
Proof.
  unfold Cli.run, Cli.watchAndGenerate, Node.resolve. cbv zeta.
  rewrite bind_existsSync.
  destruct (Node.present _ (Cli.input options)); cbn [negb]; [| no_watch].
  rewrite !bind_consoleLog, bind_readDocument. cbv zeta. cbn [Node.documents].
  destruct (lookup (Cli.input options) documents) as [parsed |]; [| no_watch].
  rewrite bind_lift.
  destruct (Parser.parseDocument parsed) as [spec | e |]; [| no_watch | no_watch].
  rewrite bind_lift.
  destruct (toString (ParsedAPISpec.title spec)); [| no_watch | no_watch].
  rewrite bind_lift.
  destruct (toString (ParsedAPISpec.version spec)); [| no_watch | no_watch].
  rewrite !bind_consoleLog, bind_lift.
  destruct (Engine.new _ spec) as [engine | e |] eqn:Hnew; [| no_watch | no_watch].
  apply new_config in Hnew.
  match goal with
  | |- context [Node.bind (Engine.generate engine) _ ?st] => set (st5 := st)
  end.
  assert (Hbefore : Props.watched (Node.trace st5) = []) by reflexivity.
  destruct (engine_inOrder engine st5) as (evs & Htrace & _ & Hin & _).
  apply within_watched in Hin.
  unfold Node.bind. destruct (Engine.generate engine st5) as [st6 [[] | e |]];
    cbn [fst snd] in *.
  - unfold Engine.watch, Node.bind, Node.consoleLog, Node.emit.
    cbn [fst snd Node.trace Node.documents Node.paths]. rewrite Hnew.
    cbn [GeneratorConfig.inputFile]. split.
    + intros _. exists (Node.trace st6). rewrite <- app_assoc. split; [reflexivity |].
      rewrite Htrace, watched_app, Hbefore, Hin. reflexivity.
    + intro H. contradiction H. reflexivity.
  - split; [intro H; discriminate H |].
    intros _. rewrite Htrace, watched_app, Hbefore, Hin. reflexivity.
  - split; [intro H; discriminate H |].
    intros _. rewrite Htrace, watched_app, Hbefore, Hin. reflexivity.
Qed.

(** The run of watch on the Pet document ends with the request to watch
    /work/api.json. *)
Lemma watch_after_generation_witness :
  exists evs : list Node.event,
    Node.trace
      (fst (Cli.run (Cli.watchAndGenerate Spec.typescriptOptions)
              [("/work/api.json", Spec.petDocument)] ["/work"]))
    = (evs ++ Props.watching "/work/api.json")%list
    /\ Props.watched evs = [].
Proof.
  assert (Hrun : snd (Cli.run (Cli.watchAndGenerate Spec.typescriptOptions)
                        [("/work/api.json", Spec.petDocument)] ["/work"]) = Ok tt)
    by (vm_compute; reflexivity).
  exact (proj1 (watch_after_generation Spec.typescriptOptions
                  [("/work/api.json", Spec.petDocument)] ["/work"]) Hrun).
Defined.

(** ** The command init *)






(** ** The command validate *)

Lemma touches_app (a b : list Node.event) :
  Props.touches (a ++ b) = Props.touches a || Props.touches b.
Proof. unfold Props.touches. apply existsb_app. Qed.

Lemma quiet_ret {A : Type} (a : A) : Props.quiet (Node.ret a).
Proof. intro st. exists []. cbn. rewrite app_nil_r. repeat split. Qed.

Lemma quiet_lift {A : Type} (r : result A) : Props.quiet (Node.lift r).
Proof. intro st. exists []. cbn. rewrite app_nil_r. repeat split. Qed.

Lemma quiet_consoleLog (text : string) : Props.quiet (Node.consoleLog text).
Proof. intro st. exists [Node.ConsoleLog text]. cbn. repeat split. Qed.

Lemma quiet_existsSync (path : string) : Props.quiet (Node.existsSync path).
Proof. intro st. exists [Node.ExistsSync path]. cbn. repeat split. Qed.

Lemma quiet_readDocument (path : string) : Props.quiet (Node.readDocument path).
Proof. intro st. exists [Node.ReadFileSync path]. cbn. repeat split. Qed.

Lemma quiet_bind {A B : Type} (m : Node.io A) (k : A -> Node.io B) :
  Props.quiet m -> (forall a, Props.quiet (k a)) -> Props.quiet (Node.bind m k).
Proof.
  intros Hm Hk st. unfold Node.bind.
  destruct (Hm st) as (evs & Htrace & Htouch & Hdocs & Hpaths).
  destruct (m st) as [st1 [a | e |]]; cbn [fst snd] in *;
    try (exists evs; repeat split; assumption).
  destruct (Hk a st1) as (evs' & Htrace' & Htouch' & Hdocs' & Hpaths').
  exists (evs ++ evs')%list.
  rewrite Htrace', Htrace, Hdocs', Hdocs, Hpaths', Hpaths, touches_app,
    Htouch, Htouch', app_assoc.
  repeat split.
Qed.

Ltac quiet_steps :=
  repeat first
    [ apply quiet_ret
    | apply quiet_lift
    | apply quiet_consoleLog
    | apply quiet_existsSync
    | apply quiet_readDocument
    | apply quiet_bind; [| intro] ].

Lemma quiet_endpointLines (endpoints : list ParsedEndpoint.t) :
  Props.quiet (Commands.endpointLines endpoints).
Proof.
  induction endpoints as [| ep endpoints IH]; cbn [Commands.endpointLines].
  - apply quiet_ret.
  - apply quiet_bind; [| intro; exact IH].
    unfold Commands.endpointLine. quiet_steps.
Qed.

Lemma quiet_summary (resolvedPath : string) :
  Props.quiet (Commands.summary resolvedPath).
Proof.
  unfold Commands.summary.
  repeat first
    [ apply quiet_endpointLines
    | apply quiet_lift
    | apply quiet_consoleLog
    | apply quiet_readDocument
    | apply quiet_bind; [| intro] ].
Qed.

(** [validateSpec], by the run of the body of its [try]. *)
Lemma validateSpec_eq (inputFile : string) (st : Process.state) :
  let looked :=
    Node.makeState (Node.documents (Process.node st)) (Node.paths (Process.node st))
      (Node.trace (Process.node st)
       ++ [Node.ConsoleLog (Cli.nl ++ "🔍 Validating OpenAPI Specification");
           Node.ConsoleLog Cli.rule;
           Node.ExistsSync inputFile])%list in
  Commands.validateSpec inputFile st
  = if Node.present (Process.node st) inputFile then
      match Commands.summary inputFile looked with
      | (node', Throw e) =>
          (Process.makeState node'
             (Process.stderr st ++ [Props.validationFailed])%list,
           Throw e)
      | (node', completion) => (Process.makeState node' (Process.stderr st), completion)
      end
    else (Process.makeState looked (Process.stderr st),
          Throw (Error ("File not found: " ++ inputFile))).
Proof.
  cbv zeta. unfold Commands.validateSpec, Node.resolve. cbv zeta.
  unfold Process.bind at 1. unfold Process.lift at 1.
  cbn [Node.consoleLog Node.emit Process.node Process.stderr].
  unfold Process.bind at 1. unfold Process.lift at 1.
  cbn [Node.consoleLog Node.emit Process.node Process.stderr
         Node.documents Node.paths Node.trace].
  unfold Process.bind at 1. unfold Process.lift at 1.
  cbn [Node.existsSync Process.node Process.stderr
         Node.documents Node.paths Node.trace].
  rewrite (present_paths _ _ _ (Node.trace (Process.node st))).
  replace (Node.makeState (Node.documents (Process.node st))
             (Node.paths (Process.node st)) (Node.trace (Process.node st)))
    with (Process.node st) by (destruct (Process.node st); reflexivity).
  rewrite <- !app_assoc. cbn [app].
  destruct (Node.present (Process.node st) inputFile); cbn [negb];
    [| reflexivity].
  unfold Process.tryCatch, Process.lift at 1.
  cbn [Process.node Process.stderr].
  destruct (Commands.summary inputFile _) as [node' [[] | e |]]; reflexivity.
Qed.

Lemma endpointLine_run (ep : ParsedEndpoint.t) (st : Node.state) :
  Props.printable (ParsedEndpoint.operationId ep) = true ->
  Commands.endpointLine ep st
  = (Node.makeState (Node.documents st) (Node.paths st)
       (Node.trace st ++ [Node.ConsoleLog (Props.endpointText ep)])%list,
     Ok tt).
Proof.
  intro Hep. unfold Commands.endpointLine. rewrite bind_lift.
  destruct (toString_printable _ Hep) as (text & Htext).
  unfold Props.endpointText, Props.printed. rewrite Htext. reflexivity.
Qed.

Lemma endpointLines_run (endpoints : list ParsedEndpoint.t) (st : Node.state) :
  forallb (fun ep => Props.printable (ParsedEndpoint.operationId ep)) endpoints
  = true ->
  Commands.endpointLines endpoints st
  = (Node.makeState (Node.documents st) (Node.paths st)
       (Node.trace st
        ++ map (fun ep => Node.ConsoleLog (Props.endpointText ep)) endpoints)%list,
     Ok tt).
Proof.
  revert st. induction endpoints as [| ep endpoints IH]; intros st H.
  - cbn. rewrite app_nil_r. destruct st; reflexivity.
  - simpl in H. apply andb_prop in H. destruct H as (Hep & H).
    cbn [Commands.endpointLines]. unfold Node.bind.
    rewrite (endpointLine_run ep st Hep), (IH _ H).
    cbn [Node.documents Node.paths Node.trace map].
    rewrite <- app_assoc. reflexivity.
Qed.

Lemma lookup_present (st : Node.state) (path : string) (parsed : value) :
  lookup path (Node.documents st) = Some parsed -> Node.present st path = true.
Proof.
  intro H. unfold Node.present, hasOwn. rewrite H. apply orb_true_r.
Qed.

Lemma securitySchemes_keys (parsed : value) (spec : ParsedAPISpec.t) :
  Parser.parseDocument parsed = Ok spec ->
  exists names, keys (ParsedAPISpec.securitySchemes spec) = Ok names.
Proof.
  intro H. unfold Parser.parseDocument in H.
  apply bind_Ok in H. destruct H as (document & _ & H).
  apply parse_fields in H. destruct H as (_ & _ & _ & H & _).
  unfold Parser.parseSecuritySchemes in H.
  apply bind_Ok in H. destruct H as (components & _ & H).
  apply bind_Ok in H. destruct H as (schemes & _ & H).
  destruct (truthy schemes) eqn:Ht; cbn [negb] in H; injection H as <-.
  - unfold keys. rewrite (truthy_not_nullish _ Ht). eexists. reflexivity.
  - eexists. reflexivity.
Qed.

Lemma summary_passes (path : string) (st : Node.state) :
  snd (Commands.summary path st) = Ok tt ->
  exists (parsed : value) (spec : ParsedAPISpec.t),
    lookup path (Node.documents st) = Some parsed
    /\ Parser.parseDocument parsed = Ok spec.
Proof.
  unfold Commands.summary. rewrite bind_readDocument. cbv zeta.
  destruct (lookup path (Node.documents st)) as [parsed |];
    [| intro H; discriminate H].
  rewrite bind_lift.
  destruct (Parser.parseDocument parsed) as [spec | e |] eqn:Hspec;
    [| intro H; discriminate H | intro H; discriminate H].
  intros _. exists parsed, spec. split; [reflexivity | exact Hspec].
Qed.

(** X13.  The command validate creates nothing, whatever it is given: a run
    of [validateSpec] adds to the trace only what it prints and what it
    looks at and reads, and leaves the paths and the documents as they
    are.  When the file is missing it throws [File not found] and prints
    nothing on standard error; when the normalizer throws on the document
    it prints [Validation failed!] on standard error and throws the same
    exception again; it returns only for a document the normalizer accepts.
    For such a document whose title, version, base URL and operation
    identifiers are printable it does return, and the last lines it prints
    are the endpoints, one a line: the method in upper case, padded to
    seven characters, the path and the operation identifier. *)
Theorem validateSpec_reports (inputFile : string) (st : Process.state) :
  let run := Commands.validateSpec inputFile st in
  let disk := Process.node st in
  (Node.documents (Process.node (fst run)) = Node.documents disk
   /\ Node.paths (Process.node (fst run)) = Node.paths disk
   /\ exists evs : list Node.event,
        Node.trace (Process.node (fst run)) = (Node.trace disk ++ evs)%list
        /\ Props.touches evs = false)
  /\ (Node.present disk inputFile = false ->
      snd run = Throw (Error ("File not found: " ++ inputFile))
      /\ Process.stderr (fst run) = Process.stderr st)
  /\ (forall (parsed : value) (e : exn),
        lookup inputFile (Node.documents disk) = Some parsed ->
        Parser.parseDocument parsed = Throw e ->
        snd run = Throw e
        /\ Process.stderr (fst run)
           = (Process.stderr st ++ [Props.validationFailed])%list)
  /\ (snd run = Ok tt ->
      Process.stderr (fst run) = Process.stderr st
      /\ exists (parsed : value) (spec : ParsedAPISpec.t),
           lookup inputFile (Node.documents disk) = Some parsed
           /\ Parser.parseDocument parsed = Ok spec)
  /\ (forall (parsed : value) (spec : ParsedAPISpec.t),
        lookup inputFile (Node.documents disk) = Some parsed ->
        Parser.parseDocument parsed = Ok spec ->
        Props.printable (ParsedAPISpec.title spec) = true ->
        Props.printable (ParsedAPISpec.version spec) = true ->
        Props.printable (ParsedAPISpec.baseUrl spec) = true ->
        forallb (fun ep => Props.printable (ParsedEndpoint.operationId ep))
          (ParsedAPISpec.endpoints spec) = true ->
        snd run = Ok tt
        /\ exists evs : list Node.event,
             Node.trace (Process.node (fst run))
             = (Node.trace disk ++ evs
                ++ map (fun ep => Node.ConsoleLog (Props.endpointText ep))
                     (ParsedAPISpec.endpoints spec))%list).
Proof.
  intros run disk. unfold run. rewrite validateSpec_eq. cbv zeta. fold disk.
  set (looked := Node.makeState (Node.documents disk) (Node.paths disk) _).
  split; [| split; [| split; [| split]]].
  - destruct (Node.present disk inputFile).
    + destruct (quiet_summary inputFile looked)
        as (evs & Htrace & Htouch & Hdocs & Hpaths).
      destruct (Commands.summary inputFile looked) as [node' [[] | e |]];
        cbn [fst snd Process.node] in *;
        (split; [exact Hdocs |]); (split; [exact Hpaths |]);
        (eexists; split;
         [rewrite Htrace; unfold looked; cbn [Node.trace];
          rewrite <- app_assoc; reflexivity
         | cbn [app]; unfold Props.touches in *; cbn [existsb Props.creates orb];
           exact Htouch]).
    + cbn [fst snd Process.node]. unfold looked.
      cbn [Node.documents Node.paths Node.trace].
      repeat split. eexists. split; reflexivity.
  - intros ->. split; reflexivity.
  - intros parsed e Hfile Hthrow.
    rewrite (lookup_present disk inputFile parsed Hfile).
    unfold Commands.summary. rewrite bind_readDocument. cbv zeta.
    change (Node.documents looked) with (Node.documents disk).
    rewrite Hfile, bind_lift, Hthrow.
    split; reflexivity.
  - destruct (Node.present disk inputFile); [| intro H; discriminate H].
    pose proof (summary_passes inputFile looked) as Hpass.
    destruct (Commands.summary inputFile looked) as [node' [[] | e |]];
      cbn [fst snd] in *; intro H; try discriminate H.
    split; [reflexivity |]. exact (Hpass eq_refl).
  - intros parsed spec Hfile Hspec Htitle Hversion Hbase Hids.
    rewrite (lookup_present disk inputFile parsed Hfile).
    destruct (toString_printable _ Htitle) as (title & Etitle).
    destruct (toString_printable _ Hversion) as (version & Eversion).
    destruct (toString_printable _ Hbase) as (baseUrl & Ebase).
    destruct (securitySchemes_keys parsed spec Hspec) as (names & Enames).
    unfold Commands.summary. rewrite bind_readDocument. cbv zeta.
    change (Node.documents looked) with (Node.documents disk).
    rewrite Hfile, bind_lift, Hspec.
    rewrite !bind_consoleLog, bind_lift, Etitle.
    rewrite !bind_consoleLog, bind_lift, Eversion.
    rewrite !bind_consoleLog, bind_lift, Ebase.
    rewrite !bind_consoleLog, bind_lift, Enames.
    rewrite !bind_consoleLog.
    rewrite (endpointLines_run _ _ Hids).
    cbn [fst snd Process.node Node.trace Node.documents Node.paths].
    split; [reflexivity |].
    unfold looked. cbn [Node.trace]. rewrite <- !app_assoc. cbn [app].
    eexists [_; _; _; _; _; _; _; _; _; _; _; _; _]. cbn [app]. reflexivity.
Qed.

(** The Pet document passes, and the line of its endpoint is the last one
    printed; a document without a version marker fails, with the line
    [Validation failed!] on standard error. *)
Lemma validateSpec_reports_witness :
  snd (Commands.validateSpec "/work/api.json"
         (Process.makeState
            (Node.makeState [("/work/api.json", Spec.petDocument)] ["/work"] []) []))
  = Ok tt
  /\ (exists evs : list Node.event,
         Node.trace
           (Process.node
              (fst (Commands.validateSpec "/work/api.json"
                      (Process.makeState
                         (Node.makeState [("/work/api.json", Spec.petDocument)]
                            ["/work"] []) []))))
         = (evs ++ [Node.ConsoleLog "  GET     /pets/{id} → getPet"])%list)
  /\ snd (Commands.validateSpec "/work/api.json"
            (Process.makeState
               (Node.makeState [("/work/api.json", Spec.noMarker)] ["/work"] []) []))
     = Throw Parser.invalidSpecification
  /\ Process.stderr
       (fst (Commands.validateSpec "/work/api.json"
               (Process.makeState
                  (Node.makeState [("/work/api.json", Spec.noMarker)] ["/work"] [])
                  [])))
     = [Props.validationFailed].
Proof.
  destruct (validateSpec_reports "/work/api.json"
              (Process.makeState
                 (Node.makeState [("/work/api.json", Spec.petDocument)] ["/work"] [])
                 [])) as (_ & _ & _ & _ & Hpass).
  destruct (Hpass Spec.petDocument Props.petSpec eq_refl eq_refl eq_refl eq_refl
              eq_refl eq_refl) as (Hok & evs & Htrace).
  destruct (validateSpec_reports "/work/api.json"
              (Process.makeState
                 (Node.makeState [("/work/api.json", Spec.noMarker)] ["/work"] [])
                 [])) as (_ & _ & Hfail & _).
  destruct (Hfail Spec.noMarker Parser.invalidSpecification eq_refl eq_refl)
    as (Hthrow & Herr).
  split; [exact Hok |]. split; [exists evs; exact Htrace |].
  split; [exact Hthrow | exact Herr].
Defined.

(* ================================================================== *)
(** * Further properties of the watcher *)
(* ================================================================== *)

Lemma hasOwn_names (path : string) (a b : list (string * value)) :
  map fst a = map fst b -> hasOwn path a = hasOwn path b.
Proof.
  unfold hasOwn. revert b. induction a as [| [k v] a IH]; intros b H.
  - destruct b; [reflexivity | discriminate H].
  - destruct b as [| [k' v'] b]; [discriminate H |].
    simpl in H. injection H as <- H. rewrite !lookup_cons.
    destruct (String.eqb path k); [reflexivity | apply IH; exact H].
Qed.

Lemma sameFiles_present (st st' : Node.state) (path : string) :
  Props.sameFiles st st' -> Node.present st path = Node.present st' path.
Proof.
  intros (Hdocs & Hpaths & _). unfold Node.present.
  rewrite Hpaths, (hasOwn_names path _ _ Hdocs). reflexivity.
Qed.

Lemma blind_ret {A : Type} (a : A) : Props.blind (Node.ret a).
Proof. intros st st' H. split; [reflexivity | exact H]. Qed.

Lemma blind_lift {A : Type} (r : result A) : Props.blind (Node.lift r).
Proof. intros st st' H. split; [reflexivity | exact H]. Qed.

Lemma blind_consoleLog (text : string) : Props.blind (Node.consoleLog text).
Proof.
  intros st st' (Hdocs & Hpaths & Htrace). split; [reflexivity |].
  cbn. rewrite Htrace. repeat split; assumption.
Qed.

Lemma blind_existsSync (path : string) : Props.blind (Node.existsSync path).
Proof.
  intros st st' H. cbn [Node.existsSync fst snd].
  rewrite (sameFiles_present st st' path H).
  destruct H as (Hdocs & Hpaths & Htrace).
  split; [reflexivity |]. cbn. rewrite Htrace. repeat split; assumption.
Qed.

Lemma blind_mkdirSync (path : string) : Props.blind (Node.mkdirSync path).
Proof.
  intros st st' (Hdocs & Hpaths & Htrace). split; [reflexivity |].
  cbn. rewrite Htrace, Hpaths. repeat split; assumption.
Qed.

Lemma blind_writeFileSync (path : string) (content : Node.artifact) :
  Props.blind (Node.writeFileSync path content).
Proof.
  intros st st' H. unfold Node.writeFileSync.
  rewrite (sameFiles_present st st' _ H).
  destruct H as (Hdocs & Hpaths & Htrace).
  destruct (Node.present st' (Node.dirname path));
    (split; [reflexivity |]); cbn; rewrite Htrace, ?Hpaths;
    repeat split; assumption.
Qed.

Lemma blind_bind {A B : Type} (m : Node.io A) (k : A -> Node.io B) :
  Props.blind m -> (forall a, Props.blind (k a)) -> Props.blind (Node.bind m k).
Proof.
  intros Hm Hk st st' H. unfold Node.bind.
  destruct (Hm st st' H) as (Hvalue & Hstate).
  destruct (m st) as [st1 r], (m st') as [st1' r']. cbn [fst snd] in *.
  subst r'. destruct r as [a | e |]; [apply Hk; exact Hstate | |];
    (split; [reflexivity | exact Hstate]).
Qed.

Lemma blind_when (b : bool) (m : Node.io unit) :
  Props.blind m -> Props.blind (Node.when b m).
Proof. intro H. destruct b; [exact H | apply blind_ret]. Qed.

Ltac blind_steps :=
  repeat first
    [ apply blind_ret
    | apply blind_lift
    | apply blind_consoleLog
    | apply blind_existsSync
    | apply blind_mkdirSync
    | apply blind_writeFileSync
    | apply blind_when
    | apply blind_bind; [| intro] ].

Lemma blind_writeFile (this : TypeScript.generator) (filename : string)
    (content : Node.artifact) :
  Props.blind (TypeScript.writeFile this filename content).
Proof. unfold TypeScript.writeFile. blind_steps. Qed.

Lemma blind_generate (this : Engine.engine) : Props.blind (Engine.generate this).
Proof.
  unfold Engine.generate.
  apply blind_bind; [apply blind_consoleLog | intro].
  apply blind_bind; [apply blind_consoleLog | intro].
  apply blind_bind; [apply blind_consoleLog | intro].
  apply blind_bind; [apply blind_consoleLog | intro].
  apply blind_bind; [apply blind_existsSync | intro].
  apply blind_bind; [apply blind_when, blind_mkdirSync | intro].
  apply blind_bind.
  { unfold Engine.getGenerator. destruct (String.eqb _ _); blind_steps. }
  intro generator.
  apply blind_bind; [| intro; apply blind_consoleLog].
  unfold TypeScript.generate.
  apply blind_bind; [apply blind_existsSync | intro].
  apply blind_bind; [apply blind_when, blind_mkdirSync | intro].
  apply blind_bind.
  { unfold TypeScript.generateSchemas.
    destruct (ParsedAPISpec.schemas _); [apply blind_ret |].
    apply blind_bind; [apply blind_lift | intro; apply blind_writeFile]. }
  intro. apply blind_bind; [apply blind_lift | intro].
  apply blind_bind; [apply blind_writeFile | intro].
  apply blind_bind; [apply blind_when, blind_writeFile | intro].
  apply blind_bind.
  { unfold TypeScript.generateTypesFile.
    apply blind_bind; [apply blind_lift | intro; apply blind_writeFile]. }
  intro. apply blind_bind.
  { apply blind_when. unfold TypeScript.generateExamples.
    apply blind_bind; [apply blind_lift | intro; apply blind_writeFile]. }
  intro. unfold TypeScript.generatePackageJson.
  apply blind_bind; [apply blind_writeFile | intro; apply blind_writeFile].
Qed.

Lemma blind_regeneration (this : Engine.engine) (announce : bool) :
  Props.blind
    (Node.bind (Engine.generate this)
       (fun _ => match Props.callbackOf announce with
                 | Some call => call
                 | None => Node.ret tt
                 end)).
Proof.
  apply blind_bind; [apply blind_generate | intro].
  destruct announce; [apply blind_consoleLog | apply blind_ret].
Qed.

(** The listener, by the run of the regeneration and of the callback. *)
Lemma onChange_eq (this : Engine.engine) (announce : bool) (st : Process.state) :
  let changed :=
    Node.makeState (Node.documents (Process.node st)) (Node.paths (Process.node st))
      (Node.trace (Process.node st)
       ++ [Node.ConsoleLog (Cli.nl ++ "📄 File changed, regenerating...")])%list in
  Watcher.onChange this (Props.callbackOf announce) st
  = match Node.bind (Engine.generate this)
            (fun _ => match Props.callbackOf announce with
                      | Some call => call
                      | None => Node.ret tt
                      end) changed with
    | (node', Throw e) =>
        (Process.makeState node'
           (Process.stderr st ++ [Process.Report "Error regenerating:" (Some e)])%list,
         Ok tt)
    | (node', completion) => (Process.makeState node' (Process.stderr st), completion)
    end.
Proof.
  cbv zeta. unfold Watcher.onChange.
  unfold Process.bind at 1. unfold Process.lift at 1.
  cbn [Node.consoleLog Node.emit Process.node Process.stderr].
  unfold Process.tryCatch, Process.bind, Process.lift, Node.bind.
  cbn [Process.node Process.stderr].
  destruct (Engine.generate this _) as [node1 [[] | e |]];
    cbn [Process.node Process.stderr]; try reflexivity.
  destruct announce; cbn [Props.callbackOf Process.ret Node.ret];
    cbn [Process.node Process.stderr]; try reflexivity.
Qed.

(** X11.  The listener of the watcher regenerates from the specification
    the engine was built with, and does not read the file that changed: on
    two disks that differ only in what their documents hold, the changed
    input file included, a run of the listener writes the same artifacts
    with the same contents, prints the same and ends the same.  The
    listener itself never throws: what the regeneration throws is printed
    on standard error. *)
Theorem regeneration_ignores_content (this : Engine.engine) (announce : bool)
    (st st' : Node.state) (errors : list Process.report) :
  Props.sameFiles st st' ->
  let run := Watcher.onChange this (Props.callbackOf announce)
               (Process.makeState st errors) in
  let run' := Watcher.onChange this (Props.callbackOf announce)
                (Process.makeState st' errors) in
  snd run = snd run'
  /\ Process.stderr (fst run) = Process.stderr (fst run')
  /\ Node.trace (Process.node (fst run)) = Node.trace (Process.node (fst run'))
  /\ Node.paths (Process.node (fst run)) = Node.paths (Process.node (fst run'))
  /\ (forall e : exn, snd run <> Throw e).
Proof.
  intros Hsame run run'. unfold run, run'. rewrite !onChange_eq. cbv zeta.
  cbn [Process.node Process.stderr].
  set (changed := Node.makeState (Node.documents st) (Node.paths st) _).
  set (changed' := Node.makeState (Node.documents st') (Node.paths st') _).
  assert (Hchanged : Props.sameFiles changed changed').
  { destruct Hsame as (Hdocs & Hpaths & Htrace). unfold changed, changed'.
    repeat split; cbn; [exact Hdocs | exact Hpaths | rewrite Htrace; reflexivity]. }
  destruct (blind_regeneration this announce changed changed' Hchanged)
    as (Hvalue & _ & Hpaths & Htrace).
  destruct (Node.bind (Engine.generate this) _ changed) as [node1 r].
  destruct (Node.bind (Engine.generate this) _ changed') as [node1' r'].
  cbn [fst snd] in *. subst r'.
  destruct r as [[] | e |]; cbn [fst snd Process.node Process.stderr];
    repeat split; try assumption; intros e' H; discriminate H.
Qed.

(** The engine was built for the Pet document; after the input file has
    come to hold a document with no schema, the listener still writes the
    interface Pet to types.ts, as it does when the file has not changed. *)
Lemma regeneration_ignores_content_witness :
  Node.trace
    (Process.node
       (fst (Watcher.onChange Props.petEngine (Props.callbackOf true)
               (Process.makeState Props.before []))))
  = Node.trace
      (Process.node
         (fst (Watcher.onChange Props.petEngine (Props.callbackOf true)
                 (Process.makeState Props.after []))))
  /\ Spec.writtenTo "/work/out/typescript/types.ts"
       (Node.trace
          (Process.node
             (fst (Watcher.onChange Props.petEngine (Props.callbackOf true)
                     (Process.makeState Props.after [])))))
     = [Node.Text Spec.petTypes].
Proof.
  split; [| reflexivity].
  assert (Hsame : Props.sameFiles Props.before Props.after)
    by (repeat split; reflexivity).
  exact (proj1 (proj2 (proj2 (regeneration_ignores_content Props.petEngine true
                                Props.before Props.after [] Hsame)))).
Defined.

(* ================================================================== *)
(** * Further properties of the template helpers and of BaseGenerator *)
(* ================================================================== *)

(** ** Snake case, kebab case and back *)

Lemma upper_lower (c : ascii) : isUpper c = true -> upper (lower c) = c.
Proof. each_character c. Qed.

Lemma lower_upper (c : ascii) : isLower c = true -> lower (upper c) = c.
Proof. each_character c. Qed.

Lemma lower_other (c : ascii) : isUpper c = false -> lower c = c.
Proof. each_character c. Qed.

Lemma lower_not_terminator (c : ascii) :
  isUpper c = true -> isLineTerminator (lower c) = false.
Proof. each_character c. Qed.

Lemma upper_isUpper (c : ascii) : isLower c = true -> isUpper (upper c) = true.
Proof. each_character c. Qed.

Lemma lower_not_upper (c : ascii) : isLower c || isDigit c = true -> isUpper c = false.
Proof. each_character c. Qed.

Lemma lower_not_separator (c : ascii) :
  isLower c || isDigit c = true -> TypeScript.isSeparator c = false.
Proof. each_character c. Qed.

Lemma lower_letter_not_terminator (c : ascii) :
  isLower c = true -> isLineTerminator c = false.
Proof. each_character c. Qed.

Lemma separator_lower (c : ascii) :
  TypeScript.isSeparator c = true -> lower c = c /\ isUpper c = false.
Proof. each_character c; split; reflexivity. Qed.

Lemma camel_of_marked (mark : ascii) (s : string) :
  TypeScript.isSeparator mark = true ->
  Props.noSeparator s = true ->
  TypeScript.replaceSeparators (toLowerCase (Helpers.markUpper mark s)) = s.
Proof.
  intros Hmark. destruct (separator_lower mark Hmark) as (Hlower & _).
  unfold toLowerCase, Props.noSeparator.
  induction s as [| c s IH]; intro H; [reflexivity |].
  simpl in H. apply andb_prop in H. destruct H as (Hc & Hs).
  apply negb_true_iff in Hc. specialize (IH Hs).
  cbn [Helpers.markUpper]. destruct (isUpper c) eqn:Hupper.
  - cbn [mapChars]. rewrite Hlower.
    cbn [TypeScript.replaceSeparators].
    rewrite Hmark, (lower_not_terminator c Hupper). cbn [negb andb].
    rewrite (upper_lower c Hupper), IH. reflexivity.
  - cbn [mapChars]. rewrite (lower_other c Hupper).
    rewrite replaceSeparators_keep by exact Hc. rewrite IH. reflexivity.
Qed.

Lemma marked_of_camel (mark : ascii) (n : nat) :
  TypeScript.isSeparator mark = true ->
  forall s : string,
    String.length s <= n ->
    Props.isCased mark s = true ->
    toLowerCase (Helpers.markUpper mark (TypeScript.replaceSeparators s)) = s.
Proof.
  intro Hmark. destruct (separator_lower mark Hmark) as (Hlower & Hnot).
  unfold toLowerCase.
  induction n as [| n IH]; intros s Hlen H.
  - destruct s; [reflexivity | simpl in Hlen; lia].
  - destruct s as [| c s]; [reflexivity |].
    cbn [Props.isCased] in H. destruct (Ascii.eqb_spec c mark) as [-> | Hc].
    + destruct s as [| d s]; [discriminate H |].
      apply andb_prop in H. destruct H as (Hd & Hs).
      cbn [TypeScript.replaceSeparators].
      rewrite Hmark, (lower_letter_not_terminator d Hd). cbn [negb andb].
      cbn [Helpers.markUpper]. rewrite (upper_isUpper d Hd).
      cbn [mapChars]. rewrite Hlower, (lower_upper d Hd).
      rewrite IH; [reflexivity | simpl in Hlen; lia | exact Hs].
    + apply andb_prop in H. destruct H as (Hkind & Hs).
      rewrite replaceSeparators_keep by (apply lower_not_separator; exact Hkind).
      cbn [Helpers.markUpper]. rewrite (lower_not_upper c Hkind).
      cbn [mapChars]. rewrite (lower_other c (lower_not_upper c Hkind)).
      rewrite IH; [reflexivity | simpl in Hlen; lia | exact Hs].
Qed.

(** X14.  The helper camelCase undoes the helpers snakeCase and kebabCase,
    and they undo it.  For an ASCII name with no hyphen and no underscore,
    the camel case of its snake case and of its kebab case is the name
    itself.  For a name in snake case (lower-case letters and digits, and
    underscores each followed by a lower-case letter) the snake case of its
    camel case is the name itself, and likewise for kebab case with
    hyphens. *)
Theorem case_round_trips (s : string) :
  (Props.isAscii s = true ->
   Props.noSeparator s = true ->
   exists snake kebab : string,
     Helpers.snakeCase (Str s) = Ok snake
     /\ Helpers.kebabCase (Str s) = Ok kebab
     /\ Helpers.camelCase (Str snake) = Ok s
     /\ Helpers.camelCase (Str kebab) = Ok s)
  /\ (Props.isCased "_" s = true ->
      exists camel : string,
        Helpers.camelCase (Str s) = Ok camel
        /\ Helpers.snakeCase (Str camel) = Ok s)
  /\ (Props.isCased "-" s = true ->
      exists camel : string,
        Helpers.camelCase (Str s) = Ok camel
        /\ Helpers.kebabCase (Str camel) = Ok s).
Proof.
  unfold Helpers.snakeCase, Helpers.kebabCase, Helpers.camelCase.
  cbn [asString JS.bind]. split; [| split].
  - intros _ Hs. eexists. eexists.
    split; [reflexivity |]. split; [reflexivity |].
    rewrite !camel_of_marked by (try reflexivity; exact Hs).
    split; reflexivity.
  - intro Hs. eexists. split; [reflexivity |].
    rewrite (marked_of_camel "_" (String.length s) eq_refl s (le_n _) Hs).
    reflexivity.
  - intro Hs. eexists. split; [reflexivity |].
    rewrite (marked_of_camel "-" (String.length s) eq_refl s (le_n _) Hs).
    reflexivity.
Qed.

(** The names petStoreV2 and pet_store_v2 are the camel case and the snake
    case of each other. *)
Lemma case_round_trips_witness :
  Helpers.snakeCase (Str "petStoreV2") = Ok "pet_store_v2"
  /\ Helpers.camelCase (Str "pet_store_v2") = Ok "petStoreV2"
  /\ (exists camel : string,
         Helpers.camelCase (Str "pet-store") = Ok camel
         /\ Helpers.kebabCase (Str camel) = Ok "pet-store").
Proof.
  destruct (case_round_trips "petStoreV2") as (Hto & _).
  destruct (Hto eq_refl eq_refl) as (snake & kebab & Hsnake & _ & Hcamel & _).
  assert (E : snake = "pet_store_v2").
  { assert (H : Helpers.snakeCase (Str "petStoreV2") = Ok "pet_store_v2")
      by reflexivity.
    rewrite Hsnake in H. injection H as H. exact H. }
  rewrite E in Hsnake, Hcamel.
  split; [exact Hsnake |]. split; [exact Hcamel |].
  exact (proj2 (proj2 (case_round_trips "pet-store")) eq_refl).
Defined.

(** ** The helper pascalCase *)

Lemma replaceJoints_keep (c d : ascii) (s : string) :
  TypeScript.isSeparator d = false ->
  Helpers.replaceJoints (String c (String d s))
  = String c (Helpers.replaceJoints (String d s)).
Proof.
  intro Hd. cbn [Helpers.replaceJoints]. destruct s as [| e s].
  - reflexivity.
  - rewrite Hd, andb_false_r. reflexivity.
Qed.

Lemma replaceJoints_alnum (w : string) :
  Spec.allChars isAlnum w = true -> Helpers.replaceJoints w = w.
Proof.
  induction w as [| c w IH]; intro H; [reflexivity |].
  simpl in H. apply andb_prop in H. destruct H as (_ & Hw).
  destruct w as [| d w]; [reflexivity |].
  pose proof Hw as Hd. simpl in Hd. apply andb_prop in Hd. destruct Hd as (Hd & _).
  rewrite replaceJoints_keep by (apply alnum_not_separator; exact Hd).
  rewrite (IH Hw). reflexivity.
Qed.

Lemma joints_inv (gap word : string) (rest : list (string * string)) :
  Props.joints ((gap, word) :: rest) = true ->
  (exists sep, gap = String sep "" /\ TypeScript.isSeparator sep = true)
  /\ Props.isWord word = true
  /\ (rest <> [] -> 2 <= String.length word)
  /\ Props.joints rest = true.
Proof.
  cbn [Props.joints]. intro H.
  apply andb_prop in H. destruct H as (H & Hrest).
  apply andb_prop in H. destruct H as (H & Hlen).
  apply andb_prop in H. destruct H as (Hgap & Hword).
  repeat split; try assumption.
  - apply orb_prop in Hgap. destruct Hgap as [Hgap | Hgap];
      apply String.eqb_eq in Hgap; subst gap; eexists; split; reflexivity.
  - intro Hne. destruct rest; [contradiction Hne; reflexivity |].
    apply Nat.leb_le. exact Hlen.
Qed.

Lemma replaceJoints_rest (rest : list (string * string)) :
  Props.joints rest = true ->
  forall w : string,
    Spec.allChars isAlnum w = true ->
    (rest <> [] -> w <> "") ->
    Helpers.replaceJoints (Props.phrase w rest) = w ++ Props.capitalized rest.
Proof.
  unfold Props.phrase, Props.capitalized.
  induction rest as [| [gap word] rest IH]; intros Hrest w Hw Hne.
  - cbn [map String.concat]. rewrite append_nil_r.
    apply replaceJoints_alnum. exact Hw.
  - apply joints_inv in Hrest.
    destruct Hrest as ((sep & -> & Hsep) & Hword & Hlen & Hrest).
    apply word_inv in Hword. destruct Hword as (d & t & -> & Hd & Ht).
    cbn [map fst snd]. rewrite !concat_cons.
    specialize (IH Hrest t Ht).
    unfold Parser.capitalize at 1.
    cbn [charAt0 slice1 toUpperCase mapChars append].
    rewrite <- IH.
    2:{ intros Hsome E. subst t. specialize (Hlen Hsome). simpl in Hlen. lia. }
    clear IH.
    assert (Hsome : w <> "") by (apply Hne; discriminate).
    clear Hne. induction w as [| c w IHw]; [contradiction Hsome; reflexivity |].
    simpl in Hw. apply andb_prop in Hw. destruct Hw as (Hc & Hw).
    destruct w as [| c' w].
    + cbn [append Helpers.replaceJoints].
      rewrite (alnum_not_terminator c Hc), Hsep, (alnum_not_terminator d Hd).
      reflexivity.
    + pose proof Hw as Hc'. simpl in Hc'. apply andb_prop in Hc'.
      destruct Hc' as (Hc' & _).
      change (String c (String c' w) ++ ?x) with (String c (String c' (w ++ x))).
      rewrite replaceJoints_keep by (apply alnum_not_separator; exact Hc').
      change (String c' (w ++ ?x)) with (String c' w ++ x).
      rewrite IHw; [reflexivity | exact Hw | discriminate].
Qed.

Lemma replaceSeparators_rest (rest : list (string * string)) :
  Props.joints rest = true ->
  forall w : string,
    Spec.allChars isAlnum w = true ->
    TypeScript.replaceSeparators (Props.phrase w rest) = w ++ Props.capitalized rest.
Proof.
  unfold Props.phrase, Props.capitalized.
  induction rest as [| [gap word] rest IH]; intros Hrest w Hw.
  - cbn [map String.concat]. rewrite append_nil_r.
    rewrite <- (append_nil_r w) at 1.
    rewrite replaceSeparators_word by exact Hw. apply append_nil_r.
  - apply joints_inv in Hrest.
    destruct Hrest as ((sep & -> & Hsep) & Hword & _ & Hrest).
    apply word_inv in Hword. destruct Hword as (d & t & -> & Hd & Ht).
    cbn [map fst snd]. rewrite !concat_cons.
    rewrite replaceSeparators_word by exact Hw.
    cbn [append TypeScript.replaceSeparators].
    rewrite Hsep, (alnum_not_terminator d Hd). cbn [negb andb].
    rewrite (IH Hrest t Ht). reflexivity.
Qed.

(** X15.  The helper registered as pascalCase does not capitalise the first
    letter.  On words joined by single hyphens or underscores, where every
    word between two joints has at least two characters, it returns what
    the helper camelCase returns: the first word as it is, then the other
    words with their first character in upper case; so the first character
    of its result is the first character of the name. *)
Theorem pascalCase_helper (w : string) (rest : list (string * string)) :
  Props.isWord w = true ->
  Props.joints rest = true ->
  Helpers.pascalCase (Str (Props.phrase w rest))
  = Ok (w ++ Props.capitalized rest)
  /\ Helpers.camelCase (Str (Props.phrase w rest))
     = Ok (w ++ Props.capitalized rest).
Proof.
  intros Hw Hrest. unfold Helpers.pascalCase, Helpers.camelCase.
  cbn [asString JS.bind].
  apply word_inv in Hw. destruct Hw as (c & t & -> & Hc & Ht).
  assert (Hword : Spec.allChars isAlnum (String c t) = true)
    by (simpl; rewrite Hc, Ht; reflexivity).
  rewrite (replaceJoints_rest rest Hrest _ Hword) by (intros _; discriminate).
  rewrite (replaceSeparators_rest rest Hrest _ Hword).
  split; reflexivity.
Qed.

(** The name pet-store_api becomes petStoreApi under both helpers, not
    PetStoreApi; with words of one character the helper pascalCase misses
    every other joint. *)
Lemma pascalCase_helper_witness :
  Helpers.pascalCase (Str "pet-store_api") = Ok "petStoreApi"
  /\ Helpers.camelCase (Str "pet-store_api") = Ok "petStoreApi"
  /\ Helpers.pascalCase (Str "a-b-c") = Ok "aB-c".
Proof.
  destruct (pascalCase_helper "pet" [("-", "store"); ("_", "api")] eq_refl eq_refl)
    as (Hpascal & Hcamel).
  split; [exact Hpascal |]. split; [exact Hcamel | reflexivity].
Defined.

(** ** The two type tables *)

(** X16.  BaseGenerator.getTypeName and the generator's [mapType] agree on
    every label but three: for a label that is not object, email or uri,
    in whatever case, both return the same type; on these three they
    differ, [getTypeName] giving any, string and string where [mapType]
    gives Record<string, any> and the labels email and uri themselves.  A
    label that is not a string makes both throw. *)
Theorem getTypeName_mapType (label : string) :
  (existsb (String.eqb (toLowerCase label)) ["object"; "email"; "uri"] = false ->
   Engine.getTypeName (Str label) = TypeScript.mapType (Str label) Undefined)
  /\ (existsb (String.eqb (toLowerCase label)) ["object"; "email"; "uri"] = true ->
      Engine.getTypeName (Str label) <> TypeScript.mapType (Str label) Undefined)
  /\ (forall v : value,
        Spec.isString v = false ->
        Engine.getTypeName v = Throw TypeError
        /\ TypeScript.mapType v Undefined = Throw TypeError).
Proof.
  unfold Engine.getTypeName, TypeScript.mapType. cbn [asString JS.bind truthy].
  unfold lookupOr, Engine.getTypeName_typeMap, TypeScript.mapType_typeMap.
  split; [| split].
  - cbn [existsb]. intro H.
    apply orb_false_elim in H. destruct H as (Hobject & H).
    apply orb_false_elim in H. destruct H as (Hemail & H).
    apply orb_false_elim in H. destruct H as (Huri & _).
    rewrite !lookup_cons, Hobject, Hemail, Huri. reflexivity.
  - cbn [existsb]. intro H.
    rewrite !lookup_cons.
    destruct (String.eqb_spec (toLowerCase label) "object") as [E | _];
      [rewrite E; cbn; intro H'; discriminate H' |].
    destruct (String.eqb_spec (toLowerCase label) "email") as [E | _];
      [rewrite E; cbn; intro H'; injection H' as H'; subst label;
       vm_compute in E; discriminate E |].
    destruct (String.eqb_spec (toLowerCase label) "uri") as [E | _];
      [rewrite E; cbn; intro H'; injection H' as H'; subst label;
       vm_compute in E; discriminate E |].
    discriminate H.
  - intros v Hv. destruct v; try discriminate Hv; split; reflexivity.
Qed.

(** The label Date-Time is a string for both; the label Object is any for
    the one and a record for the other. *)
Lemma getTypeName_mapType_witness :
  Engine.getTypeName (Str "Date-Time") = TypeScript.mapType (Str "Date-Time") Undefined
  /\ Engine.getTypeName (Str "Object") <> TypeScript.mapType (Str "Object") Undefined.
Proof.
  split.
  - exact (proj1 (getTypeName_mapType "Date-Time") eq_refl).
  - exact (proj1 (proj2 (getTypeName_mapType "Object")) eq_refl).
Defined.

(* ================================================================== *)
(** * Further properties of the generator: the parameters *)
(* ================================================================== *)

(** X17.  The members of params.ts.  A parameter of the document with a
    name, a description that is a string or missing, and a schema of the
    expected shape is parsed, and [generateTypesFile] writes for it a
    member that is optional unless the parameter itself states a truthy
    [required] (the flag is read from the parameter, where the properties
    of a schema are tested against the list of the schema), whose type is
    the label of its schema translated by [mapType], never marked nullable
    whatever the schema says, and whose comment is the description or, by
    default, the name. *)
Theorem parameter_member (param : value) (name : string) :
  field param "name" = Str name ->
  Spec.describable (field param "description") = true ->
  Spec.shapedSchema (field param "schema") = true ->
  exists (p : ParsedParameter.t) (label : string),
    Parser.parseParameter param = Ok p
    /\ Parser.getSchemaType (field param "schema") = Ok (Str label)
    /\ TypeScript.generateParameter p
       = Ok (Props.memberText
               (Spec.descriptionOr (field param "description") name) name
               (truthy (field param "required")) (Props.mappedLabel label)).
Proof.
  intros Hname Hdesc Hschema.
  assert (Hn : isNullish param = false).
  { destruct param; try reflexivity; discriminate Hname. }
  assert (Hget : forall k, get param k = Ok (field param k)).
  { intro k. unfold get. rewrite Hn. reflexivity. }
  destruct (getSchemaType_shaped _ Hschema) as (label & Hlabel).
  assert (Hp : Parser.parseParameter param
               = Ok (ParsedParameter.make (field param "name")
                       (or (field param "in") (Str "query"))
                       (or (field param "required") (Boolean false)) (Str label)
                       (field param "description") (field param "schema"))).
  { unfold Parser.parseParameter. rewrite !Hget. cbn [JS.bind].
    rewrite Hlabel. reflexivity. }
  eexists. exists label. split; [exact Hp |]. split; [exact Hlabel |].
  unfold TypeScript.generateParameter, TypeScript.mapType.
  cbn [ParsedParameter.type ParsedParameter.description ParsedParameter.name
         ParsedParameter.required asString JS.bind truthy].
  rewrite Hname, (toString_describable _ _ Hdesc). cbn [JS.bind toString].
  unfold Props.memberText, Props.mappedLabel.
  assert (Hrequired : truthy (or (field param "required") (Boolean false))
                      = truthy (field param "required")).
  { unfold or. destruct (truthy (field param "required")) eqn:E;
      [exact E | reflexivity]. }
  rewrite Hrequired. reflexivity.
Qed.

(** The path parameter petId, which is required, is declared as
    [petId: number]; the query parameter limit, which says nothing of it
    and whose schema is nullable, as [limit?: number]. *)
Lemma parameter_member_witness :
  (exists p : ParsedParameter.t,
      Parser.parseParameter Props.petId = Ok p
      /\ TypeScript.generateParameter p
         = Ok ("  /** petId */" ++ TypeScript.nl ++ "  petId: number;"
               ++ TypeScript.nl))
  /\ (exists p : ParsedParameter.t,
         Parser.parseParameter Props.limit = Ok p
         /\ TypeScript.generateParameter p
            = Ok ("  /** Page size */" ++ TypeScript.nl ++ "  limit?: number;"
                  ++ TypeScript.nl)).
Proof.
  destruct (parameter_member Props.petId "petId" eq_refl eq_refl eq_refl)
    as (p & label & Hp & Hlabel & Htext).
  destruct (parameter_member Props.limit "limit" eq_refl eq_refl eq_refl)
    as (q & label' & Hq & Hlabel' & Htext').
  assert (E : label = "integer").
  { assert (H : Parser.getSchemaType (field Props.petId "schema")
                = Ok (Str "integer")) by reflexivity.
    rewrite Hlabel in H. injection H as H. exact H. }
  assert (E' : label' = "integer").
  { assert (H : Parser.getSchemaType (field Props.limit "schema")
                = Ok (Str "integer")) by reflexivity.
    rewrite Hlabel' in H. injection H as H. exact H. }
  rewrite E in Htext. rewrite E' in Htext'.
  split; [exists p | exists q]; split; assumption.
Defined.
